(** * infra-troubleshooter: the MCP server (mcp_server.py)

    A shallow embedding of the status registry ([receive_report],
    [get_status]), the Elasticsearch resource locator
    ([find_elasticsearch_resources]) and the remediation orchestrator
    ([remediate]) with its helpers, followed by the properties proved of
    them.

    Strings are ASCII strings.  Every call that leaves the process
    ([subprocess.run], [open], [subprocess.Popen], [process.poll]) is
    answered by a [world], which sees the whole history of earlier calls and
    sleeps; the calls and sleeps of a run are collected in a trace.  Logger
    calls have no effect on the modelled state and are left out. *)

From Stdlib Require Import ZArith Ascii String List Lia Bool.
From Stdlib Require Import Decimal DecimalString DecimalPos DecimalZ.
From stdpp Require Import base option list strings gmap.

Local Open Scope string_scope.
Local Open Scope list_scope.
Local Open Scope Z_scope.

(** ** Python string operations used by the server *)

Module PyStr.

(** [str.isspace] on one ASCII character: TAB, LF, VT, FF, CR, the
    separators 0x1c-0x1f and the space. *)
Definition isspace (c : ascii) : bool :=
  let n := nat_of_ascii c in
  ((9 <=? n)%nat && (n <=? 13)%nat) || ((28 <=? n)%nat && (n <=? 32)%nat).

Fixpoint lstrip (s : string) : string :=
  match s with
  | String c s' => if isspace c then lstrip s' else s
  | EmptyString => EmptyString
  end.

(** Removes trailing white space; the result of the tail decides whether
    the head is still trailing. *)
Fixpoint rstrip (s : string) : string :=
  match s with
  | EmptyString => EmptyString
  | String c s' =>
      match rstrip s' with
      | EmptyString => if isspace c then EmptyString else String c EmptyString
      | r => String c r
      end
  end.

(** [s.strip()] *)
Definition strip (s : string) : string := rstrip (lstrip s).

(** [s.split(sep)] for a one-character separator: never an empty list,
    [''.split(sep) = ['']]. *)
Fixpoint split (sep : ascii) (s : string) : list string :=
  match s with
  | EmptyString => [EmptyString]
  | String c s' =>
      if Ascii.eqb c sep then EmptyString :: split sep s'
      else match split sep s' with
           | w :: ws => String c w :: ws
           | [] => [String c EmptyString]
           end
  end.

(** [s.replace(old, '')] for a non-empty [old]: the occurrences of [old]
    are removed from left to right, without overlap.  [skip] counts the
    characters of an occurrence still to be dropped. *)
Fixpoint remove_from (old : string) (skip : nat) (s : string) : string :=
  match s with
  | EmptyString => EmptyString
  | String c s' =>
      match skip with
      | S k => remove_from old k s'
      | O => if String.prefix old s
             then remove_from old (Nat.pred (String.length old)) s'
             else String c (remove_from old O s')
      end
  end.

Definition remove (old s : string) : string := remove_from old O s.

Definition lower_ascii (c : ascii) : ascii :=
  let n := nat_of_ascii c in
  if ((65 <=? n)%nat && (n <=? 90)%nat) then ascii_of_nat (n + 32) else c.

(** [s.lower()] *)
Fixpoint lower (s : string) : string :=
  match s with
  | EmptyString => EmptyString
  | String c s' => String (lower_ascii c) (lower s')
  end.

(** [sub in s] *)
Fixpoint contains (sub s : string) : bool :=
  String.prefix sub s ||
  match s with
  | EmptyString => false
  | String _ s' => contains sub s'
  end.

(** [str(n)] for an integer of at most [int_max_str_digits] digits, the
    decimal form without leading zeros. *)
Definition of_Z (n : Z) : string := NilZero.string_of_int (Z.to_int n).

Definition is_digit (c : ascii) : bool :=
  let n := nat_of_ascii c in (48 <=? n)%nat && (n <=? 57)%nat.

Definition digit_value (c : ascii) : Z := Z.of_nat (nat_of_ascii c) - 48.

(** The digits of an integer literal as [int()] reads them: one or more
    digits, single underscores allowed between two digits.  [acc] is the
    value read so far and [after_digit] tells whether the previous
    character was a digit. *)
Fixpoint digits (acc : Z) (after_digit : bool) (s : string) : option Z :=
  match s with
  | EmptyString => if after_digit then Some acc else None
  | String c s' =>
      if is_digit c then digits (10 * acc + digit_value c) true s'
      else if Ascii.eqb c "_"%char
           then (if after_digit then digits acc false s' else None)
           else None
  end.

(** How many digits a string holds. *)
Fixpoint digit_count (s : string) : nat :=
  match s with
  | EmptyString => 0
  | String c s' => (if is_digit c then 1 else 0) + digit_count s'
  end.

(** [sys.get_int_max_str_digits()], as CPython sets it: [int()] raises
    [ValueError] on a literal with more digits, leading zeros counted. *)
Definition int_max_str_digits : nat := 4300.

(** The digits of a literal after its sign. *)
Definition literal (body : string) : option Z :=
  if (digit_count body <=? int_max_str_digits)%nat then digits 0 false body else None.

(** [int(s)] in base 10 on an ASCII string; [None] is [ValueError]. *)
Definition to_Z (s : string) : option Z :=
  match strip s with
  | String "-"%char s' => option_map Z.opp (literal s')
  | String "+"%char s' => literal s'
  | s' => literal s'
  end.

(** Truth value of a string: non-empty. *)
Definition truthy (s : string) : bool :=
  match s with EmptyString => false | _ => true end.

End PyStr.

Example strip_example : PyStr.strip "  3
" = "3".
Proof. reflexivity. Qed.

Example split_example :
  PyStr.split "010"%char "service/a
service/b" = ["service/a"; "service/b"].
Proof. reflexivity. Qed.

Example remove_example : PyStr.remove "service/" "service/es-Master" = "es-Master".
Proof. reflexivity. Qed.

Example contains_example :
  PyStr.contains "elasticsearch" (PyStr.lower "My-ElasticSearch-svc") = true.
Proof. reflexivity. Qed.

Example of_Z_example : PyStr.of_Z 8200 = "8200".
Proof. reflexivity. Qed.

Example to_Z_example :
  PyStr.to_Z "3" = Some 3 /\ PyStr.to_Z "" = None /\ PyStr.to_Z "-1" = Some (-1)
  /\ PyStr.to_Z "1_0" = Some 10 /\ PyStr.to_Z "3 replicas" = None.
Proof. repeat split; reflexivity. Qed.

(** ** Calls that leave the process, and the world that answers them *)

(** What the server does to the outside, in the order it does it. *)
Inductive event : Type :=
| Run (argv : list string) (timeout : option nat)  (* subprocess.run *)
| Open (path : string)                             (* open(path, "a") *)
| Popen (argv : list string)                       (* subprocess.Popen *)
| Poll                                             (* process.poll() *)
| TimeSleep (seconds : nat)                        (* time.sleep *)
| AsyncioSleep (seconds : nat).                    (* await asyncio.sleep *)

#[global] Instance event_eq_dec : EqDecision event.
Proof. solve_decision. Defined.

(** How a [subprocess.run] ends: the command completes with an exit code
    and its captured output, the timeout expires, or the call fails in
    another way (the program cannot be started, ...). *)
Inductive run_result : Type :=
| Completed (returncode : Z) (stdout stderr : string)
| TimedOut
| RunError (msg : string).

(** The environment of the server.  Each answer may depend on everything
    that happened before.  [None] from [open_answer] and [popen_answer]
    means success and [Some msg] an exception whose [str] is [msg];
    [poll_answer] gives [None] while the process is running.
    [CalledProcessError_str] is the library's [str] of a
    [CalledProcessError], computed from the command and the exit code. *)
Record world : Type := {
  CLUSTER_NAME : string;
  run_answer : list event → list string → option nat → run_result;
  open_answer : list event → string → option string;
  popen_answer : list event → list string → option string;
  poll_answer : list event → option Z;
  CalledProcessError_str : list string → Z → string
}.

(** The exceptions the handlers of the server tell apart.  [Exception]
    stands for an instance of any other subclass of [Exception], [str]
    being what [str(e)] gives. *)
Inductive exn : Type :=
| CalledProcessError (cmd : list string) (returncode : Z) (stderr : string)
| TimeoutExpired (cmd : list string) (timeout : option nat)
| Exception (str : string).

Inductive result (A : Type) : Type :=
| Return (a : A)
| Raise (e : exn).
Arguments Return {A} a.
Arguments Raise {A} e.

(** An entry of [remediation_log]. *)
Record RemediationOutcome : Type := {
  entry_cluster : string;
  entry_service : string;
  entry_status : string;
  entry_message : string
}.

(** What a piece of code did: the events it added to the trace, the entries
    it appended to [remediation_log], and how it ended. *)
Record run (A : Type) : Type := {
  events : list event;
  appended : list RemediationOutcome;
  value : result A
}.
Arguments Build_run {A} _ _ _.
Arguments events {A} _.
Arguments appended {A} _.
Arguments value {A} _.

(** A computation reads the world and the trace so far. *)
Definition M (A : Type) : Type := world → list event → run A.

Definition ret {A} (a : A) : M A :=
  λ _ _, {| events := []; appended := []; value := Return a |}.

Definition raise {A} (e : exn) : M A :=
  λ _ _, {| events := []; appended := []; value := Raise e |}.

Definition bind {A B} (m : M A) (f : A → M B) : M B :=
  λ w h,
    let r := m w h in
    match value r with
    | Return a =>
        let r' := f a w (h ++ events r) in
        {| events := events r ++ events r';
           appended := appended r ++ appended r';
           value := value r' |}
    | Raise e =>
        {| events := events r; appended := appended r; value := Raise e |}
    end.

(** [try: m  except ...: handler e] with a handler that takes every
    exception of the model. *)
Definition try_except {A} (m : M A) (handler : exn → M A) : M A :=
  λ w h,
    let r := m w h in
    match value r with
    | Return a => r
    | Raise e =>
        let r' := handler e w (h ++ events r) in
        {| events := events r ++ events r';
           appended := appended r ++ appended r';
           value := value r' |}
    end.

Declare Scope py_scope.
Delimit Scope py_scope with py.
Notation "x <- m ;; k" := (bind m (λ x, k))
  (at level 100, m at next level, k at level 200, right associativity) : py_scope.
Notation "m ;; k" := (bind m (λ _, k))
  (at level 100, k at level 200, right associativity) : py_scope.
Local Open Scope py_scope.

(** Reads a setting of the world. *)
Definition ask {A} (f : world → A) : M A :=
  λ w _, {| events := []; appended := []; value := Return (f w) |}.

Definition emit (e : event) : M unit :=
  λ _ _, {| events := [e]; appended := []; value := Return tt |}.

(** [time.sleep(n)] and [await asyncio.sleep(n)]. *)
Definition time_sleep (n : nat) : M unit := emit (TimeSleep n).
Definition asyncio_sleep (n : nat) : M unit := emit (AsyncioSleep n).

(** [remediation_log.append(entry)] *)
Definition remediation_log_append (entry : RemediationOutcome) : M unit :=
  λ _ _, {| events := []; appended := [entry]; value := Return tt |}.

(** The attributes of a [CompletedProcess] the server reads. *)
Record CompletedProcess : Type := {
  returncode : Z;
  stdout : string;
  stderr : string
}.

(** [subprocess.run(argv, capture_output=True, text=True, timeout=...,
    check=...)]: with [check], a non-zero exit code raises
    [CalledProcessError]. *)
Definition subprocess_run (check : bool) (argv : list string)
    (timeout : option nat) : M CompletedProcess :=
  λ w h,
    {| events := [Run argv timeout];
       appended := [];
       value :=
         match run_answer w h argv timeout with
         | Completed rc out err =>
             if check && negb (rc =? 0)
             then Raise (CalledProcessError argv rc err)
             else Return {| returncode := rc; stdout := out; stderr := err |}
         | TimedOut => Raise (TimeoutExpired argv timeout)
         | RunError msg => Raise (Exception msg)
         end |}.

(** [open(path, "a")] *)
Definition open_append (path : string) : M unit :=
  λ w h,
    {| events := [Open path];
       appended := [];
       value := match open_answer w h path with
                | None => Return tt
                | Some msg => Raise (Exception msg)
                end |}.

(** [subprocess.Popen(argv, stdout=f, stderr=f)] *)
Definition subprocess_Popen (argv : list string) : M unit :=
  λ w h,
    {| events := [Popen argv];
       appended := [];
       value := match popen_answer w h argv with
                | None => Return tt
                | Some msg => Raise (Exception msg)
                end |}.

(** [process.poll()] *)
Definition process_poll : M (option Z) :=
  λ w h,
    {| events := [Poll]; appended := []; value := Return (poll_answer w h) |}.

(** ** The server: configuration *)

Record PortForward : Type := {
  pf_namespace : string;
  pf_service : string;
  pf_port : Z
}.

(** The dict [PORT_FORWARDS]; [None] where a subscript raises [KeyError]. *)
Definition PORT_FORWARDS (service : string) : option PortForward :=
  if (service =? "vault")%string then
    Some {| pf_namespace := "vault"; pf_service := "vault"; pf_port := 8200 |}
  else if (service =? "consul")%string then
    Some {| pf_namespace := "consul"; pf_service := "consul-server"; pf_port := 8500 |}
  else if (service =? "elasticsearch")%string then
    Some {| pf_namespace := "elasticsearch"; pf_service := "elasticsearch-master";
            pf_port := 9200 |}
  else None.

(** [PORT_FORWARDS[service]]; the [str] of a [KeyError] is the [repr] of
    the key. *)
Definition PORT_FORWARDS_getitem (service : string) : M PortForward :=
  match PORT_FORWARDS service with
  | Some config => ret config
  | None => raise (Exception ("'" +:+ service +:+ "'"))
  end.

(** ** The resource locator *)

Definition search_configs : list (string * string * string) :=
  [ ("elasticsearch", "elasticsearch-master", "elasticsearch-master");
    ("elasticsearch", "elasticsearch", "elasticsearch");
    ("elasticsearch", "elasticsearch-master", "elasticsearch");
    ("elasticsearch", "elasticsearch-master", "elasticsearch-master");
    ("default", "elasticsearch", "elasticsearch");
    ("logging", "elasticsearch", "elasticsearch") ].

(** The names on the lines of [kubectl get svc -o name]. *)
Definition listed_services (out : string) : list string :=
  map (PyStr.remove "service/") (PyStr.split "010"%char (PyStr.strip out)).

(** The loop over the lines of the service listing: the first name that
    contains [elasticsearch] once lowered. *)
Definition first_elasticsearch_service (out : string) : option string :=
  List.find (λ service_name, PyStr.contains "elasticsearch" (PyStr.lower service_name))
            (listed_services out).

(** The body of the loop over [search_configs]: [Some] is a [return] of
    the function, [None] a [continue] (or the end of the body). *)
Definition check_config (config : string * string * string)
    : M (option (string * string * string)) :=
  let '(namespace, sts_name, svc_name) := config in
  try_except
    (ns_result <- subprocess_run false ["kubectl"; "get"; "namespace"; namespace] (Some 5%nat);;
     if negb (returncode ns_result =? 0) then ret None
     else
       sts_result <- subprocess_run false
         ["kubectl"; "get"; "statefulset"; sts_name; "-n"; namespace] (Some 5%nat);;
       if returncode sts_result =? 0 then
         svc_result <- subprocess_run false
           ["kubectl"; "get"; "service"; svc_name; "-n"; namespace] (Some 5%nat);;
         if returncode svc_result =? 0 then ret (Some (namespace, sts_name, svc_name))
         else
           all_svc_result <- subprocess_run false
             ["kubectl"; "get"; "svc"; "-n"; namespace; "-o"; "name"] (Some 5%nat);;
           match (if returncode all_svc_result =? 0
                  then first_elasticsearch_service (stdout all_svc_result)
                  else None) with
           | Some service_name => ret (Some (namespace, sts_name, service_name))
           | None => ret (Some (namespace, sts_name, sts_name))
           end
       else ret None)
    (λ _, ret None).

Fixpoint scan_configs (configs : list (string * string * string))
    : M (option (string * string * string)) :=
  match configs with
  | [] => ret None
  | config :: rest =>
      found <- check_config config;;
      match found with
      | Some location => ret (Some location)
      | None => scan_configs rest
      end
  end.

(** The loop [for attempt in range(3)]. *)
Fixpoint detection_attempts (attempts : list nat)
    : M (option (string * string * string)) :=
  match attempts with
  | [] => ret None
  | attempt :: rest =>
      found <- scan_configs search_configs;;
      match found with
      | Some location => ret (Some location)
      | None =>
          (if (attempt <? 2)%nat then time_sleep 5 else ret tt);;
          detection_attempts rest
      end
  end.

(** [find_elasticsearch_resources()].  The source returns a triple of
    strings or [(None, None, None)]; the latter is [None] here. *)
Definition find_elasticsearch_resources : M (option (string * string * string)) :=
  detection_attempts (seq 0 3).

(** ** Helpers of the orchestrator *)

Definition get_statefulset_replicas (name namespace : string) : M Z :=
  try_except
    (result <- subprocess_run false
       ["kubectl"; "get"; "statefulset"; name; "-n"; namespace; "-o";
        "jsonpath={.spec.replicas}"] (Some 10%nat);;
     if (returncode result =? 0) && PyStr.truthy (PyStr.strip (stdout result)) then
       match PyStr.to_Z (PyStr.strip (stdout result)) with
       | Some n => ret n
       | None => raise (Exception "invalid literal for int() with base 10")
       end
     else ret 0)
    (λ _, ret 0).

Definition scale_statefulset (name namespace : string) (replicas : Z) : M bool :=
  try_except
    (result <- subprocess_run true
       ["kubectl"; "scale"; "statefulset"; name; "-n"; namespace;
        "--replicas=" +:+ PyStr.of_Z replicas] (Some 30%nat);;
     ret true)
    (λ e, match e with
          | CalledProcessError _ _ _ => ret false
          | _ => ret false
          end).

Definition kill_port_forward (service : string) : M unit :=
  try_except
    (config <- PORT_FORWARDS_getitem service;;
     let port := pf_port config in
     result <- subprocess_run false
       ["pkill"; "-f"; "kubectl port-forward.*" +:+ PyStr.of_Z port] None;;
     time_sleep 2)
    (λ _, ret tt).

(** Truth value of an optional string argument. *)
Definition truthy_arg (a : option string) : bool :=
  match a with Some s => PyStr.truthy s | None => false end.

Definition start_port_forward (service : string) (namespace svc_name : option string)
    : M bool :=
  try_except
    (names <- (match namespace, svc_name with
              | Some ns, Some service_name =>
                  if truthy_arg namespace && truthy_arg svc_name
                  then ret (ns, service_name)
                  else config <- PORT_FORWARDS_getitem service;;
                       ret (pf_namespace config, pf_service config)
              | _, _ => config <- PORT_FORWARDS_getitem service;;
                        ret (pf_namespace config, pf_service config)
              end);;
     let '(ns, service_name) := names in
     config <- PORT_FORWARDS_getitem service;;
     let port := pf_port config in
     kill_port_forward service;;
     let logfile := service +:+ ".log" in
     let cmd := ["kubectl"; "port-forward"; "svc/" +:+ service_name;
                 PyStr.of_Z port +:+ ":" +:+ PyStr.of_Z port; "-n"; ns] in
     open_append logfile;;
     subprocess_Popen cmd;;
     time_sleep 3;;
     status <- process_poll;;
     match status with
     | None => ret true
     | Some _ => ret false
     end)
    (λ _, ret false).

(** ** The remediation orchestrator *)

(** The four variables [remediate] sets while it resolves a service. *)
Record target : Type := {
  namespace : string;
  statefulset_name : string;
  service_name : string;
  default_replicas : Z
}.

Definition common_patterns : list (string * string) :=
  [ ("elasticsearch", "elasticsearch-master");
    ("elasticsearch", "elasticsearch");
    ("elasticsearch", "elasticsearch-master") ].

(** The last-resort loop over [common_patterns]; [Some] is its [break]. *)
Fixpoint try_common_patterns (patterns : list (string * string))
    : M (option (string * string * string)) :=
  match patterns with
  | [] => ret None
  | (ns, sts) :: rest =>
      ok <- try_except
             (check <- subprocess_run false
                ["kubectl"; "get"; "statefulset"; sts; "-n"; ns] (Some 5%nat);;
              ret (returncode check =? 0))
             (λ _, ret false);;
      if ok then ret (Some (ns, sts, sts)) else try_common_patterns rest
  end.

(** The text built by the loop that follows a failed last resort. *)
Definition error_details : string :=
  fold_left (λ details '(ns, sts), details +:+ "  - " +:+ ns +:+ "/" +:+ sts +:+ "
") common_patterns "Tried these combinations:
".

(** The [elasticsearch] branch.  A located namespace and StatefulSet are
    non-empty strings, so the test [not namespace or not statefulset_name]
    holds exactly when the locator found nothing. *)
Definition resolve_elasticsearch : M target :=
  try_except
    (all_resources <- subprocess_run false
       ["kubectl"; "get"; "all"; "-n"; "elasticsearch"] (Some 10%nat);;
     ret tt)
    (λ _, ret tt);;
  found <- find_elasticsearch_resources;;
  match found with
  | Some (ns, sts, svc) =>
      ret {| namespace := ns; statefulset_name := sts; service_name := svc;
             default_replicas := 3 |}
  | None =>
      fallback <- try_common_patterns common_patterns;;
      match fallback with
      | Some (ns, sts, svc) =>
          ret {| namespace := ns; statefulset_name := sts; service_name := svc;
                 default_replicas := 3 |}
      | None =>
          raise (Exception ("Elasticsearch not found. " +:+ error_details +:+
            "Run 'kubectl get statefulset -A | grep -i elastic' to find it manually."))
      end
  end.

(** The chain [if service == "vault" ... elif ... else]; [None] is the
    [else] branch. *)
Definition resolve (service : string) : M (option target) :=
  if (service =? "vault")%string then
    ret (Some {| namespace := "vault"; statefulset_name := "vault";
                 service_name := "vault"; default_replicas := 1 |})
  else if (service =? "consul")%string then
    ret (Some {| namespace := "consul"; statefulset_name := "consul-server";
                 service_name := "consul-server"; default_replicas := 3 |})
  else if (service =? "elasticsearch")%string then
    t <- resolve_elasticsearch;; ret (Some t)
  else ret None.

(** Check if the StatefulSet exists. *)
Definition validate (t : target) : M unit :=
  check_sts <- subprocess_run false
    ["kubectl"; "get"; "statefulset"; statefulset_name t; "-n"; namespace t]
    (Some 10%nat);;
  if negb (returncode check_sts =? 0) then
    raise (Exception ("StatefulSet " +:+ statefulset_name t +:+ " not found in namespace "
                      +:+ namespace t +:+ ". Error: " +:+ PyStr.strip (stderr check_sts)))
  else ret tt.

Definition wait_time (service : string) : nat :=
  if (service =? "elasticsearch")%string then 60%nat else 30%nat.

Definition rollout_wait (service : string) : nat :=
  if (service =? "elasticsearch")%string then 90%nat else 30%nat.

(** If scaled to 0, scale back up first. *)
Definition rescale_if_zero (service : string) (t : target) (current_replicas : Z)
    : M unit :=
  if current_replicas =? 0 then
    scaled <- scale_statefulset (statefulset_name t) (namespace t) (default_replicas t);;
    if negb scaled then raise (Exception ("Failed to scale " +:+ service +:+ " back up"))
    else asyncio_sleep (wait_time service)
  else ret tt.

Definition rollout_restart (service : string) (t : target) : M unit :=
  result <- subprocess_run true
    ["kubectl"; "rollout"; "restart"; "statefulset/" +:+ statefulset_name t; "-n";
     namespace t] (Some 60%nat);;
  asyncio_sleep (rollout_wait service).

(** The stages from the validation to the rollout restart; the value is
    [current_replicas]. *)
Definition through_restart (service : string) (t : target) : M Z :=
  validate t;;
  current_replicas <- get_statefulset_replicas (statefulset_name t) (namespace t);;
  rescale_if_zero service t current_replicas;;
  rollout_restart service t;;
  ret current_replicas.

(** The loop [for i in range(6)] that waits for the service. *)
Fixpoint await_ready (t : target) (rounds : list nat) : M unit :=
  match rounds with
  | [] => ret tt
  | i :: rest =>
      ready <- try_except
                (check_svc <- subprocess_run false
                   ["kubectl"; "get"; "svc"; service_name t; "-n"; namespace t]
                   (Some 5%nat);;
                 ret (returncode check_svc =? 0))
                (λ _, ret false);;
      if ready then ret tt
      else asyncio_sleep 10;; await_ready t rest
  end.

Definition port_warning : string :=
  " Warning: Failed to restart port-forward - you may need to restart manually.".

(** The message of a success entry. *)
Definition success_message (service : string) (t : target) (current_replicas : Z)
    (port_msg : string) : string :=
  "Remediation completed for " +:+ service +:+ "." +:+
  (if current_replicas =? 0
   then " Scaled from 0 to " +:+ PyStr.of_Z (default_replicas t) +:+
        " replicas and restarted."
   else " Performed rolling restart.") +:+
  port_msg +:+
  " Found in namespace: " +:+ namespace t +:+ " as StatefulSet: " +:+
  statefulset_name t +:+ ".".

(** Restart the port-forward and log success. *)
Definition restore_access_and_succeed (service : string) (t : target)
    (current_replicas : Z) : M unit :=
  started <- start_port_forward service (Some (namespace t)) (Some (service_name t));;
  port_msg <- (if started then
                config <- PORT_FORWARDS_getitem service;;
                ret (" Port-forward restarted on port " +:+ PyStr.of_Z (pf_port config)
                     +:+ ".")
              else ret port_warning);;
  cluster <- ask CLUSTER_NAME;;
  remediation_log_append
    {| entry_cluster := cluster; entry_service := service; entry_status := "success";
       entry_message := success_message service t current_replicas port_msg |}.

(** What [remediate] does once the service is resolved. *)
Definition remediate_resolved (service : string) (t : target) : M unit :=
  current_replicas <- through_restart service t;;
  await_ready t (seq 0 6);;
  restore_access_and_succeed service t current_replicas.

(** The body of the [try] of [remediate]. *)
Definition remediate_try (service : string) : M unit :=
  resolved <- resolve service;;
  match resolved with
  | None =>
      cluster <- ask CLUSTER_NAME;;
      remediation_log_append
        {| entry_cluster := cluster; entry_service := service;
           entry_status := "failed";
           entry_message := "No remediation implemented for service '" +:+ service
                            +:+ "'" |}
  | Some t => remediate_resolved service t
  end.

(** The message each [except] clause of [remediate] logs. *)
Definition error_msg (e : exn) : M string :=
  match e with
  | CalledProcessError cmd rc err =>
      detail <- (if PyStr.truthy err then ret (PyStr.strip err)
                 else ask (λ w, CalledProcessError_str w cmd rc));;
      ret ("Kubectl command failed: " +:+ detail)
  | TimeoutExpired _ _ => ret "Remediation command timed out"
  | Exception s => ret ("Unexpected error during remediation: " +:+ s)
  end.

Definition remediate (service : string) : M unit :=
  try_except (remediate_try service)
    (λ e,
       msg <- error_msg e;;
       cluster <- ask CLUSTER_NAME;;
       remediation_log_append
         {| entry_cluster := cluster; entry_service := service;
            entry_status := "failed"; entry_message := msg |}).

(** ** The status registry

    [status] and [remediation_log] are two objects created when the module
    is loaded.  Python hands objects around by reference, so they live on a
    heap and the values of the handlers hold addresses. *)

Definition loc : Type := positive.

(** The stored dict of a report. *)
Record HealthRecord : Type := {
  healthy : bool;
  details : string;
  consul_host : string
}.

Inductive object : Type :=
| DictObject (d : gmap string HealthRecord)
| ListObject (l : list RemediationOutcome).

(** Where the module-level names [status] and [remediation_log] point. *)
Definition status_ref : loc := 1%positive.
Definition remediation_log_ref : loc := 2%positive.

(** The heap once the module is loaded. *)
Definition initial_heap : gmap loc object :=
  <[status_ref := DictObject ∅]> (<[remediation_log_ref := ListObject []]> ∅).

(** The dict a reference points to. *)
Definition dict_at (l : loc) (h : gmap loc object) : option (gmap string HealthRecord) :=
  match h !! l with
  | Some (DictObject d) => Some d
  | _ => None
  end.

(** [d[key] = record] through a reference [l] to [d]. *)
Definition dict_setitem (l : loc) (key : string) (record : HealthRecord)
    (h : gmap loc object) : gmap loc object :=
  match h !! l with
  | Some (DictObject d) => <[l := DictObject (<[key := record]> d)]> h
  | _ => h
  end.

(** The JSON body of a report; [None] is an absent key. *)
Record Report : Type := {
  report_cluster : option string;
  report_service : option string;
  report_healthy : option bool;
  report_details : option string;
  report_consul_host : option string
}.

(** The key [f"{report['cluster']}-{report['service']}"]; [None] where a
    subscript raises [KeyError]. *)
Definition report_key (report : Report) : option string :=
  match report_cluster report, report_service report with
  | Some cluster, Some service => Some (cluster +:+ "-" +:+ service)
  | _, _ => None
  end.

(** The dict stored for a report. *)
Definition report_record (report : Report) : HealthRecord :=
  {| healthy := default false (report_healthy report);
     details := default "" (report_details report);
     consul_host := default "N/A" (report_consul_host report) |}.

(** [receive_report(report)]: the heap afterwards and the response. *)
Definition receive_report (report : Report) (h : gmap loc object)
    : gmap loc object * result (string * string) :=
  match report_cluster report with
  | None => (h, Raise (Exception "'cluster'"))
  | Some cluster =>
      match report_service report with
      | None => (h, Raise (Exception "'service'"))
      | Some service =>
          let key := cluster +:+ "-" +:+ service in
          (dict_setitem status_ref key (report_record report) h,
           Return ("Report received", key))
      end
  end.

(** The heap after a sequence of reports. *)
Definition receive_reports (reports : list Report) (h : gmap loc object)
    : gmap loc object :=
  fold_left (λ h report, fst (receive_report report h)) reports h.

(** The dict [get_status] returns: [status] and [remediation_log] are the
    names themselves, that is references. *)
Record StatusResponse : Type := {
  response_cluster : string;
  response_status : loc;
  response_remediation_log : loc;
  total_services : nat;
  healthy_services : nat
}.

Definition get_status (w : world) (h : gmap loc object) : StatusResponse :=
  let status := default ∅ (dict_at status_ref h) in
  {| response_cluster := CLUSTER_NAME w;
     response_status := status_ref;
     response_remediation_log := remediation_log_ref;
     total_services := size status;
     healthy_services :=
       length (filter (λ s : HealthRecord, healthy s = true)
                      (snd <$> map_to_list status)) |}.




(** *** What the claim about reports is compared with *)

(** The last report of a sequence that is stored under [key]. *)
Definition last_report_for (key : string) (reports : list Report) : option Report :=
  last (filter (λ r, report_key r = Some key) reports).

(** ** Worlds used in the examples *)

(** A cluster that answers a command the same way whenever it is asked. *)
Definition static_world (answer : list string → run_result) (poll : option Z) : world :=
  {| CLUSTER_NAME := "c1";
     run_answer := λ _ argv _, answer argv;
     open_answer := λ _ _, None;
     popen_answer := λ _ _, None;
     poll_answer := λ _, poll;
     CalledProcessError_str := λ _ _, "Command returned non-zero exit status 1." |}.

Definition arg (i : nat) (argv : list string) : string := nth i argv "".

(** Is [argv] the command that reads the replica count? *)
Definition reads_replicas (argv : list string) : bool :=
  (arg 7 argv =? "jsonpath={.spec.replicas}")%string.

(** Every command succeeds; the replica count reads as [replicas]. *)
Definition healthy_answer (replicas : string) (argv : list string) : run_result :=
  if reads_replicas argv then Completed 0 replicas "" else Completed 0 "" "".

(** No command finds anything. *)
Definition empty_answer (argv : list string) : run_result :=
  Completed 1 "" "Error from server (NotFound)".

(** As [healthy_answer], but the service never shows up at the readiness
    polls ([kubectl get svc NAME -n NAMESPACE]). *)
Definition no_service_answer (replicas : string) (argv : list string) : run_result :=
  if (arg 2 argv =? "svc")%string then Completed 1 "" "Error from server (NotFound)"
  else healthy_answer replicas argv.

(** As [healthy_answer], but the read of the replica count times out. *)
Definition unreadable_answer (argv : list string) : run_result :=
  if reads_replicas argv then TimedOut else Completed 0 "" "".

(** The namespace [elasticsearch] and the StatefulSet
    [elasticsearch-master] exist, every look-up of a service times out, and
    nothing else is found. *)
Definition stalling_answer (argv : list string) : run_result :=
  if (arg 2 argv =? "namespace")%string then
    (if (arg 3 argv =? "elasticsearch")%string then Completed 0 "" ""
     else Completed 1 "" "Error from server (NotFound)")
  else if (arg 2 argv =? "statefulset")%string then
    (if (arg 3 argv =? "elasticsearch-master")%string
        && (arg 5 argv =? "elasticsearch")%string
     then Completed 0 "" ""
     else Completed 1 "" "Error from server (NotFound)")
  else if (arg 2 argv =? "service")%string || (arg 2 argv =? "svc")%string then TimedOut
  else Completed 1 "" "Error from server (NotFound)".

(** The namespace [elasticsearch] holds the StatefulSet
    [elasticsearch-master]; its service goes by another name. *)
Definition renamed_service_answer (argv : list string) : run_result :=
  if (arg 2 argv =? "namespace")%string then
    (if (arg 3 argv =? "elasticsearch")%string then Completed 0 "" ""
     else Completed 1 "" "Error from server (NotFound)")
  else if (arg 2 argv =? "statefulset")%string then
    (if (arg 3 argv =? "elasticsearch-master")%string then Completed 0 "" ""
     else Completed 1 "" "Error from server (NotFound)")
  else if (arg 2 argv =? "svc")%string && (arg 5 argv =? "-o")%string then
    Completed 0 "service/kibana
service/Elasticsearch-Client
" ""
  else Completed 1 "" "Error from server (NotFound)".

Definition vault_report : Report :=
  {| report_cluster := Some "c1"; report_service := Some "vault";
     report_healthy := Some false; report_details := Some "status 500";
     report_consul_host := None |}.

(** * Properties *)

(** ** How computations compose *)

Lemma bind_Return {A B} (m : M A) (f : A → M B) w h a :
  value (m w h) = Return a →
  events (bind m f w h) = events (m w h) ++ events (f a w (h ++ events (m w h)))
  ∧ appended (bind m f w h)
    = appended (m w h) ++ appended (f a w (h ++ events (m w h)))
  ∧ value (bind m f w h) = value (f a w (h ++ events (m w h))).
Proof. intros Hv. unfold bind. rewrite Hv. done. Qed.

Lemma bind_Raise {A B} (m : M A) (f : A → M B) w h e :
  value (m w h) = Raise e →
  events (bind m f w h) = events (m w h)
  ∧ appended (bind m f w h) = appended (m w h)
  ∧ value (bind m f w h) = Raise e.
Proof. intros Hv. unfold bind. rewrite Hv. done. Qed.

Lemma try_except_Return {A} (m : M A) handler w h a :
  value (m w h) = Return a → try_except m handler w h = m w h.
Proof. intros Hv. unfold try_except. by rewrite Hv. Qed.

Lemma try_except_Raise {A} (m : M A) handler w h e :
  value (m w h) = Raise e →
  events (try_except m handler w h)
  = events (m w h) ++ events (handler e w (h ++ events (m w h)))
  ∧ appended (try_except m handler w h)
    = appended (m w h) ++ appended (handler e w (h ++ events (m w h)))
  ∧ value (try_except m handler w h) = value (handler e w (h ++ events (m w h))).
Proof. intros Hv. unfold try_except. rewrite Hv. done. Qed.

(** ** Confinement: what a computation may do

    [confined Q m]: every event of [m] satisfies [Q] and [m] appends
    nothing to [remediation_log]. *)

Definition confined {A} (Q : event → Prop) (m : M A) : Prop :=
  ∀ w h, Forall Q (events (m w h)) ∧ appended (m w h) = [].

(** [total m]: [m] never raises. *)
Definition total {A} (m : M A) : Prop :=
  ∀ w h, ∃ a, value (m w h) = Return a.

Section Confinement.
Context (Q : event → Prop).

Lemma confined_ret {A} (a : A) : confined Q (ret a).
Proof. intros w h. split; [constructor | done]. Qed.

Lemma confined_raise {A} e : confined Q (@raise A e).
Proof. intros w h. split; [constructor | done]. Qed.

Lemma confined_ask {A} (f : world → A) : confined Q (ask f).
Proof. intros w h. split; [constructor | done]. Qed.

Lemma confined_emit e : Q e → confined Q (emit e).
Proof. intros He w h. split; [by repeat constructor | done]. Qed.

Lemma confined_subprocess_run check argv timeout :
  Q (Run argv timeout) → confined Q (subprocess_run check argv timeout).
Proof. intros He w h. split; [by repeat constructor | done]. Qed.

Lemma confined_open_append path : Q (Open path) → confined Q (open_append path).
Proof. intros He w h. split; [by repeat constructor | done]. Qed.

Lemma confined_subprocess_Popen argv :
  Q (Popen argv) → confined Q (subprocess_Popen argv).
Proof. intros He w h. split; [by repeat constructor | done]. Qed.

Lemma confined_process_poll : Q Poll → confined Q process_poll.
Proof. intros He w h. split; [by repeat constructor | done]. Qed.

Lemma confined_bind {A B} (m : M A) (f : A → M B) :
  confined Q m → (∀ a, confined Q (f a)) → confined Q (bind m f).
Proof.
  intros Hm Hf w h. destruct (Hm w h) as [He Ha].
  destruct (value (m w h)) as [a|e] eqn:Hv.
  - destruct (bind_Return m f w h a Hv) as (-> & -> & _).
    destruct (Hf a w (h ++ events (m w h))) as [He' Ha'].
    rewrite Ha, Ha'. split; [by apply Forall_app | done].
  - destruct (bind_Raise m f w h e Hv) as (-> & -> & _). done.
Qed.

Lemma confined_try_except {A} (m : M A) handler :
  confined Q m → (∀ e, confined Q (handler e)) → confined Q (try_except m handler).
Proof.
  intros Hm Hf w h. destruct (Hm w h) as [He Ha].
  destruct (value (m w h)) as [a|e] eqn:Hv.
  - by rewrite (try_except_Return m handler w h a Hv).
  - destruct (try_except_Raise m handler w h e Hv) as (-> & -> & _).
    destruct (Hf e w (h ++ events (m w h))) as [He' Ha'].
    rewrite Ha, Ha'. split; [by apply Forall_app | done].
Qed.

Lemma confined_PORT_FORWARDS_getitem service :
  confined Q (PORT_FORWARDS_getitem service).
Proof.
  unfold PORT_FORWARDS_getitem.
  destruct (PORT_FORWARDS service); [apply confined_ret | apply confined_raise].
Qed.
End Confinement.

Lemma confined_weaken {A} (Q Q' : event → Prop) (m : M A) :
  (∀ e, Q e → Q' e) → confined Q m → confined Q' m.
Proof.
  intros HQ Hm w h. destruct (Hm w h) as [He Ha].
  split; [by eapply Forall_impl | done].
Qed.

(** Splits a confinement goal along the structure of the computation. *)
Ltac confine :=
  repeat first
    [ apply confined_ret | apply confined_raise | apply confined_ask
    | apply confined_PORT_FORWARDS_getitem
    | apply confined_bind; [| intros ?]
    | apply confined_try_except; [| intros ?]
    | apply confined_subprocess_run | apply confined_emit
    | apply confined_open_append | apply confined_subprocess_Popen
    | apply confined_process_poll
    | match goal with
      | |- confined _ (if ?b then _ else _) => destruct b
      | |- confined _ (match ?x with _ => _ end) => destruct x
      | |- confined _ (let '(_, _) := ?x in _) => destruct x
      end ].

(** The events of the locator: look-ups that time out after five seconds,
    and pauses of five seconds. *)
Definition is_kubectl (verb : string) (argv : list string) : bool :=
  (arg 0 argv =? "kubectl")%string && (arg 1 argv =? verb)%string.

Definition lookup_event (e : event) : Prop :=
  match e with
  | Run argv (Some t) => is_kubectl "get" argv = true ∧ t = 5%nat
  | TimeSleep t => t = 5%nat
  | _ => False
  end.

(** Closes the side condition that an event is of the stated kind. *)
Ltac event_ok := first [exact I | by vm_compute].

Lemma confined_check_config config : confined lookup_event (check_config config).
Proof.
  destruct config as [[namespace sts_name] svc_name]. unfold check_config.
  confine; event_ok.
Qed.

Lemma confined_scan_configs configs : confined lookup_event (scan_configs configs).
Proof.
  induction configs as [|config rest IH]; cbn [scan_configs].
  - confine.
  - apply confined_bind; [apply confined_check_config |].
    intros found. confine. done.
Qed.

Lemma confined_detection_attempts attempts :
  confined lookup_event (detection_attempts attempts).
Proof.
  induction attempts as [|attempt rest IH]; cbn [detection_attempts].
  - confine.
  - apply confined_bind; [apply confined_scan_configs |].
    intros found. confine; try done; event_ok.
Qed.

Lemma confined_find_elasticsearch_resources :
  confined lookup_event find_elasticsearch_resources.
Proof. apply confined_detection_attempts. Qed.

(** Look-ups and pauses: nothing that changes the cluster. *)
Definition read_only_event (e : event) : Prop :=
  match e with
  | Run argv (Some _) => is_kubectl "get" argv = true
  | TimeSleep _ | AsyncioSleep _ => True
  | _ => False
  end.

(** The events of the tunnel helpers. *)
Definition tunnel_event (e : event) : Prop :=
  match e with
  | Run argv None => (arg 0 argv =? "pkill")%string = true
  | TimeSleep _ | Open _ | Popen _ | Poll => True
  | _ => False
  end.

Definition any_event (e : event) : Prop := True.

Lemma lookup_event_read_only e : lookup_event e → read_only_event e.
Proof.
  destruct e as [argv [t|]| | | | |]; simpl; try done. by intros [? _].
Qed.

Lemma confined_any {A} (Q : event → Prop) (m : M A) : confined Q m → confined any_event m.
Proof. apply confined_weaken. done. Qed.

Lemma confined_try_common_patterns patterns :
  confined read_only_event (try_common_patterns patterns).
Proof.
  induction patterns as [|[ns sts] rest IH]; cbn [try_common_patterns];
    confine; try done; event_ok.
Qed.

Lemma confined_resolve_elasticsearch : confined read_only_event resolve_elasticsearch.
Proof.
  unfold resolve_elasticsearch.
  apply confined_bind; [confine; event_ok | intros _].
  apply confined_bind.
  { eapply confined_weaken;
      [apply lookup_event_read_only | apply confined_find_elasticsearch_resources]. }
  intros [[[ns sts] svc]|]; [confine |].
  apply confined_bind; [apply confined_try_common_patterns |].
  intros fallback. confine.
Qed.

Lemma confined_resolve service : confined read_only_event (resolve service).
Proof.
  unfold resolve.
  destruct (service =? "vault")%string; [confine |].
  destruct (service =? "consul")%string; [confine |].
  destruct (service =? "elasticsearch")%string; [| confine].
  apply confined_bind; [apply confined_resolve_elasticsearch | intros t; confine].
Qed.

Lemma confined_validate t : confined read_only_event (validate t).
Proof. unfold validate. confine. event_ok. Qed.

Lemma confined_get_statefulset_replicas name ns :
  confined read_only_event (get_statefulset_replicas name ns).
Proof. unfold get_statefulset_replicas. confine. event_ok. Qed.

Lemma confined_scale_statefulset name ns replicas :
  confined any_event (scale_statefulset name ns replicas).
Proof. unfold scale_statefulset. confine. event_ok. Qed.

Lemma confined_through_restart service t : confined any_event (through_restart service t).
Proof.
  unfold through_restart, rescale_if_zero, rollout_restart, asyncio_sleep.
  apply confined_bind; [apply (confined_any _ _ (confined_validate t)) | intros _].
  apply confined_bind;
    [apply (confined_any _ _ (confined_get_statefulset_replicas _ _)) | intros n].
  confine; event_ok.
Qed.

Lemma confined_await_ready t rounds : confined read_only_event (await_ready t rounds).
Proof.
  induction rounds as [|i rest IH]; cbn [await_ready]; unfold asyncio_sleep;
    confine; try done; event_ok.
Qed.

Lemma confined_kill_port_forward service : confined tunnel_event (kill_port_forward service).
Proof. unfold kill_port_forward, time_sleep. confine; event_ok. Qed.

Lemma confined_start_port_forward service namespace svc_name :
  confined tunnel_event (start_port_forward service namespace svc_name).
Proof.
  unfold start_port_forward, time_sleep.
  confine; try event_ok; apply confined_kill_port_forward.
Qed.

(** ** Totality of the helpers that catch every exception *)

Lemma total_ret {A} (a : A) : total (ret a).
Proof. intros w h. by exists a. Qed.

Lemma total_try_except {A} (m : M A) handler :
  (∀ e, total (handler e)) → total (try_except m handler).
Proof.
  intros Hh w h. destruct (value (m w h)) as [a|e] eqn:Hv.
  - rewrite (try_except_Return m handler w h a Hv). by exists a.
  - destruct (try_except_Raise m handler w h e Hv) as (_ & _ & ->). apply Hh.
Qed.

Lemma total_bind {A B} (m : M A) (f : A → M B) :
  total m → (∀ a, total (f a)) → total (bind m f).
Proof.
  intros Hm Hf w h. destruct (Hm w h) as [a Hv].
  destruct (bind_Return m f w h a Hv) as (_ & _ & ->). apply Hf.
Qed.

Lemma total_emit e : total (emit e).
Proof. intros w h. by exists tt. Qed.

Lemma total_check_config config : total (check_config config).
Proof.
  destruct config as [[namespace sts_name] svc_name].
  apply total_try_except. intros _. apply total_ret.
Qed.

Lemma total_scan_configs configs : total (scan_configs configs).
Proof.
  induction configs as [|config rest IH]; cbn [scan_configs].
  - apply total_ret.
  - apply total_bind; [apply total_check_config |].
    intros [location|]; [apply total_ret | apply IH].
Qed.

Lemma total_detection_attempts attempts : total (detection_attempts attempts).
Proof.
  induction attempts as [|attempt rest IH]; cbn [detection_attempts].
  - apply total_ret.
  - apply total_bind; [apply total_scan_configs |].
    intros [location|]; [apply total_ret |].
    apply total_bind; [| intros _; apply IH].
    destruct (attempt <? 2)%nat; [apply total_emit | apply total_ret].
Qed.

Lemma total_get_statefulset_replicas name ns : total (get_statefulset_replicas name ns).
Proof. apply total_try_except. intros _. apply total_ret. Qed.

Lemma total_scale_statefulset name ns replicas : total (scale_statefulset name ns replicas).
Proof. apply total_try_except. intros []; apply total_ret. Qed.

Lemma total_start_port_forward service namespace svc_name :
  total (start_port_forward service namespace svc_name).
Proof. apply total_try_except. intros _. apply total_ret. Qed.

Lemma total_await_ready t rounds : total (await_ready t rounds).
Proof.
  induction rounds as [|i rest IH]; cbn [await_ready].
  - apply total_ret.
  - apply total_bind; [apply total_try_except; intros _; apply total_ret |].
    intros [|]; [apply total_ret |].
    apply total_bind; [apply total_emit | intros _; apply IH].
Qed.

(** ** The services [remediate] knows *)

Definition supported (service : string) : bool :=
  (service =? "vault")%string || (service =? "consul")%string
  || (service =? "elasticsearch")%string.

Lemma resolve_None service w h :
  value (resolve service w h) = Return None → supported service = false.
Proof.
  unfold resolve, supported.
  destruct (service =? "vault")%string; [done |].
  destruct (service =? "consul")%string; [done |].
  destruct (service =? "elasticsearch")%string; [| done].
  destruct (value (resolve_elasticsearch w h)) as [t|e] eqn:Hv.
  - destruct (bind_Return resolve_elasticsearch (λ t, ret (Some t)) w h t Hv)
      as (_ & _ & ->). done.
  - destruct (bind_Raise resolve_elasticsearch (λ t, ret (Some t)) w h e Hv)
      as (_ & _ & ->). done.
Qed.

Lemma resolve_Some service w h t :
  value (resolve service w h) = Return (Some t) → supported service = true.
Proof.
  unfold resolve, supported.
  destruct (service =? "vault")%string; [done |].
  destruct (service =? "consul")%string; [done |].
  destruct (service =? "elasticsearch")%string; done.
Qed.

Lemma supported_PORT_FORWARDS service :
  supported service = true → ∃ config, PORT_FORWARDS service = Some config.
Proof.
  unfold supported, PORT_FORWARDS.
  destruct (service =? "vault")%string; [eauto |].
  destruct (service =? "consul")%string; [eauto |].
  destruct (service =? "elasticsearch")%string; [eauto | done].
Qed.

(** ** Postconditions

    [returns P m]: whenever [m] returns a value, the value satisfies [P]. *)

Definition returns {A} (P : A → Prop) (m : M A) : Prop :=
  ∀ w h a, value (m w h) = Return a → P a.

Lemma returns_ret {A} (P : A → Prop) a : P a → returns P (ret a).
Proof. intros Ha w h a' [= <-]. done. Qed.

Lemma returns_raise {A} (P : A → Prop) e : returns P (raise e).
Proof. intros w h a. done. Qed.

Lemma returns_bind {A B} (P : B → Prop) (m : M A) (f : A → M B) :
  (∀ a, returns P (f a)) → returns P (bind m f).
Proof.
  intros Hf w h b. destruct (value (m w h)) as [a|e] eqn:Hv.
  - destruct (bind_Return m f w h a Hv) as (_ & _ & ->). apply Hf.
  - destruct (bind_Raise m f w h e Hv) as (_ & _ & ->). done.
Qed.

(** The default replica count of a resolved service. *)
Lemma resolve_elasticsearch_default_replicas :
  returns (λ t, default_replicas t = 3) resolve_elasticsearch.
Proof.
  unfold resolve_elasticsearch.
  apply returns_bind. intros _. apply returns_bind.
  intros [[[ns sts] svc]|]; [by apply returns_ret |].
  apply returns_bind.
  intros [[[ns sts] svc]|]; [by apply returns_ret | apply returns_raise].
Qed.

Lemma resolve_default_replicas service :
  returns (λ r, ∀ t, r = Some t →
                default_replicas t = if (service =? "vault")%string then 1 else 3)
          (resolve service).
Proof.
  unfold resolve.
  destruct (service =? "vault")%string;
    [apply returns_ret; by intros t [= <-] |].
  destruct (service =? "consul")%string;
    [apply returns_ret; by intros t [= <-] |].
  destruct (service =? "elasticsearch")%string; [| by apply returns_ret].
  intros w h r. destruct (value (resolve_elasticsearch w h)) as [t'|e] eqn:Hv.
  - destruct (bind_Return resolve_elasticsearch (λ t, ret (Some t)) w h t' Hv)
      as (_ & _ & ->).
    intros [= <-] t [= <-]. by apply (resolve_elasticsearch_default_replicas w h).
  - destruct (bind_Raise resolve_elasticsearch (λ t, ret (Some t)) w h e Hv)
      as (_ & _ & ->). done.
Qed.

(** ** Stepping through a computation *)

Lemma bind_Return_eq {A B} (m : M A) (f : A → M B) w h a :
  value (m w h) = Return a →
  bind m f w h =
  {| events := events (m w h) ++ events (f a w (h ++ events (m w h)));
     appended := appended (m w h) ++ appended (f a w (h ++ events (m w h)));
     value := value (f a w (h ++ events (m w h))) |}.
Proof. intros Hv. unfold bind. by rewrite Hv. Qed.

Lemma bind_Raise_eq {A B} (m : M A) (f : A → M B) w h e :
  value (m w h) = Raise e →
  bind m f w h =
  {| events := events (m w h); appended := appended (m w h); value := Raise e |}.
Proof. intros Hv. unfold bind. by rewrite Hv. Qed.

Lemma try_except_Raise_eq {A} (m : M A) handler w h e :
  value (m w h) = Raise e →
  try_except m handler w h =
  {| events := events (m w h) ++ events (handler e w (h ++ events (m w h)));
     appended := appended (m w h) ++ appended (handler e w (h ++ events (m w h)));
     value := value (handler e w (h ++ events (m w h))) |}.
Proof. intros Hv. unfold try_except. by rewrite Hv. Qed.

Lemma silent {A} (Q : event → Prop) (m : M A) w h :
  confined Q m → appended (m w h) = [].
Proof. intros Hm. apply Hm. Qed.

Lemma PORT_FORWARDS_getitem_Some service config w h :
  PORT_FORWARDS service = Some config →
  PORT_FORWARDS_getitem service w h = ret config w h.
Proof. intros H. unfold PORT_FORWARDS_getitem. by rewrite H. Qed.

(** The last stage: whatever the tunnel does, one success entry. *)
Lemma restore_access_and_succeed_run service t n w h config :
  PORT_FORWARDS service = Some config →
  ∃ started,
    value (start_port_forward service (Some (namespace t)) (Some (service_name t)) w h)
    = Return started
    ∧ restore_access_and_succeed service t n w h =
      {| events := events (start_port_forward service (Some (namespace t))
                             (Some (service_name t)) w h);
         appended :=
           [{| entry_cluster := CLUSTER_NAME w; entry_service := service;
               entry_status := "success";
               entry_message :=
                 success_message service t n
                   (if started
                    then " Port-forward restarted on port " +:+ PyStr.of_Z (pf_port config)
                         +:+ "."
                    else port_warning) |}];
         value := Return tt |}.
Proof.
  intros Hc. unfold restore_access_and_succeed.
  set (spf := start_port_forward _ _ _).
  destruct (total_start_port_forward service (Some (namespace t))
              (Some (service_name t)) w h) as [started Hs].
  fold spf in Hs. exists started. split; [done |].
  rewrite (bind_Return_eq spf _ w h started Hs).
  rewrite (silent _ spf w h (confined_start_port_forward _ _ _)).
  unfold PORT_FORWARDS_getitem. rewrite Hc.
  destruct started; unfold bind, ret, ask, remediation_log_append;
    cbn [events appended value]; by rewrite !app_nil_r.
Qed.

(** The entry a successful attempt appends. *)
Definition success_entry (w : world) (service : string) (t : target) (n : Z)
    (port_msg : string) : RemediationOutcome :=
  {| entry_cluster := CLUSTER_NAME w; entry_service := service;
     entry_status := "success";
     entry_message := success_message service t n port_msg |}.

(** The entry an [except] clause appends. *)
Definition failure_entry (w : world) (service : string) (msg : string)
    : RemediationOutcome :=
  {| entry_cluster := CLUSTER_NAME w; entry_service := service;
     entry_status := "failed"; entry_message := msg |}.

Definition port_restarted (config : PortForward) : string :=
  " Port-forward restarted on port " +:+ PyStr.of_Z (pf_port config) +:+ ".".

(** A resolved attempt either raises in a stage up to the rollout restart,
    having appended nothing, or goes on through the readiness polls and the
    tunnel and appends one success entry. *)
Lemma remediate_resolved_run service t w h config :
  PORT_FORWARDS service = Some config →
  match value (through_restart service t w h) with
  | Raise e =>
      remediate_resolved service t w h =
      {| events := events (through_restart service t w h); appended := [];
         value := Raise e |}
  | Return n =>
      let h1 := h ++ events (through_restart service t w h) in
      let h2 := h1 ++ events (await_ready t (seq 0 6) w h1) in
      let tunnel := start_port_forward service (Some (namespace t))
                      (Some (service_name t)) w h2 in
      ∃ started,
        value tunnel = Return started
        ∧ remediate_resolved service t w h =
          {| events := events (through_restart service t w h)
                       ++ events (await_ready t (seq 0 6) w h1) ++ events tunnel;
             appended := [success_entry w service t n
                            (if started then port_restarted config else port_warning)];
             value := Return tt |}
  end.
Proof.
  intros Hc. unfold remediate_resolved.
  pose proof (silent _ _ w h (confined_through_restart service t)) as Hsil.
  destruct (value (through_restart service t w h)) as [n|e] eqn:Hv.
  - cbv beta iota zeta.
    set (h1 := h ++ events (through_restart service t w h)).
    set (h2 := h1 ++ events (await_ready t (seq 0 6) w h1)).
    rewrite (bind_Return_eq _ _ w h n Hv). fold h1. rewrite Hsil.
    destruct (total_await_ready t (seq 0 6) w h1) as [[] Ha].
    rewrite (bind_Return_eq _ _ w h1 tt Ha). fold h2.
    rewrite (silent _ _ w h1 (confined_await_ready t (seq 0 6))).
    destruct (restore_access_and_succeed_run service t n w h2 config Hc)
      as (started & Hs & ->).
    exists started. split; [done |]. done.
  - by rewrite (bind_Raise_eq _ _ w h e Hv), Hsil.
Qed.

Lemma supported_false service :
  supported service = false →
  (service =? "vault")%string = false ∧ (service =? "consul")%string = false
  ∧ (service =? "elasticsearch")%string = false.
Proof.
  unfold supported.
  destruct (service =? "vault")%string, (service =? "consul")%string,
    (service =? "elasticsearch")%string; done.
Qed.

(** The three ways the body of the [try] can go. *)
Lemma remediate_try_run service w h :
  match value (resolve service w h) with
  | Raise e =>
      remediate_try service w h =
      {| events := events (resolve service w h); appended := []; value := Raise e |}
  | Return None =>
      remediate_try service w h =
      {| events := [];
         appended := [failure_entry w service
                        ("No remediation implemented for service '" +:+ service +:+ "'")];
         value := Return tt |}
  | Return (Some t) =>
      let rest := remediate_resolved service t w (h ++ events (resolve service w h)) in
      remediate_try service w h =
      {| events := events (resolve service w h) ++ events rest;
         appended := appended rest;
         value := value rest |}
  end.
Proof.
  pose proof (silent _ _ w h (confined_resolve service)) as Hsil.
  destruct (value (resolve service w h)) as [[t|]|e] eqn:Hv; unfold remediate_try.
  - cbv zeta. by rewrite (bind_Return_eq _ _ w h _ Hv), Hsil.
  - destruct (supported_false service (resolve_None service w h Hv)) as (H1 & H2 & H3).
    unfold resolve. rewrite H1, H2, H3. reflexivity.
  - by rewrite (bind_Raise_eq _ _ w h e Hv), Hsil.
Qed.

(** The message an [except] clause of [remediate] logs for an exception. *)
Definition failure_message (w : world) (e : exn) : string :=
  match e with
  | CalledProcessError cmd rc err =>
      "Kubectl command failed: " +:+
      (if PyStr.truthy err then PyStr.strip err else CalledProcessError_str w cmd rc)
  | TimeoutExpired _ _ => "Remediation command timed out"
  | Exception s => "Unexpected error during remediation: " +:+ s
  end.

(** [remediate] when its body raises: the boundary turns the exception
    into one failed entry. *)
Lemma remediate_Raise service w h e :
  value (remediate_try service w h) = Raise e →
  remediate service w h =
  {| events := events (remediate_try service w h);
     appended := appended (remediate_try service w h)
                 ++ [failure_entry w service (failure_message w e)];
     value := Return tt |}.
Proof.
  intros Hv. unfold remediate. rewrite (try_except_Raise_eq _ _ w h e Hv).
  destruct e as [cmd rc err| |s]; cbn [error_msg failure_message].
  - destruct (PyStr.truthy err); unfold bind, ret, ask, remediation_log_append;
      cbn [events appended value]; by rewrite !app_nil_r.
  - unfold bind, ret, ask, remediation_log_append; cbn [events appended value].
    by rewrite !app_nil_r.
  - unfold bind, ret, ask, remediation_log_append; cbn [events appended value].
    by rewrite !app_nil_r.
Qed.

Lemma remediate_Return service w h :
  value (remediate_try service w h) = Return tt →
  remediate service w h = remediate_try service w h.
Proof. intros Hv. unfold remediate. by rewrite (try_except_Return _ _ w h tt Hv). Qed.

(** The body of the [try] appends nothing when it raises, and one entry
    when it returns. *)
Lemma remediate_try_outcome service w h :
  match value (remediate_try service w h) with
  | Raise e => appended (remediate_try service w h) = []
  | Return _ =>
      ∃ msg, appended (remediate_try service w h) =
             [ {| entry_cluster := CLUSTER_NAME w; entry_service := service;
                  entry_status := if supported service then "success" else "failed";
                  entry_message := msg |} ]
  end.
Proof.
  pose proof (remediate_try_run service w h) as Hrun.
  destruct (value (resolve service w h)) as [[t|]|e] eqn:Hv.
  - cbv zeta in Hrun. rewrite Hrun. cbn [value appended].
    pose proof (resolve_Some service w h t Hv) as Hsup. rewrite Hsup.
    destruct (supported_PORT_FORWARDS service Hsup) as [config Hc].
    pose proof (remediate_resolved_run service t w
                  (h ++ events (resolve service w h)) config Hc) as Hres.
    destruct (value (through_restart service t w _)) as [n|e] eqn:Ht.
    + cbv zeta in Hres. destruct Hres as (started & _ & ->). cbn [value appended].
      by eexists.
    + by rewrite Hres.
  - rewrite Hrun. cbn [value appended].
    rewrite (resolve_None service w h Hv). by eexists.
  - by rewrite Hrun.
Qed.

(** C1.  Every invocation of [remediate] returns without raising and
    appends exactly one entry to the remediation history, for the service
    and the cluster at hand.  When the body of the attempt raises (a
    command exits non-zero where that is checked, a command times out, or
    any other exception reaches the boundary), the entry has status
    [failed] and carries the message of the matching handler; when the
    body returns, the entry has status [success] for a supported service
    (and is the [failed] entry of the unsupported branch otherwise). *)
Theorem remediate_appends_one_outcome (service : string) (w : world) (h : list event) :
  value (remediate service w h) = Return tt
  ∧ ∃ entry,
      appended (remediate service w h) = [entry]
      ∧ entry_cluster entry = CLUSTER_NAME w
      ∧ entry_service entry = service
      ∧ match value (remediate_try service w h) with
        | Raise e =>
            entry_status entry = "failed"
            ∧ entry_message entry =
              match e with
              | CalledProcessError cmd rc err =>
                  "Kubectl command failed: " +:+
                  (if PyStr.truthy err then PyStr.strip err
                   else CalledProcessError_str w cmd rc)
              | TimeoutExpired _ _ => "Remediation command timed out"
              | Exception s => "Unexpected error during remediation: " +:+ s
              end
        | Return _ =>
            entry_status entry = if supported service then "success" else "failed"
        end.
Proof.
  pose proof (remediate_try_outcome service w h) as Hout.
  destruct (value (remediate_try service w h)) as [[]|e] eqn:Hv.
  - rewrite (remediate_Return service w h Hv). split; [done |].
    destruct Hout as [msg ->]. eexists. by repeat split.
  - rewrite (remediate_Raise service w h e Hv), Hout. cbn [value appended app].
    split; [done |]. eexists. by repeat split.
Qed.

(** C3.  For a service name outside vault, consul and elasticsearch,
    [remediate] runs no command at all, neither kubectl nor a tunnel command,
    and appends one entry with status [failed] whose message is the fixed
    text with the service name. *)
Theorem remediate_unsupported (service : string) (w : world) (h : list event) :
  supported service = false →
  remediate service w h =
  {| events := [];
     appended :=
       [ {| entry_cluster := CLUSTER_NAME w; entry_service := service;
            entry_status := "failed";
            entry_message := "No remediation implemented for service '" +:+ service
                             +:+ "'" |} ];
     value := Return tt |}.
Proof.
  intros Hsup. destruct (supported_false service Hsup) as (H1 & H2 & H3).
  unfold remediate, remediate_try, resolve. rewrite H1, H2, H3. reflexivity.
Qed.

Lemma remediate_unsupported_witness :
  supported "nginx" = false
  ∧ remediate "nginx" (static_world empty_answer None) [] =
    {| events := [];
       appended :=
         [ {| entry_cluster := "c1"; entry_service := "nginx";
              entry_status := "failed";
              entry_message := "No remediation implemented for service 'nginx'" |} ];
       value := Return tt |}.
Proof.
  split; [reflexivity |].
  apply (remediate_unsupported "nginx" (static_world empty_answer None) []).
  reflexivity.
Defined.

(** ** Strings *)

Lemma append_assoc (a b c : string) : (a +:+ b) +:+ c = a +:+ (b +:+ c).
Proof.
  induction a as [|x a IH]; [done |].
  change (String x ((a +:+ b) +:+ c) = String x (a +:+ (b +:+ c))). by rewrite IH.
Qed.

Lemma prefix_append (s b : string) : String.prefix s (s +:+ b) = true.
Proof.
  induction s as [|x s IH]; [by destruct b |].
  change (String.prefix (String x s) (String x (s +:+ b)) = true).
  cbn [String.prefix]. by destruct (ascii_dec x x).
Qed.

(** A text contains what it was put together from. *)
Lemma contains_append (sub a b : string) : PyStr.contains sub (a +:+ sub +:+ b) = true.
Proof.
  induction a as [|x a IH].
  - change (PyStr.contains sub (sub +:+ b) = true).
    destruct (sub +:+ b) eqn:Hs; cbn [PyStr.contains]; rewrite <- Hs, prefix_append; done.
  - change (PyStr.contains sub (String x (a +:+ sub +:+ b)) = true).
    cbn [PyStr.contains]. rewrite IH. apply orb_true_r.
Qed.

(** The message of a success after a scale-up names the replica count. *)
Lemma success_message_scaled service t port_msg :
  PyStr.contains ("Scaled from 0 to " +:+ PyStr.of_Z (default_replicas t))
                 (success_message service t 0 port_msg) = true.
Proof.
  unfold success_message. cbn [Z.eqb].
  set (d := PyStr.of_Z (default_replicas t)).
  set (tail := port_msg +:+ _).
  replace ("Remediation completed for " +:+ service +:+ "." +:+
           (" Scaled from 0 to " +:+ d +:+ " replicas and restarted.") +:+ tail)
    with (("Remediation completed for " +:+ service +:+ ". ") +:+
          ("Scaled from 0 to " +:+ d) +:+ (" replicas and restarted." +:+ tail)).
  - apply contains_append.
  - rewrite !append_assoc. done.
Qed.

(** The message of a success carries the text about the tunnel. *)
Lemma success_message_port service t n port_msg :
  PyStr.contains port_msg (success_message service t n port_msg) = true.
Proof.
  unfold success_message.
  set (scaled := if n =? 0 then _ else _).
  replace ("Remediation completed for " +:+ service +:+ "." +:+ scaled +:+ port_msg
           +:+ " Found in namespace: " +:+ namespace t +:+ " as StatefulSet: "
           +:+ statefulset_name t +:+ ".")
    with (("Remediation completed for " +:+ service +:+ "." +:+ scaled) +:+ port_msg
          +:+ (" Found in namespace: " +:+ namespace t +:+ " as StatefulSet: "
               +:+ statefulset_name t +:+ "."))
    by (by rewrite !append_assoc).
  apply contains_append.
Qed.

(** ** A resolved service: the shape of the whole run *)

Section Resolved.
Context (service : string) (w : world) (h : list event) (t : target).
Hypothesis Hresolve : value (resolve service w h) = Return (Some t).

Let h1 := h ++ events (resolve service w h).
Let h2 := h1 ++ events (through_restart service t w h1).
Let h3 := h2 ++ events (await_ready t (seq 0 6) w h2).
Let tunnel :=
  start_port_forward service (Some (namespace t)) (Some (service_name t)) w h3.

(** The stages up to the rollout restart went through: one success
    entry, whatever the polls and the tunnel do. *)
Lemma remediate_restarted n :
  value (through_restart service t w h1) = Return n →
  ∃ started config,
    value tunnel = Return started
    ∧ PORT_FORWARDS service = Some config
    ∧ remediate service w h =
      {| events := events (resolve service w h)
                   ++ events (through_restart service t w h1)
                   ++ events (await_ready t (seq 0 6) w h2) ++ events tunnel;
         appended := [success_entry w service t n
                        (if started then port_restarted config else port_warning)];
         value := Return tt |}.
Proof.
  intros Hn.
  destruct (supported_PORT_FORWARDS service (resolve_Some service w h t Hresolve))
    as [config Hc].
  pose proof (remediate_try_run service w h) as Htry. rewrite Hresolve in Htry.
  cbv zeta in Htry. fold h1 in Htry.
  pose proof (remediate_resolved_run service t w h1 config Hc) as Hres.
  rewrite Hn in Hres. cbv zeta in Hres. fold h2 h3 tunnel in Hres.
  destruct Hres as (started & Hs & Hres). rewrite Hres in Htry.
  cbn [events appended value] in Htry.
  exists started, config. split; [done |]. split; [done |].
  rewrite remediate_Return; by rewrite Htry.
Qed.

(** A stage up to the rollout restart raised: one failed entry, and
    nothing is run afterwards. *)
Lemma remediate_not_restarted e :
  value (through_restart service t w h1) = Raise e →
  remediate service w h =
  {| events := events (resolve service w h) ++ events (through_restart service t w h1);
     appended := [failure_entry w service (failure_message w e)];
     value := Return tt |}.
Proof.
  intros He.
  destruct (supported_PORT_FORWARDS service (resolve_Some service w h t Hresolve))
    as [config Hc].
  pose proof (remediate_try_run service w h) as Htry. rewrite Hresolve in Htry.
  cbv zeta in Htry. fold h1 in Htry.
  pose proof (remediate_resolved_run service t w h1 config Hc) as Hres.
  rewrite He in Hres. rewrite Hres in Htry. cbn [events appended value] in Htry.
  rewrite (remediate_Raise service w h e); by rewrite Htry.
Qed.
End Resolved.

(** C5.  For a supported service whose stages up to the rollout restart
    all succeed, [remediate] appends one entry with status [success],
    whatever happens to the tunnel; and when [start_port_forward] fails
    (returns [False]) the message carries the warning about the
    port-forward in place of the port. *)
Theorem tunnel_failure_keeps_success (service : string) (w : world) (h : list event)
    (t : target) (n : Z) :
  value (resolve service w h) = Return (Some t) →
  let h1 := h ++ events (resolve service w h) in
  value (through_restart service t w h1) = Return n →
  let h2 := h1 ++ events (through_restart service t w h1) in
  let h3 := h2 ++ events (await_ready t (seq 0 6) w h2) in
  ∃ entry,
    value (remediate service w h) = Return tt
    ∧ appended (remediate service w h) = [entry]
    ∧ entry_status entry = "success"
    ∧ (value (start_port_forward service (Some (namespace t)) (Some (service_name t))
                w h3) = Return false →
       entry_message entry =
       success_message service t n
         " Warning: Failed to restart port-forward - you may need to restart manually."
       ∧ PyStr.contains
           " Warning: Failed to restart port-forward - you may need to restart manually."
           (entry_message entry) = true).
Proof.
  intros Hr h1 Hn h2 h3.
  destruct (remediate_restarted service w h t Hr n Hn) as (started & config & Hs & _ & ->).
  eexists. split; [done |]. split; [done |]. split; [done |].
  fold h1 h2 h3 in Hs. rewrite Hs. intros [= ->]. split; [done |].
  apply (success_message_port service t n port_warning).
Qed.

Lemma tunnel_failure_keeps_success_witness :
  ∃ entry,
    value (remediate "vault" (static_world (healthy_answer "2") (Some 1)) []) = Return tt
    ∧ appended (remediate "vault" (static_world (healthy_answer "2") (Some 1)) [])
      = [entry]
    ∧ entry_status entry = "success"
    ∧ entry_message entry =
      "Remediation completed for vault. Performed rolling restart. Warning: Failed to restart port-forward - you may need to restart manually. Found in namespace: vault as StatefulSet: vault.".
Proof.
  destruct (tunnel_failure_keeps_success "vault"
              (static_world (healthy_answer "2") (Some 1)) []
              {| namespace := "vault"; statefulset_name := "vault";
                 service_name := "vault"; default_replicas := 1 |} 2
              eq_refl eq_refl) as (entry & Hv & Ha & Hs & Hm).
  exists entry. split; [exact Hv |]. split; [exact Ha |]. split; [exact Hs |].
  exact (proj1 (Hm eq_refl)).
Defined.

(** ** The stages between resolution and restart, one by one *)

(** The commands of the stages. *)
Definition validate_argv (t : target) : list string :=
  ["kubectl"; "get"; "statefulset"; statefulset_name t; "-n"; namespace t].

Definition read_argv (name ns : string) : list string :=
  ["kubectl"; "get"; "statefulset"; name; "-n"; ns; "-o"; "jsonpath={.spec.replicas}"].

Definition scale_argv (name ns : string) (replicas : Z) : list string :=
  ["kubectl"; "scale"; "statefulset"; name; "-n"; ns;
   "--replicas=" +:+ PyStr.of_Z replicas].

Definition restart_argv (t : target) : list string :=
  ["kubectl"; "rollout"; "restart"; "statefulset/" +:+ statefulset_name t; "-n";
   namespace t].

(** Did the command complete with exit code 0? *)
Definition succeeded (r : run_result) : bool :=
  match r with
  | Completed rc _ _ => rc =? 0
  | _ => false
  end.

(** The replica count [get_statefulset_replicas] makes of the answer to
    its command. *)
Definition replicas_of_answer (r : run_result) : Z :=
  match r with
  | Completed rc out _ =>
      if (rc =? 0) && PyStr.truthy (PyStr.strip out)
      then default 0 (PyStr.to_Z (PyStr.strip out))
      else 0
  | _ => 0
  end.

Lemma events_validate t w h : events (validate t w h) = [Run (validate_argv t) (Some 10%nat)].
Proof.
  unfold validate, bind, subprocess_run, raise, ret; cbn [events value].
  destruct (run_answer w h _ _) as [rc out err| |msg];
    cbn [andb negb value events returncode]; [destruct (rc =? 0) |..]; done.
Qed.

Lemma get_statefulset_replicas_run name ns w h :
  get_statefulset_replicas name ns w h =
  {| events := [Run (read_argv name ns) (Some 10%nat)];
     appended := [];
     value := Return (replicas_of_answer
                        (run_answer w h (read_argv name ns) (Some 10%nat))) |}.
Proof.
  unfold get_statefulset_replicas, try_except, bind, subprocess_run, replicas_of_answer.
  cbn [events value appended]. fold (read_argv name ns).
  destruct (run_answer w h _ _) as [rc out err| |msg];
    cbn [andb value events appended returncode stdout]; try done.
  destruct ((rc =? 0) && PyStr.truthy (PyStr.strip out)); [| done].
  destruct (PyStr.to_Z (PyStr.strip out)); done.
Qed.

Lemma scale_statefulset_run name ns replicas w h :
  scale_statefulset name ns replicas w h =
  {| events := [Run (scale_argv name ns replicas) (Some 30%nat)];
     appended := [];
     value := Return (succeeded
                        (run_answer w h (scale_argv name ns replicas) (Some 30%nat))) |}.
Proof.
  unfold scale_statefulset, try_except, bind, subprocess_run, succeeded.
  cbn [events value appended]. fold (scale_argv name ns replicas).
  destruct (run_answer w h _ _) as [rc out err| |msg];
    cbn [andb value events appended]; try done.
  destruct (rc =? 0); done.
Qed.

(** The rollout restart: one command, and the pause when it succeeded. *)
Lemma rollout_restart_run service t w h :
  events (rollout_restart service t w h) =
    Run (restart_argv t) (Some 60%nat) ::
    (if succeeded (run_answer w h (restart_argv t) (Some 60%nat))
     then [AsyncioSleep (rollout_wait service)] else [])
  ∧ (succeeded (run_answer w h (restart_argv t) (Some 60%nat)) = true ↔
     value (rollout_restart service t w h) = Return tt).
Proof.
  unfold rollout_restart, bind, subprocess_run, succeeded, asyncio_sleep, emit.
  cbn [events value appended]. fold (restart_argv t).
  destruct (run_answer w h _ _) as [rc out err| |msg];
    cbn [andb value events appended]; try done.
  destruct (rc =? 0); done.
Qed.

(** The stages from validation to restart, once the StatefulSet is known
    to exist. *)
Lemma through_restart_run service t w h :
  value (validate t w h) = Return tt →
  let validated := Run (validate_argv t) (Some 10%nat) in
  let read := Run (read_argv (statefulset_name t) (namespace t)) (Some 10%nat) in
  let n := replicas_of_answer
             (run_answer w (h ++ [validated])
                (read_argv (statefulset_name t) (namespace t)) (Some 10%nat)) in
  let scale_cmd := scale_argv (statefulset_name t) (namespace t) (default_replicas t) in
  let restart_at h' :=
    (events (rollout_restart service t w h'),
     match value (rollout_restart service t w h') with
     | Return _ => Return n
     | Raise e => Raise e
     end) in
  (events (through_restart service t w h), value (through_restart service t w h)) =
  if n =? 0 then
    if succeeded (run_answer w (h ++ [validated; read]) scale_cmd (Some 30%nat)) then
      let sleep := AsyncioSleep (wait_time service) in
      ([validated; read; Run scale_cmd (Some 30%nat); sleep]
         ++ fst (restart_at (h ++ [validated; read; Run scale_cmd (Some 30%nat); sleep])),
       snd (restart_at (h ++ [validated; read; Run scale_cmd (Some 30%nat); sleep])))
    else
      ([validated; read; Run scale_cmd (Some 30%nat)],
       Raise (Exception ("Failed to scale " +:+ service +:+ " back up")))
  else
    ([validated; read] ++ fst (restart_at (h ++ [validated; read])),
     snd (restart_at (h ++ [validated; read]))).
Proof.
  intros Hval. cbv zeta. unfold through_restart.
  rewrite (bind_Return_eq _ _ w h tt Hval), events_validate.
  set (validated := Run (validate_argv t) _).
  rewrite (bind_Return_eq _ _ w (h ++ [validated]) _
             (f_equal value (get_statefulset_replicas_run _ _ w _))).
  rewrite get_statefulset_replicas_run. cbn [events value appended].
  set (read := Run (read_argv _ _) _). set (n := replicas_of_answer _).
  replace ((h ++ [validated]) ++ [read]) with (h ++ [validated; read])
    by (by rewrite <- app_assoc).
  unfold rescale_if_zero. destruct (n =? 0).
  - set (scale_cmd := scale_argv _ _ _).
    set (h2 := h ++ [validated; read]).
    assert (Hscale :
      (scaled <- scale_statefulset (statefulset_name t) (namespace t)
                   (default_replicas t);;
       if negb scaled
       then raise (Exception ("Failed to scale " +:+ service +:+ " back up"))
       else asyncio_sleep (wait_time service)) w h2
      = if succeeded (run_answer w h2 scale_cmd (Some 30%nat))
        then {| events := [Run scale_cmd (Some 30%nat); AsyncioSleep (wait_time service)];
                appended := []; value := Return tt |}
        else {| events := [Run scale_cmd (Some 30%nat)]; appended := [];
                value := Raise (Exception ("Failed to scale " +:+ service
                                           +:+ " back up")) |}).
    { rewrite (bind_Return_eq _ _ w h2 _
                 (f_equal value (scale_statefulset_run _ _ _ w _))).
      rewrite scale_statefulset_run. cbn [events value appended]. fold scale_cmd.
      by destruct (succeeded _). }
    destruct (succeeded (run_answer w h2 scale_cmd (Some 30%nat))).
    + rewrite (bind_Return_eq _ _ w h2 tt (f_equal value Hscale)).
      rewrite Hscale. cbn [events value appended fst snd].
      set (h4 := h2 ++ _).
      replace (h ++ [validated; read; Run scale_cmd (Some 30%nat);
                     AsyncioSleep (wait_time service)]) with h4
        by (unfold h4, h2; by rewrite <- app_assoc).
      destruct (value (rollout_restart service t w h4)) as [[]|e] eqn:Hr.
      * rewrite (bind_Return_eq _ _ w h4 tt Hr). cbn [events value appended].
        by rewrite app_nil_r.
      * by rewrite (bind_Raise_eq _ _ w h4 e Hr).
    + rewrite (bind_Raise_eq _ _ w h2 _ (f_equal value Hscale)).
      rewrite Hscale. done.
  - set (h2 := h ++ [validated; read]).
    assert (Hskip : value (ret (A:=unit) tt w h2) = Return tt) by done.
    rewrite (bind_Return_eq _ _ w h2 tt Hskip). cbn [events value appended fst snd].
    rewrite app_nil_r.
    destruct (value (rollout_restart service t w h2)) as [[]|e] eqn:Hr.
    + rewrite (bind_Return_eq _ _ w h2 tt Hr). cbn [events value appended].
      by rewrite app_nil_r.
    + by rewrite (bind_Raise_eq _ _ w h2 e Hr).
Qed.

(** ** Scaling up before the restart *)

(** A call of [kubectl scale]. *)
Definition scale_call (e : event) : Prop :=
  match e with
  | Run argv _ => is_kubectl "scale" argv = true
  | _ => False
  end.

Lemma read_only_not_scale e : read_only_event e → ¬ scale_call e.
Proof.
  destruct e as [argv [timeout|]| | | | |]; cbn; try tauto.
  unfold is_kubectl. intros [_ Hget]%andb_prop [_ Hscale]%andb_prop.
  apply String.eqb_eq in Hget, Hscale. congruence.
Qed.

Lemma tunnel_not_scale e : tunnel_event e → ¬ scale_call e.
Proof.
  destruct e as [argv [timeout|]| | | | |]; cbn; try tauto.
  unfold is_kubectl. intros Hp [Hk _]%andb_prop.
  apply String.eqb_eq in Hp, Hk. congruence.
Qed.

Lemma validate_not_scale t : ¬ scale_call (Run (validate_argv t) (Some 10%nat)).
Proof. by vm_compute. Qed.

Lemma read_not_scale name ns : ¬ scale_call (Run (read_argv name ns) (Some 10%nat)).
Proof. by vm_compute. Qed.

Lemma restart_not_scale t : ¬ scale_call (Run (restart_argv t) (Some 60%nat)).
Proof. by vm_compute. Qed.

Lemma sleep_not_scale seconds : ¬ scale_call (AsyncioSleep seconds).
Proof. by intros []. Qed.

Lemma events_confined {A} (Q : event → Prop) (m : M A) w h :
  confined Q m → Forall Q (events (m w h)).
Proof. intros Hm. apply Hm. Qed.

(** After a replica count of 0: the scale-up, then either the warm-up pause
    and the restart, or a failure with nothing more run. *)
Lemma zero_replicas_run service w h t :
  value (resolve service w h) = Return (Some t) →
  let h1 := h ++ events (resolve service w h) in
  value (validate t w h1) = Return tt →
  let validated := Run (validate_argv t) (Some 10%nat) in
  let read := Run (read_argv (statefulset_name t) (namespace t)) (Some 10%nat) in
  replicas_of_answer
    (run_answer w (h1 ++ [validated]) (read_argv (statefulset_name t) (namespace t))
       (Some 10%nat)) = 0 →
  let scale_cmd := scale_argv (statefulset_name t) (namespace t) (default_replicas t) in
  let r := remediate service w h in
  if succeeded (run_answer w (h1 ++ [validated; read]) scale_cmd (Some 30%nat))
  then ∃ rest, events r =
               events (resolve service w h)
               ++ [validated; read; Run scale_cmd (Some 30%nat);
                   AsyncioSleep (wait_time service);
                   Run (restart_argv t) (Some 60%nat)] ++ rest
  else events r = events (resolve service w h)
                  ++ [validated; read; Run scale_cmd (Some 30%nat)]
       ∧ appended r =
         [failure_entry w service
            ("Unexpected error during remediation: Failed to scale " +:+ service
             +:+ " back up")].
Proof.
  intros Hr h1 Hval validated read Hn scale_cmd r.
  pose proof (through_restart_run service t w h1 Hval) as Htr. cbv zeta in Htr.
  fold validated read scale_cmd in Htr. rewrite Hn in Htr. cbn [Z.eqb] in Htr.
  destruct (succeeded (run_answer w (h1 ++ [validated; read]) scale_cmd _)).
  - cbn [fst snd] in Htr. injection Htr as Hev Hv.
    destruct (rollout_restart_run service t w
                (h1 ++ [validated; read; Run scale_cmd (Some 30%nat);
                        AsyncioSleep (wait_time service)])) as [Hre _].
    rewrite Hre in Hev.
    destruct (value (through_restart service t w h1)) as [n'|e] eqn:Hvt.
    + destruct (remediate_restarted service w h t Hr n' Hvt)
        as (started & config & _ & _ & Hrun).
      fold h1 in Hrun. unfold r. rewrite Hrun. cbn [events].
      rewrite Hev. eexists. rewrite <- ?app_assoc. cbn [app]. reflexivity.
    + pose proof (remediate_not_restarted service w h t Hr e Hvt) as Hrun.
      fold h1 in Hrun. unfold r. rewrite Hrun. cbn [events].
      rewrite Hev. eexists. cbn [app]. reflexivity.
  - injection Htr as Hev Hv.
    pose proof (remediate_not_restarted service w h t Hr _ Hv) as Hrun.
    fold h1 in Hrun. unfold r. rewrite Hrun. cbn [events appended].
    by rewrite Hev.
Qed.

(** C2.  A supported service is resolved to a target whose default replica
    count is 1 for vault and 3 for consul and elasticsearch.  Once the
    StatefulSet is validated and the replica count read is 0, the next
    command is the scale-up to that default; when it succeeds it is followed
    by the warm-up pause (60 seconds for elasticsearch, 30 otherwise) and
    then by the rollout restart, and when it fails nothing more is run and
    the entry is a failure, so that no restart goes without the scale-up
    and the pause before it; a success entry names the count in [Scaled
    from 0 to].  When the count read is not 0 the rollout restart follows
    the read directly and no scale command occurs in the whole run. *)
Theorem rescale_precedes_restart (service : string) (w : world) (h : list event)
    (t : target) (n : Z) :
  value (resolve service w h) = Return (Some t) →
  let h1 := h ++ events (resolve service w h) in
  value (validate t w h1) = Return tt →
  let validated := Run (validate_argv t) (Some 10%nat) in
  value (get_statefulset_replicas (statefulset_name t) (namespace t) w
           (h1 ++ [validated])) = Return n →
  let read := Run (read_argv (statefulset_name t) (namespace t)) (Some 10%nat) in
  let d := if (service =? "vault")%string then 1 else 3 in
  let scale_cmd :=
    ["kubectl"; "scale"; "statefulset"; statefulset_name t; "-n"; namespace t;
     "--replicas=" +:+ PyStr.of_Z d] in
  let warm_up := if (service =? "elasticsearch")%string then 60%nat else 30%nat in
  let restart := Run (restart_argv t) (Some 60%nat) in
  let r := remediate service w h in
  default_replicas t = d
  ∧ (n = 0 →
     (if succeeded (run_answer w (h1 ++ [validated; read]) scale_cmd (Some 30%nat))
      then ∃ rest, events r =
                   events (resolve service w h)
                   ++ [validated; read; Run scale_cmd (Some 30%nat);
                       AsyncioSleep warm_up; restart] ++ rest
      else events r = events (resolve service w h)
                      ++ [validated; read; Run scale_cmd (Some 30%nat)]
           ∧ ∃ entry, appended r = [entry] ∧ entry_status entry = "failed")
     ∧ ∀ entry, appended r = [entry] → entry_status entry = "success" →
         PyStr.contains ("Scaled from 0 to " +:+ PyStr.of_Z d) (entry_message entry)
         = true)
  ∧ (n ≠ 0 →
     (∃ rest, events r = events (resolve service w h) ++ [validated; read; restart] ++ rest)
     ∧ Forall (λ e, ¬ scale_call e) (events r)).
Proof.
  intros Hr h1 Hval validated Hn read d scale_cmd warm_up restart r.
  assert (Hd : default_replicas t = d)
    by exact (resolve_default_replicas service w h _ Hr t eq_refl).
  split; [done |].
  pose proof (through_restart_run service t w h1 Hval) as Htr. cbv zeta in Htr.
  fold validated read in Htr.
  rewrite get_statefulset_replicas_run in Hn. cbn [value] in Hn.
  injection Hn as Hn. fold validated in Hn. rewrite Hn, Hd in Htr.
  change (scale_argv (statefulset_name t) (namespace t) d) with scale_cmd in Htr.
  change (wait_time service) with warm_up in Htr.
  pose proof (rollout_restart_run service t w) as Hroll.
  pose proof (events_confined _ _ w h (confined_resolve service)) as Hres.
  split.
  - intros ->. cbn [Z.eqb] in Htr. split.
    + pose proof (zero_replicas_run service w h t Hr Hval) as Hzero.
      cbv zeta in Hzero. fold h1 validated read in Hzero.
      rewrite Hd in Hzero. specialize (Hzero Hn).
      change (scale_argv (statefulset_name t) (namespace t) d) with scale_cmd in Hzero.
      change (wait_time service) with warm_up in Hzero. fold r restart in Hzero.
      destruct (succeeded (run_answer w (h1 ++ [validated; read]) scale_cmd _));
        [done |].
      destruct Hzero as [Hev Ha]. split; [done |]. by eexists.
    + intros entry Ha Hs.
      destruct (value (through_restart service t w h1)) as [n'|e] eqn:Hvt.
      * destruct (remediate_restarted service w h t Hr n' Hvt)
          as (started & config & _ & _ & Hrun).
        unfold r in Ha. rewrite Hrun in Ha. cbn [appended] in Ha.
        injection Ha as <-. cbn [entry_message success_entry].
        assert (n' = 0) as ->.
        { destruct (succeeded _); cbn [fst snd] in Htr; [| done].
          injection Htr as _ Hv. by destruct (value (rollout_restart _ _ _ _)); [injection Hv |]. }
        rewrite <- Hd. apply success_message_scaled.
      * pose proof (remediate_not_restarted service w h t Hr e Hvt) as Hrun.
        unfold r in Ha. rewrite Hrun in Ha. cbn [appended] in Ha.
        injection Ha as <-. done.
  - intros Hnz. apply Z.eqb_neq in Hnz. rewrite Hnz in Htr. cbn [fst snd] in Htr.
    injection Htr as Hev Hv.
    destruct (Hroll (h1 ++ [validated; read])) as [Hre _].
    rewrite Hre in Hev. fold restart in Hev.
    assert (Hstage : Forall (λ e, ¬ scale_call e)
                       (events (through_restart service t w h1))).
    { rewrite Hev. constructor; [apply validate_not_scale |].
      constructor; [apply read_not_scale |].
      constructor; [apply restart_not_scale |].
      destruct (succeeded _); [| constructor].
      constructor; [apply sleep_not_scale | constructor]. }
    assert (Hres' : Forall (λ e, ¬ scale_call e) (events (resolve service w h))).
    { eapply Forall_impl; [exact Hres | apply read_only_not_scale]. }
    destruct (value (through_restart service t w h1)) as [n'|e] eqn:Hvt.
    + destruct (remediate_restarted service w h t Hr n' Hvt)
        as (started & config & _ & _ & Hrun).
      fold h1 in Hrun. unfold r. rewrite Hrun. cbn [events]. split.
      * rewrite Hev. eexists. rewrite <- ?app_assoc. cbn [app]. reflexivity.
      * rewrite !Forall_app. repeat split; try done.
        -- eapply Forall_impl; [| apply read_only_not_scale].
           apply (events_confined _ _ w _ (confined_await_ready t (seq 0 6))).
        -- eapply Forall_impl; [| apply tunnel_not_scale].
           apply (events_confined _ _ w _ (confined_start_port_forward _ _ _)).
    + pose proof (remediate_not_restarted service w h t Hr e Hvt) as Hrun.
      fold h1 in Hrun. unfold r. rewrite Hrun. cbn [events]. split.
      * rewrite Hev. eexists. rewrite <- ?app_assoc. cbn [app]. reflexivity.
      * rewrite Forall_app. done.
Qed.

Lemma rescale_precedes_restart_witness :
  let w := static_world (healthy_answer "0") None in
  ∃ rest,
    events (remediate "vault" w []) =
    [ Run ["kubectl"; "get"; "statefulset"; "vault"; "-n"; "vault"] (Some 10%nat);
      Run ["kubectl"; "get"; "statefulset"; "vault"; "-n"; "vault"; "-o";
           "jsonpath={.spec.replicas}"] (Some 10%nat);
      Run ["kubectl"; "scale"; "statefulset"; "vault"; "-n"; "vault"; "--replicas=1"]
          (Some 30%nat);
      AsyncioSleep 30;
      Run ["kubectl"; "rollout"; "restart"; "statefulset/vault"; "-n"; "vault"]
          (Some 60%nat) ] ++ rest.
Proof.
  intros w.
  destruct (rescale_precedes_restart "vault" w []
              {| namespace := "vault"; statefulset_name := "vault";
                 service_name := "vault"; default_replicas := 1 |} 0
              eq_refl eq_refl eq_refl) as (_ & Hzero & _).
  destruct (Hzero eq_refl) as [Hev _]. exact Hev.
Defined.

(** The scenario of a vault scaled to zero: scaled to 1, thirty seconds of
    warm-up, restarted, and a success entry that says so. *)
Example vault_scaled_to_zero :
  appended (remediate "vault" (static_world (healthy_answer "0") None) []) =
  [ {| entry_cluster := "c1"; entry_service := "vault"; entry_status := "success";
       entry_message :=
         "Remediation completed for vault. Scaled from 0 to 1 replicas and restarted. Port-forward restarted on port 8200. Found in namespace: vault as StatefulSet: vault." |} ].
Proof. by vm_compute. Qed.

(** ** A failed read of the replica count *)

(** The read of the replica count failed: the command exited non-zero,
    printed nothing, printed no integer, timed out or could not be run. *)
Definition read_failed (r : run_result) : Prop :=
  match r with
  | Completed rc out _ =>
      rc ≠ 0 ∨ PyStr.strip out = "" ∨ PyStr.to_Z (PyStr.strip out) = None
  | TimedOut | RunError _ => True
  end.

Lemma read_failed_zero r : read_failed r → replicas_of_answer r = 0.
Proof.
  destruct r as [rc out err| |msg]; cbn; try done.
  intros [Hrc|[Hout|Hint]].
  - apply Z.eqb_neq in Hrc. by rewrite Hrc.
  - rewrite Hout. by rewrite andb_false_r.
  - rewrite Hint. by destruct (_ && _).
Qed.

(** C10.  [get_statefulset_replicas] never raises, and when its read fails
    (non-zero exit, empty output, output that is no integer, timeout or any
    other exception) it returns 0, the value it returns for a StatefulSet
    that reports 0 replicas.  In [remediate] such a failed read is
    therefore followed by the scale-up to the default replica count of the
    service, and, when the scale-up succeeds, by the warm-up pause and the
    restart. *)
Theorem failed_read_scales_up (service : string) (w : world) (h : list event)
    (t : target) :
  value (resolve service w h) = Return (Some t) →
  let h1 := h ++ events (resolve service w h) in
  value (validate t w h1) = Return tt →
  let validated := Run (validate_argv t) (Some 10%nat) in
  let read_cmd :=
    ["kubectl"; "get"; "statefulset"; statefulset_name t; "-n"; namespace t; "-o";
     "jsonpath={.spec.replicas}"] in
  read_failed (run_answer w (h1 ++ [validated]) read_cmd (Some 10%nat)) →
  let d := if (service =? "vault")%string then 1 else 3 in
  let scale_cmd :=
    ["kubectl"; "scale"; "statefulset"; statefulset_name t; "-n"; namespace t;
     "--replicas=" +:+ PyStr.of_Z d] in
  let warm_up := if (service =? "elasticsearch")%string then 60%nat else 30%nat in
  let r := remediate service w h in
  get_statefulset_replicas (statefulset_name t) (namespace t) w (h1 ++ [validated])
  = {| events := [Run read_cmd (Some 10%nat)]; appended := []; value := Return 0 |}
  ∧ replicas_of_answer (Completed 0 "0" "") = 0
  ∧ if succeeded (run_answer w (h1 ++ [validated; Run read_cmd (Some 10%nat)])
                    scale_cmd (Some 30%nat))
    then ∃ rest, events r =
                 events (resolve service w h)
                 ++ [validated; Run read_cmd (Some 10%nat); Run scale_cmd (Some 30%nat);
                     AsyncioSleep warm_up; Run (restart_argv t) (Some 60%nat)] ++ rest
    else events r = events (resolve service w h)
                    ++ [validated; Run read_cmd (Some 10%nat);
                        Run scale_cmd (Some 30%nat)]
         ∧ ∃ entry, appended r = [entry] ∧ entry_status entry = "failed".
Proof.
  intros Hr h1 Hval validated read_cmd Hfail d scale_cmd warm_up r.
  pose proof (read_failed_zero _ Hfail) as Hzero.
  split.
  { rewrite get_statefulset_replicas_run.
    change (read_argv (statefulset_name t) (namespace t)) with read_cmd.
    by rewrite Hzero. }
  split; [done |].
  pose proof (zero_replicas_run service w h t Hr Hval Hzero) as Hrun.
  cbv zeta in Hrun. fold h1 validated in Hrun.
  rewrite (resolve_default_replicas service w h _ Hr t eq_refl) in Hrun.
  change (scale_argv (statefulset_name t) (namespace t) _) with scale_cmd in Hrun.
  change (read_argv (statefulset_name t) (namespace t)) with read_cmd in Hrun.
  change (wait_time service) with warm_up in Hrun. fold r in Hrun.
  destruct (succeeded _); [done |].
  destruct Hrun as [Hev Ha]. split; [done |]. by eexists.
Qed.

Lemma failed_read_scales_up_witness :
  let w := static_world unreadable_answer None in
  ∃ rest,
    events (remediate "consul" w []) =
    [ Run ["kubectl"; "get"; "statefulset"; "consul-server"; "-n"; "consul"]
          (Some 10%nat);
      Run ["kubectl"; "get"; "statefulset"; "consul-server"; "-n"; "consul"; "-o";
           "jsonpath={.spec.replicas}"] (Some 10%nat);
      Run ["kubectl"; "scale"; "statefulset"; "consul-server"; "-n"; "consul";
           "--replicas=3"] (Some 30%nat);
      AsyncioSleep 30;
      Run ["kubectl"; "rollout"; "restart"; "statefulset/consul-server"; "-n";
           "consul"] (Some 60%nat) ] ++ rest.
Proof.
  intros w.
  destruct (failed_read_scales_up "consul" w []
              {| namespace := "consul"; statefulset_name := "consul-server";
                 service_name := "consul-server"; default_replicas := 3 |}
              eq_refl eq_refl I) as (_ & _ & Hev).
  exact Hev.
Defined.

(** ** Waiting for the service *)

Definition poll_argv (t : target) : list string :=
  ["kubectl"; "get"; "svc"; service_name t; "-n"; namespace t].

(** One poll: whatever happens to the command, a truth value. *)
Lemma poll_run t w h :
  try_except
    (check_svc <- subprocess_run false (poll_argv t) (Some 5%nat);;
     ret (returncode check_svc =? 0))
    (λ _, ret false) w h =
  {| events := [Run (poll_argv t) (Some 5%nat)];
     appended := [];
     value := Return (succeeded (run_answer w h (poll_argv t) (Some 5%nat))) |}.
Proof.
  unfold try_except, bind, subprocess_run, ret, succeeded.
  cbn [events value appended].
  destruct (run_answer w h (poll_argv t) (Some 5%nat)) as [rc out err| |msg];
    cbn [events value appended returncode andb app]; done.
Qed.

(** One round of the loop: a poll that finds the service ends the loop, any
    other poll is followed by a pause of ten seconds and the next round. *)
Lemma await_ready_step t i rest w h :
  let poll := Run (poll_argv t) (Some 5%nat) in
  await_ready t (i :: rest) w h =
  if succeeded (run_answer w h (poll_argv t) (Some 5%nat))
  then {| events := [poll]; appended := []; value := Return tt |}
  else
    let next := await_ready t rest w (h ++ [poll; AsyncioSleep 10]) in
    {| events := [poll; AsyncioSleep 10] ++ events next;
       appended := appended next;
       value := value next |}.
Proof.
  cbv zeta. cbn [await_ready]. fold (poll_argv t).
  rewrite (bind_Return_eq _ _ w h _ (f_equal value (poll_run t w h))).
  rewrite poll_run. cbn [events value appended app].
  destruct (succeeded (run_answer w h (poll_argv t) (Some 5%nat))); [done |].
  set (h' := h ++ [Run (poll_argv t) (Some 5%nat)]).
  assert (Hs : value (asyncio_sleep 10 w h') = Return tt) by done.
  rewrite (bind_Return_eq _ _ w h' tt Hs). cbn [events value appended app asyncio_sleep emit].
  unfold h'. rewrite <- app_assoc. done.
Qed.

(** At most one poll per round, ten seconds apart; the loop stops at the
    first poll that finds the service. *)
Lemma await_ready_events t rounds w h :
  let poll := Run (poll_argv t) (Some 5%nat) in
  ∃ k, (k ≤ length rounds)%nat
       ∧ events (await_ready t rounds w h) =
         concat (replicate k [poll; AsyncioSleep 10])
         ++ (if (k <? length rounds)%nat then [poll] else []).
Proof.
  cbv zeta. revert h. induction rounds as [|i rest IH]; intros h.
  - exists 0%nat. split; [done |]. done.
  - pose proof (await_ready_step t i rest w h) as Hstep. cbv zeta in Hstep.
    rewrite Hstep. destruct (succeeded _).
    + exists 0%nat. split; [cbn; lia |]. done.
    + destruct (IH (h ++ [Run (poll_argv t) (Some 5%nat); AsyncioSleep 10]))
        as (k & Hk & Hev).
      exists (S k). split; [cbn; lia |]. cbn [events]. rewrite Hev.
      cbn [replicate concat length app].
      change (S k <? S (length rest))%nat with (k <? length rest)%nat.
      by rewrite <- ?app_assoc.
Qed.

(** When no poll finds the service, every round polls and pauses. *)
Lemma await_ready_exhausted t rounds w h :
  (∀ ext, succeeded (run_answer w (h ++ ext) (poll_argv t) (Some 5%nat)) = false) →
  events (await_ready t rounds w h) =
  concat (replicate (length rounds) [Run (poll_argv t) (Some 5%nat); AsyncioSleep 10]).
Proof.
  revert h. induction rounds as [|i rest IH]; intros h Hfail; [done |].
  pose proof (await_ready_step t i rest w h) as Hstep. cbv zeta in Hstep.
  rewrite Hstep. specialize (Hfail []) as H0. rewrite app_nil_r in H0. rewrite H0.
  cbn [events length replicate concat app]. rewrite IH; [done |].
  intros ext. rewrite <- app_assoc. apply Hfail.
Qed.

(** C6 (amended).  After the stages up to the rollout restart, [remediate]
    polls for the service at most six times, with a pause of ten seconds
    after every poll that does not find it; polling never raises.  When no
    poll finds the service there are exactly six polls and six pauses.
    Either way the tunnel is restored next and one success entry is
    appended, whose message is made of the service, the rescale, the state
    of the tunnel, the namespace and the StatefulSet only: it says nothing
    about the readiness polls. *)
Theorem readiness_polls_are_best_effort (service : string) (w : world)
    (h : list event) (t : target) (n : Z) :
  value (resolve service w h) = Return (Some t) →
  let h1 := h ++ events (resolve service w h) in
  value (through_restart service t w h1) = Return n →
  let h2 := h1 ++ events (through_restart service t w h1) in
  let poll := Run ["kubectl"; "get"; "svc"; service_name t; "-n"; namespace t]
                  (Some 5%nat) in
  let polls := events (await_ready t (seq 0 6) w h2) in
  let tunnel := start_port_forward service (Some (namespace t))
                  (Some (service_name t)) w (h2 ++ polls) in
  value (await_ready t (seq 0 6) w h2) = Return tt
  ∧ (∃ k, (k ≤ 6)%nat
          ∧ polls = concat (replicate k [poll; AsyncioSleep 10])
                    ++ (if (k <? 6)%nat then [poll] else []))
  ∧ ((∀ ext, succeeded (run_answer w (h2 ++ ext)
                          ["kubectl"; "get"; "svc"; service_name t; "-n"; namespace t]
                          (Some 5%nat)) = false) →
     polls = concat (replicate 6 [poll; AsyncioSleep 10]))
  ∧ ∃ started config,
      value tunnel = Return started
      ∧ PORT_FORWARDS service = Some config
      ∧ remediate service w h =
        {| events := events (resolve service w h)
                     ++ events (through_restart service t w h1) ++ polls
                     ++ events tunnel;
           appended :=
             [ {| entry_cluster := CLUSTER_NAME w; entry_service := service;
                  entry_status := "success";
                  entry_message :=
                    success_message service t n
                      (if started
                       then " Port-forward restarted on port "
                            +:+ PyStr.of_Z (pf_port config) +:+ "."
                       else " Warning: Failed to restart port-forward - you may need to restart manually.") |} ];
           value := Return tt |}.
Proof.
  intros Hr h1 Hn h2 poll polls tunnel.
  split.
  { destruct (total_await_ready t (seq 0 6) w h2) as [[] Hv]. exact Hv. }
  split; [exact (await_ready_events t (seq 0 6) w h2) |].
  split; [exact (await_ready_exhausted t (seq 0 6) w h2) |].
  destruct (remediate_restarted service w h t Hr n Hn) as (started & config & Hs & Hc & Hrun).
  exists started, config. split; [exact Hs |]. split; [exact Hc |]. exact Hrun.
Qed.

Lemma readiness_polls_are_best_effort_witness :
  let w := static_world (no_service_answer "2") None in
  ∃ k, (k ≤ 6)%nat
       ∧ events (await_ready
                   {| namespace := "vault"; statefulset_name := "vault";
                      service_name := "vault"; default_replicas := 1 |}
                   (seq 0 6) w
                   ([] ++ events (resolve "vault" w [])
                    ++ events (through_restart "vault"
                                 {| namespace := "vault"; statefulset_name := "vault";
                                    service_name := "vault"; default_replicas := 1 |}
                                 w ([] ++ events (resolve "vault" w [])))))
         = concat (replicate k [Run ["kubectl"; "get"; "svc"; "vault"; "-n"; "vault"]
                                    (Some 5%nat); AsyncioSleep 10])
           ++ (if (k <? 6)%nat
               then [Run ["kubectl"; "get"; "svc"; "vault"; "-n"; "vault"] (Some 5%nat)]
               else []).
Proof.
  intros w.
  destruct (readiness_polls_are_best_effort "vault" w []
              {| namespace := "vault"; statefulset_name := "vault";
                 service_name := "vault"; default_replicas := 1 |} 2
              eq_refl eq_refl) as (_ & Hk & _).
  exact Hk.
Defined.

(** C6, as stated, fails.  Vault runs with two replicas and its service
    never shows up: all six polls fail.  The entry appended is the one
    appended when the first poll finds the service; the message holds no
    caveat. *)
Lemma readiness_caveat_counterexample :
  let unready := remediate "vault" (static_world (no_service_answer "2") None) [] in
  let ready := remediate "vault" (static_world (healthy_answer "2") None) [] in
  let poll := Run ["kubectl"; "get"; "svc"; "vault"; "-n"; "vault"] (Some 5%nat) in
  filter (λ e, bool_decide (e = poll)) (events unready) = replicate 6 poll
  ∧ filter (λ e, bool_decide (e = poll)) (events ready) = [poll]
  ∧ appended unready = appended ready
  ∧ appended unready =
    [ {| entry_cluster := "c1"; entry_service := "vault"; entry_status := "success";
         entry_message :=
           "Remediation completed for vault. Performed rolling restart. Port-forward restarted on port 8200. Found in namespace: vault as StatefulSet: vault." |} ].
Proof. vm_compute. done. Qed.

(** ** Elasticsearch that cannot be found *)

Definition listing_call : event :=
  Run ["kubectl"; "get"; "all"; "-n"; "elasticsearch"] (Some 10%nat).

(** The listing of the namespace is for the log only. *)
Lemma listing_run w h :
  try_except
    (all_resources <- subprocess_run false
       ["kubectl"; "get"; "all"; "-n"; "elasticsearch"] (Some 10%nat);;
     ret tt)
    (λ _, ret tt) w h =
  {| events := [listing_call]; appended := []; value := Return tt |}.
Proof.
  unfold try_except, bind, subprocess_run, ret, listing_call.
  cbn [events value appended].
  destruct (run_answer w h _ _) as [rc out err| |msg];
    cbn [events value appended andb app]; done.
Qed.

(** The elasticsearch branch when neither the locator nor the last resort
    finds a StatefulSet. *)
Lemma resolve_elasticsearch_not_found w h :
  let h1 := h ++ [listing_call] in
  value (find_elasticsearch_resources w h1) = Return None →
  let h2 := h1 ++ events (find_elasticsearch_resources w h1) in
  value (try_common_patterns common_patterns w h2) = Return None →
  events (resolve "elasticsearch" w h) =
    [listing_call] ++ events (find_elasticsearch_resources w h1)
    ++ events (try_common_patterns common_patterns w h2)
  ∧ value (resolve "elasticsearch" w h) =
    Raise (Exception ("Elasticsearch not found. " +:+ error_details +:+
      "Run 'kubectl get statefulset -A | grep -i elastic' to find it manually.")).
Proof.
  intros h1 Hf h2 Hc.
  change (resolve "elasticsearch") with (t <- resolve_elasticsearch;; ret (Some t)).
  assert (Hres :
    events (resolve_elasticsearch w h) =
      [listing_call] ++ events (find_elasticsearch_resources w h1)
      ++ events (try_common_patterns common_patterns w h2)
    ∧ value (resolve_elasticsearch w h) =
      Raise (Exception ("Elasticsearch not found. " +:+ error_details +:+
        "Run 'kubectl get statefulset -A | grep -i elastic' to find it manually."))).
  { unfold resolve_elasticsearch.
    rewrite (bind_Return_eq _ _ w h tt (f_equal value (listing_run w h))).
    rewrite listing_run. cbn [events value appended]. fold h1.
    rewrite (bind_Return_eq _ _ w h1 None Hf). cbn [events value appended]. fold h2.
    rewrite (bind_Return_eq _ _ w h2 None Hc). cbn [events value appended raise].
    by rewrite app_nil_r. }
  destruct Hres as [Hev Hv].
  rewrite (bind_Raise_eq _ _ w h _ Hv). cbn [events value]. by rewrite Hev.
Qed.

(** C4 (amended).  When the locator finds nothing and the last resort finds
    no StatefulSet either, [remediate] of elasticsearch appends one entry
    with status [failed] whose message lists the three last-resort patterns
    (elasticsearch/elasticsearch-master, elasticsearch/elasticsearch and
    elasticsearch/elasticsearch-master again), not the six candidates of
    the locator. *)
Theorem elasticsearch_not_found_lists_last_resort (w : world) (h : list event) :
  let listing := Run ["kubectl"; "get"; "all"; "-n"; "elasticsearch"] (Some 10%nat) in
  let h1 := h ++ [listing] in
  value (find_elasticsearch_resources w h1) = Return None →
  let h2 := h1 ++ events (find_elasticsearch_resources w h1) in
  value (try_common_patterns common_patterns w h2) = Return None →
  remediate "elasticsearch" w h =
  {| events := [listing] ++ events (find_elasticsearch_resources w h1)
               ++ events (try_common_patterns common_patterns w h2);
     appended :=
       [ {| entry_cluster := CLUSTER_NAME w; entry_service := "elasticsearch";
            entry_status := "failed";
            entry_message :=
              "Unexpected error during remediation: Elasticsearch not found. Tried these combinations:
  - elasticsearch/elasticsearch-master
  - elasticsearch/elasticsearch
  - elasticsearch/elasticsearch-master
Run 'kubectl get statefulset -A | grep -i elastic' to find it manually." |} ];
     value := Return tt |}.
Proof.
  intros listing h1 Hf h2 Hc.
  destruct (resolve_elasticsearch_not_found w h Hf Hc) as [Hev Hv].
  pose proof (remediate_try_run "elasticsearch" w h) as Htry.
  rewrite Hv in Htry.
  rewrite (remediate_Raise "elasticsearch" w h _ (f_equal value Htry)).
  rewrite Htry. cbn [events appended app]. by rewrite Hev.
Qed.

Lemma elasticsearch_not_found_lists_last_resort_witness :
  appended (remediate "elasticsearch" (static_world empty_answer None) []) =
  [ {| entry_cluster := "c1"; entry_service := "elasticsearch";
       entry_status := "failed";
       entry_message :=
         "Unexpected error during remediation: Elasticsearch not found. Tried these combinations:
  - elasticsearch/elasticsearch-master
  - elasticsearch/elasticsearch
  - elasticsearch/elasticsearch-master
Run 'kubectl get statefulset -A | grep -i elastic' to find it manually." |} ].
Proof.
  exact (f_equal appended
           (elasticsearch_not_found_lists_last_resort
              (static_world empty_answer None) [] eq_refl eq_refl)).
Defined.

(** C4, as stated, fails.  In a cluster where nothing exists the locator
    looks for each of its six candidates in each of its three rounds, among
    them the namespaces [default] and [logging], and finds nothing; the
    message of the failed entry names neither of these two namespaces, so
    it does not list the six candidates. *)
Lemma elasticsearch_not_found_counterexample :
  let r := remediate "elasticsearch" (static_world empty_answer None) [] in
  let looked_up ns := Run ["kubectl"; "get"; "namespace"; ns] (Some 5%nat) in
  value (find_elasticsearch_resources (static_world empty_answer None) [listing_call])
  = Return None
  ∧ length (filter (λ e, e = looked_up "default") (events r)) = 3%nat
  ∧ length (filter (λ e, e = looked_up "logging") (events r)) = 3%nat
  ∧ ∃ entry,
      appended r = [entry]
      ∧ entry_status entry = "failed"
      ∧ PyStr.contains "default" (entry_message entry) = false
      ∧ PyStr.contains "logging" (entry_message entry) = false
      ∧ forallb (λ '(ns, sts, _),
                   PyStr.contains (ns +:+ "/" +:+ sts) (entry_message entry))
                search_configs = false.
Proof.
  cbv zeta. split; [by vm_compute |]. split; [by vm_compute |].
  split; [by vm_compute |]. eexists. split; [by vm_compute |].
  by vm_compute.
Qed.

(** ** The locator in a cluster that does not change *)

(** What the locator is to return according to its description, when the
    answer to a command depends on the command alone: [answer argv] is how
    [argv] ends. *)
Section Described.
Context (answer : list string → run_result).

(** The endpoint for a candidate whose namespace and StatefulSet exist:
    the declared service if it exists, else the first listed service
    whose name contains [elasticsearch] in any case, else the name of the
    StatefulSet.  A look-up that raises gives up on the candidate. *)
Definition chosen_endpoint (config : string * string * string) : option string :=
  let '(ns, sts, svc) := config in
  match answer ["kubectl"; "get"; "service"; svc; "-n"; ns] with
  | Completed rc _ _ =>
      if rc =? 0 then Some svc
      else match answer ["kubectl"; "get"; "svc"; "-n"; ns; "-o"; "name"] with
           | Completed rc' out _ =>
               Some (default sts (if rc' =? 0
                                  then first_elasticsearch_service out
                                  else None))
           | _ => None
           end
  | _ => None
  end.

Definition candidate_location (config : string * string * string)
    : option (string * string * string) :=
  let '(ns, sts, svc) := config in
  if succeeded (answer ["kubectl"; "get"; "namespace"; ns])
     && succeeded (answer ["kubectl"; "get"; "statefulset"; sts; "-n"; ns])
  then option_map (λ endpoint, (ns, sts, endpoint)) (chosen_endpoint config)
  else None.

(** The first candidate, in the order of the list, that gives a
    location. *)
Fixpoint first_location (configs : list (string * string * string))
    : option (string * string * string) :=
  match configs with
  | [] => None
  | config :: rest =>
      match candidate_location config with
      | Some location => Some location
      | None => first_location rest
      end
  end.
End Described.

(** The value of a computation, step by step. *)
Lemma value_bind {A B} (m : M A) (f : A → M B) w h :
  value (bind m f w h) =
  match value (m w h) with
  | Return a => value (f a w (h ++ events (m w h)))
  | Raise e => Raise e
  end.
Proof. unfold bind. by destruct (value (m w h)). Qed.

Lemma value_try_except {A} (m : M A) handler w h :
  value (try_except m handler w h) =
  match value (m w h) with
  | Return a => Return a
  | Raise e => value (handler e w (h ++ events (m w h)))
  end.
Proof. unfold try_except. by destruct (value (m w h)) eqn:Hv. Qed.

Lemma value_subprocess_run argv timeout w h :
  value (subprocess_run false argv timeout w h) =
  match run_answer w h argv timeout with
  | Completed rc out err => Return {| returncode := rc; stdout := out; stderr := err |}
  | TimedOut => Raise (TimeoutExpired argv timeout)
  | RunError msg => Raise (Exception msg)
  end.
Proof. done. Qed.

(** The answers of the world do not depend on the history. *)
Definition unchanging (w : world) (answer : list string → run_result) : Prop :=
  ∀ h argv timeout, run_answer w h argv timeout = answer argv.

Section Unchanging.
Context (w : world) (answer : list string → run_result).
Hypothesis Hstatic : unchanging w answer.

Lemma check_config_unchanging config h :
  value (check_config config w h) = Return (candidate_location answer config).
Proof.
  destruct config as [[ns sts] svc].
  unfold check_config, candidate_location, chosen_endpoint, succeeded.
  repeat
    (repeat first
       [ rewrite value_try_except | rewrite value_bind
       | rewrite value_subprocess_run | rewrite Hstatic
       | match goal with
         | E : answer ?a = _ |- context [answer ?a] => rewrite E
         | E : (?rc =? 0) = _ |- context [?rc =? 0] => rewrite E
         end
       | progress cbn [value ret returncode stdout negb andb option_map] ];
     try match goal with
         | |- context [match answer ?a with _ => _ end] =>
             destruct (answer a) as [? ? ?| |?] eqn:?
         | |- context [?rc =? 0] => is_var rc; destruct (rc =? 0) eqn:?
         | |- context [first_elasticsearch_service ?out] =>
             destruct (first_elasticsearch_service out)
         end);
    done.
Qed.

Lemma scan_configs_unchanging configs h :
  value (scan_configs configs w h) = Return (first_location answer configs).
Proof.
  revert h. induction configs as [|config rest IH]; intros h; [done |].
  cbn [scan_configs first_location].
  rewrite (bind_Return_eq _ _ w h _ (check_config_unchanging config h)).
  cbn [value]. destruct (candidate_location answer config); [done | apply IH].
Qed.

Lemma detection_attempts_unchanging attempts h :
  attempts ≠ [] →
  value (detection_attempts attempts w h) =
  Return (first_location answer search_configs).
Proof.
  revert h. induction attempts as [|attempt rest IH]; intros h Hne; [done |].
  cbn [detection_attempts].
  rewrite (bind_Return_eq _ _ w h _ (scan_configs_unchanging search_configs h)).
  cbn [value]. destruct (first_location answer search_configs) eqn:Hloc; [done |].
  set (h' := h ++ _).
  assert (Hp : ∃ u, value ((if (attempt <? 2)%nat then time_sleep 5 else ret tt) w h')
                    = Return u) by (destruct (attempt <? 2)%nat; by eexists).
  destruct Hp as [u Hp]. rewrite (bind_Return_eq _ _ w h' u Hp). cbn [value].
  destruct rest as [|attempt' rest']; [done |].
  rewrite IH; [by rewrite ?Hloc | done].
Qed.
End Unchanging.

(** ** The rounds of the locator *)

(** How many events of a trace satisfy a test. *)
Fixpoint count (f : event → bool) (l : list event) : nat :=
  match l with
  | [] => 0
  | e :: l' => (if f e then 1 else 0) + count f l'
  end.

Definition namespace_lookup (e : event) : bool :=
  match e with
  | Run argv _ => (arg 2 argv =? "namespace")%string
  | _ => false
  end.

Definition pause (e : event) : bool :=
  match e with
  | TimeSleep _ => true
  | _ => false
  end.

Lemma count_app f l l' : count f (l ++ l') = (count f l + count f l')%nat.
Proof. induction l as [|e l IH]; cbn [count app]; [done | rewrite IH; lia]. Qed.

Lemma events_bind {A B} (m : M A) (f : A → M B) w h :
  events (bind m f w h) =
  events (m w h) ++
  match value (m w h) with
  | Return a => events (f a w (h ++ events (m w h)))
  | Raise _ => []
  end.
Proof. unfold bind. destruct (value (m w h)); [done | by rewrite app_nil_r]. Qed.

Lemma events_try_except {A} (m : M A) handler w h :
  events (try_except m handler w h) =
  events (m w h) ++
  match value (m w h) with
  | Return _ => []
  | Raise e => events (handler e w (h ++ events (m w h)))
  end.
Proof.
  unfold try_except. destruct (value (m w h)) eqn:Hv; [by rewrite app_nil_r | done].
Qed.

(** A candidate costs one look-up of a namespace and no pause. *)
Lemma check_config_counts config w h :
  count namespace_lookup (events (check_config config w h)) = 1%nat
  ∧ count pause (events (check_config config w h)) = 0%nat.
Proof.
  destruct config as [[ns sts] svc]. unfold check_config.
  repeat
    (repeat first
       [ rewrite events_try_except | rewrite events_bind | rewrite value_bind
       | rewrite value_subprocess_run
       | match goal with
         | E : run_answer ?w ?h ?a ?t = _ |- context [run_answer ?w ?h ?a ?t] =>
             rewrite E
         | E : (?rc =? 0) = _ |- context [?rc =? 0] => rewrite E
         end
       | progress cbn [events value ret subprocess_run returncode stdout negb andb] ];
     try match goal with
         | |- context [match run_answer ?w ?h ?a ?t with _ => _ end] =>
             destruct (run_answer w h a t) as [? ? ?| |?] eqn:?
         | |- context [?rc =? 0] => is_var rc; destruct (rc =? 0) eqn:?
         | |- context [first_elasticsearch_service ?out] =>
             destruct (first_elasticsearch_service out)
         end);
    by vm_compute.
Qed.

(** A scan costs at most one look-up of a namespace per candidate, exactly
    one per candidate when it finds nothing, and never pauses. *)
Lemma scan_configs_counts configs w h :
  (count namespace_lookup (events (scan_configs configs w h)) ≤ length configs)%nat
  ∧ count pause (events (scan_configs configs w h)) = 0%nat
  ∧ (value (scan_configs configs w h) = Return None →
     count namespace_lookup (events (scan_configs configs w h)) = length configs).
Proof.
  revert h. induction configs as [|config rest IH]; intros h; [done |].
  cbn [scan_configs length].
  destruct (total_check_config config w h) as [found Hv].
  destruct (check_config_counts config w h) as [Hn Hp].
  rewrite (bind_Return_eq _ _ w h found Hv). cbn [events value].
  rewrite !count_app, Hn, Hp.
  destruct found as [location|].
  - cbn [events value ret count]. split; [lia |]. split; [done | done].
  - destruct (IH (h ++ events (check_config config w h))) as (Hle & Hz & Hex).
    split; [lia |]. split; [lia |]. intros Hnone. rewrite (Hex Hnone). lia.
Qed.

(** The pauses of the rounds: one after each round but the last of three. *)
Definition pauses (attempts : list nat) : nat :=
  length (List.filter (λ attempt, attempt <? 2)%nat attempts).

Lemma detection_attempts_counts attempts w h :
  let r := detection_attempts attempts w h in
  (count namespace_lookup (events r) ≤ 6 * length attempts)%nat
  ∧ (count pause (events r) ≤ pauses attempts)%nat
  ∧ (value r = Return None →
     count namespace_lookup (events r) = (6 * length attempts)%nat
     ∧ count pause (events r) = pauses attempts).
Proof.
  cbv zeta. revert h. induction attempts as [|attempt rest IH]; intros h; [done |].
  cbn [detection_attempts length]. unfold pauses. cbn [List.filter].
  fold (pauses rest).
  destruct (total_scan_configs search_configs w h) as [found Hv].
  destruct (scan_configs_counts search_configs w h) as (Hle & Hz & Hex).
  change (length search_configs) with 6%nat in Hle, Hex.
  rewrite (bind_Return_eq _ _ w h found Hv). cbn [events value].
  rewrite !count_app, Hz.
  destruct found as [location|].
  - cbn [events value ret count]. split; [lia |]. split; [lia | done].
  - specialize (Hex Hv). rewrite Hex.
    set (h' := h ++ events (scan_configs search_configs w h)).
    assert (Hsleep :
      ∃ evs, (if (attempt <? 2)%nat then time_sleep 5 else ret tt) w h' =
             {| events := evs; appended := []; value := Return tt |}
             ∧ count namespace_lookup evs = 0%nat
             ∧ count pause evs = length (if (attempt <? 2)%nat then [attempt] else [])).
    { destruct (attempt <? 2)%nat; eexists; (split; [reflexivity | done]). }
    destruct Hsleep as (evs & Hs & Hn0 & Hp0).
    rewrite (bind_Return_eq _ _ w h' tt (f_equal value Hs)), Hs.
    cbn [events value]. rewrite !count_app, Hn0, Hp0.
    destruct (IH (h' ++ evs)) as (Hle' & Hpl' & Hex').
    assert (Hlen : length (if (attempt <? 2)%nat
                           then attempt :: List.filter (λ a, (a <? 2)%nat) rest
                           else List.filter (λ a, (a <? 2)%nat) rest)
                   = (length (if (attempt <? 2)%nat then [attempt] else [])
                      + pauses rest)%nat)
      by (by destruct (attempt <? 2)%nat).
    rewrite Hlen. split; [lia |]. split; [lia |].
    intros Hnone. destruct (Hex' Hnone) as [-> ->]. lia.
Qed.

(** ** The locator in a cluster that changes *)

(** The look-ups of the check of a candidate come in a fixed order: the
    namespace, the StatefulSet, the declared service, the listing of the
    services.  [answer_during w h config argv] is the answer of the cluster
    to the look-up [argv] of a check of [config] that starts at history
    [h]: the kind of the look-up tells which look-ups of the check came
    before it. *)
Definition answer_during (w : world) (h : list event)
    (config : string * string * string) (argv : list string) : run_result :=
  let '(ns, sts, svc) := config in
  let ns_lookup := Run ["kubectl"; "get"; "namespace"; ns] (Some 5%nat) in
  let sts_lookup :=
    Run ["kubectl"; "get"; "statefulset"; sts; "-n"; ns] (Some 5%nat) in
  let svc_lookup :=
    Run ["kubectl"; "get"; "service"; svc; "-n"; ns] (Some 5%nat) in
  let before :=
    if (arg 2 argv =? "namespace")%string then []
    else if (arg 2 argv =? "statefulset")%string then [ns_lookup]
    else if (arg 2 argv =? "service")%string
         then [ns_lookup; sts_lookup]
         else [ns_lookup; sts_lookup; svc_lookup] in
  run_answer w (h ++ before) argv (Some 5%nat).

(** What the locator goes through: a check of a candidate, or the pause
    between two rounds. *)
Inductive locator_step : Type :=
| Check (config : string * string * string)
| Pause.

(** Three rounds over the candidates, with a pause after the first and
    after the second. *)
Definition locator_schedule : list locator_step :=
  map Check search_configs ++ Pause :: map Check search_configs
  ++ Pause :: map Check search_configs.

(** The location of the first check of a schedule that gives one, each
    candidate judged on the answers of the cluster during its check; the
    history grows by the look-ups of the checks that gave none and by the
    pauses. *)
Fixpoint first_location_during (w : world) (h : list event)
    (steps : list locator_step) : option (string * string * string) :=
  match steps with
  | [] => None
  | Pause :: rest => first_location_during w (h ++ [TimeSleep 5]) rest
  | Check config :: rest =>
      match candidate_location (answer_during w h config) config with
      | Some location => Some location
      | None => first_location_during w (h ++ events (check_config config w h)) rest
      end
  end.

Lemma answer_during_lookups w h ns sts svc :
  let ns_lookup := ["kubectl"; "get"; "namespace"; ns] in
  let sts_lookup := ["kubectl"; "get"; "statefulset"; sts; "-n"; ns] in
  let svc_lookup := ["kubectl"; "get"; "service"; svc; "-n"; ns] in
  let listing := ["kubectl"; "get"; "svc"; "-n"; ns; "-o"; "name"] in
  answer_during w h (ns, sts, svc) ns_lookup
  = run_answer w h ns_lookup (Some 5%nat)
  ∧ answer_during w h (ns, sts, svc) sts_lookup
    = run_answer w (h ++ [Run ns_lookup (Some 5%nat)]) sts_lookup
        (Some 5%nat)
  ∧ answer_during w h (ns, sts, svc) svc_lookup
    = run_answer w (h ++ [Run ns_lookup (Some 5%nat);
                          Run sts_lookup (Some 5%nat)])
        svc_lookup (Some 5%nat)
  ∧ answer_during w h (ns, sts, svc) listing
    = run_answer w (h ++ [Run ns_lookup (Some 5%nat);
                          Run sts_lookup (Some 5%nat);
                          Run svc_lookup (Some 5%nat)])
        listing (Some 5%nat).
Proof.
  cbv zeta. unfold answer_during.
  change (arg 2 ["kubectl"; "get"; "namespace"; ns]) with "namespace".
  change (arg 2 ["kubectl"; "get"; "statefulset"; sts; "-n"; ns]) with "statefulset".
  change (arg 2 ["kubectl"; "get"; "service"; svc; "-n"; ns]) with "service".
  change (arg 2 ["kubectl"; "get"; "svc"; "-n"; ns; "-o"; "name"]) with "svc".
  change ("namespace" =? "namespace")%string with true.
  change ("statefulset" =? "namespace")%string with false.
  change ("statefulset" =? "statefulset")%string with true.
  change ("service" =? "namespace")%string with false.
  change ("service" =? "statefulset")%string with false.
  change ("service" =? "service")%string with true.
  change ("svc" =? "namespace")%string with false.
  change ("svc" =? "statefulset")%string with false.
  change ("svc" =? "service")%string with false.
  cbv iota. by rewrite app_nil_r.
Qed.

(** A check gives the location its description gives on the answers of
    the cluster during the check. *)
Lemma check_config_value config w h :
  value (check_config config w h)
  = Return (candidate_location (answer_during w h config) config).
Proof.
  destruct config as [[ns sts] svc].
  destruct (answer_during_lookups w h ns sts svc) as (H1 & H2 & H3 & H4).
  cbv zeta in H1, H2, H3, H4.
  unfold candidate_location, chosen_endpoint, succeeded.
  rewrite H1, H2, H3, H4. clear H1 H2 H3 H4.
  unfold check_config.
  repeat
    (repeat first
       [ rewrite value_try_except | rewrite value_bind
       | rewrite value_subprocess_run
       | rewrite <- app_assoc
       | match goal with
         | E : run_answer ?w ?h ?a ?t = _ |- context [run_answer ?w ?h ?a ?t] =>
             rewrite E
         | E : (?rc =? 0) = _ |- context [?rc =? 0] => rewrite E
         end
       | progress cbn [value events ret subprocess_run returncode stdout negb andb
                       option_map app] ];
     try match goal with
         | |- context [match run_answer ?w ?h ?a ?t with _ => _ end] =>
             destruct (run_answer w h a t) as [? ? ?| |?] eqn:?
         | |- context [?rc =? 0] => is_var rc; destruct (rc =? 0) eqn:?
         | |- context [first_elasticsearch_service ?out] =>
             destruct (first_elasticsearch_service out)
         end);
    done.
Qed.

(** A scan of candidates, then the rest of a schedule. *)
Lemma scan_configs_first_location configs rest w h :
  first_location_during w h (map Check configs ++ rest) =
  match value (scan_configs configs w h) with
  | Return (Some location) => Some location
  | _ => first_location_during w (h ++ events (scan_configs configs w h)) rest
  end.
Proof.
  revert h. induction configs as [|config configs IH]; intros h.
  - cbn [map app scan_configs ret value events]. by rewrite app_nil_r.
  - cbn [map app first_location_during scan_configs].
    rewrite value_bind, events_bind, check_config_value. cbn [value].
    destruct (candidate_location (answer_during w h config) config) as [location|].
    + done.
    + rewrite IH, app_assoc. done.
Qed.

Lemma first_location_during_nil w h : first_location_during w h [] = None.
Proof. done. Qed.

(** The rounds of the locator go through the schedule. *)
Lemma locator_first_location w h :
  value (find_elasticsearch_resources w h)
  = Return (first_location_during w h locator_schedule).
Proof.
  unfold find_elasticsearch_resources, locator_schedule.
  change (seq 0 3) with [0; 1; 2]%nat. cbn [detection_attempts].
  change (0 <? 2)%nat with true. change (1 <? 2)%nat with true.
  change (2 <? 2)%nat with false. cbv iota.
  rewrite value_bind, scan_configs_first_location.
  destruct (total_scan_configs search_configs w h) as [found1 Hv1]. rewrite Hv1.
  destruct found1 as [location|]; [done |].
  set (h1 := h ++ events (scan_configs search_configs w h)).
  rewrite value_bind. cbn [value events time_sleep emit first_location_during].
  set (h1' := h1 ++ [TimeSleep 5]).
  rewrite value_bind, scan_configs_first_location.
  destruct (total_scan_configs search_configs w h1') as [found2 Hv2]. rewrite Hv2.
  destruct found2 as [location|]; [done |].
  set (h2 := h1' ++ events (scan_configs search_configs w h1')).
  rewrite value_bind. cbn [value events time_sleep emit first_location_during].
  set (h2' := h2 ++ [TimeSleep 5]).
  rewrite value_bind.
  rewrite <- (app_nil_r (map Check search_configs)), scan_configs_first_location.
  destruct (total_scan_configs search_configs w h2') as [found3 Hv3]. rewrite Hv3.
  destruct found3 as [location|]; [done |].
  rewrite value_bind. done.
Qed.

(** C8 (amended).  The locator never raises and appends nothing.  All it
    runs are [kubectl get] look-ups with a timeout of five seconds and
    pauses of five seconds; it makes at most 18 look-ups of a namespace
    (three rounds over the six candidates) and at most two pauses, and
    exactly 18 and two when it returns not-found.  It checks the candidates
    in the order of the list, round after round, and returns at the first
    check that gives a location, whatever the cluster answered before and
    however its answers change: a check gives a location when the namespace
    and the StatefulSet of its candidate both exist and its service look-ups
    do not raise, with the declared service if that exists, else the first
    listed service whose name contains [elasticsearch] in any case, else the
    name of the StatefulSet; a candidate for which a look-up raises or times
    out is passed over.  It returns not-found when no check of the three
    rounds gives a location.  In a cluster whose answers do not change the
    result is the location of the first such candidate of the list. *)
Theorem locator_rounds_and_first_match (w : world) (h : list event) :
  let r := find_elasticsearch_resources w h in
  (∃ found, value r = Return found)
  ∧ appended r = []
  ∧ Forall lookup_event (events r)
  ∧ (count namespace_lookup (events r) ≤ 18)%nat
  ∧ (count pause (events r) ≤ 2)%nat
  ∧ (value r = Return None →
     count namespace_lookup (events r) = 18%nat ∧ count pause (events r) = 2%nat)
  ∧ value r = Return (first_location_during w h locator_schedule)
  ∧ ∀ answer, unchanging w answer →
      value r = Return (first_location answer search_configs).
Proof.
  cbv zeta.
  destruct (confined_find_elasticsearch_resources w h) as [Hev Ha].
  destruct (detection_attempts_counts (seq 0 3) w h) as (Hn & Hp & Hex).
  split; [apply total_detection_attempts |].
  split; [exact Ha |]. split; [exact Hev |].
  split; [exact Hn |]. split; [exact Hp |]. split; [exact Hex |].
  split; [apply locator_first_location |].
  intros answer Hstatic. by apply detection_attempts_unchanging.
Qed.

Lemma locator_rounds_and_first_match_witness :
  value (find_elasticsearch_resources (static_world renamed_service_answer None) [])
  = Return (Some ("elasticsearch", "elasticsearch-master", "Elasticsearch-Client")).
Proof.
  destruct (locator_rounds_and_first_match
              (static_world renamed_service_answer None) [])
    as (_ & _ & _ & _ & _ & _ & _ & Hfirst).
  exact (Hfirst renamed_service_answer (λ _ _ _, eq_refl)).
Defined.

(** A cluster in which nothing exists before the first pause of the
    locator and everything after it: the second round starts again at the
    head of the list and returns its first candidate, after six checks that
    found no namespace and one pause. *)
Example locator_finds_late_resources :
  let exists_after_pause (h : list event) : run_result :=
    if existsb pause h then Completed 0 "" ""
    else Completed 1 "" "Error from server (NotFound)" in
  let w := {| CLUSTER_NAME := "c1";
              run_answer := λ h _ _, exists_after_pause h;
              open_answer := λ _ _, None;
              popen_answer := λ _ _, None;
              poll_answer := λ _, None;
              CalledProcessError_str := λ _ _, "" |} in
  value (find_elasticsearch_resources w [])
  = Return (Some ("elasticsearch", "elasticsearch-master", "elasticsearch-master"))
  ∧ count namespace_lookup (events (find_elasticsearch_resources w [])) = 7%nat
  ∧ count pause (events (find_elasticsearch_resources w [])) = 1%nat.
Proof. by vm_compute. Qed.

(** C8, as stated, fails.  The namespace and the StatefulSet of the first
    candidate exist, but every look-up of a service times out: the locator
    passes over the candidate, and over the others, and returns
    not-found. *)
Lemma locator_first_match_counterexample :
  let w := static_world stalling_answer None in
  succeeded (run_answer w [] ["kubectl"; "get"; "namespace"; "elasticsearch"]
               (Some 5%nat)) = true
  ∧ succeeded (run_answer w []
                 ["kubectl"; "get"; "statefulset"; "elasticsearch-master"; "-n";
                  "elasticsearch"] (Some 5%nat)) = true
  ∧ head search_configs
    = Some ("elasticsearch", "elasticsearch-master", "elasticsearch-master")
  ∧ value (find_elasticsearch_resources w []) = Return None.
Proof. by vm_compute. Qed.

(** ** The status registry *)

Lemma dict_at_setitem l key record h d :
  dict_at l h = Some d →
  dict_at l (dict_setitem l key record h) = Some (<[key := record]> d).
Proof.
  unfold dict_at, dict_setitem. destruct (h !! l) as [[d0|items]|] eqn:Hl; try done.
  intros [= ->]. by rewrite lookup_insert_eq.
Qed.

(** One report: the record under its key is replaced, the others stay. *)
Lemma receive_report_status report h d :
  dict_at status_ref h = Some d →
  dict_at status_ref (fst (receive_report report h)) =
  Some (match report_key report with
        | Some key => <[key := report_record report]> d
        | None => d
        end).
Proof.
  intros Hd. unfold receive_report, report_key.
  destruct (report_cluster report) as [cluster|]; [| done].
  destruct (report_service report) as [service|]; [| done].
  by apply dict_at_setitem.
Qed.

Lemma last_report_for_cons key report reports :
  last_report_for key (report :: reports) =
  match last_report_for key reports with
  | Some r => Some r
  | None => if decide (report_key report = Some key) then Some report else None
  end.
Proof.
  unfold last_report_for. rewrite filter_cons.
  destruct (decide (report_key report = Some key)); [| by destruct (last _)].
  by rewrite last_cons.
Qed.

(** C7.  After any sequence of reports the registry maps a key, the string
    [cluster-service], to the record of the last report of the sequence
    stored under that key, whole and unmerged, and to what it held before
    when no report of the sequence has that key; a report changes the
    record of no other key. *)
Theorem last_report_wins (reports : list Report) (h : gmap loc object)
    (d : gmap string HealthRecord) :
  dict_at status_ref h = Some d →
  (∃ d', dict_at status_ref (receive_reports reports h) = Some d'
         ∧ ∀ key : string,
             d' !! key = match last_report_for key reports with
                         | Some report => Some (report_record report)
                         | None => d !! key
                         end)
  ∧ ∀ (report : Report) (key : string),
      report_key report ≠ Some key →
      ∃ d1, dict_at status_ref (fst (receive_report report h)) = Some d1
            ∧ d1 !! key = d !! key.
Proof.
  intros Hd. split.
  - revert h d Hd. induction reports as [|report rest IH]; intros h d Hd.
    + exists d. split; [done |]. done.
    + cbn [receive_reports fold_left].
      pose proof (receive_report_status report h d Hd) as H1.
      destruct (IH _ _ H1) as (d' & Hd' & Hlook).
      exists d'. split; [exact Hd' |]. intros key.
      rewrite Hlook, last_report_for_cons.
      destruct (last_report_for key rest) as [r|]; [done |].
      destruct (decide (report_key report = Some key)) as [Hk|Hk].
      * rewrite Hk. by rewrite lookup_insert_eq.
      * destruct (report_key report) as [key'|]; [| done].
        rewrite lookup_insert_ne; [done | congruence].
  - intros report key Hk.
    eexists. split; [exact (receive_report_status report h d Hd) |].
    destruct (report_key report) as [key'|]; [| done].
    rewrite lookup_insert_ne; [done | congruence].
Qed.

Lemma last_report_wins_witness :
  ∃ d', dict_at status_ref (receive_reports [vault_report] initial_heap) = Some d'
        ∧ d' !! "c1-vault" =
          Some {| healthy := false; details := "status 500"; consul_host := "N/A" |}.
Proof.
  destruct (last_report_wins [vault_report] initial_heap ∅ eq_refl)
    as [(d' & Hd' & Hlook) _].
  exists d'. split; [exact Hd' |]. exact (Hlook "c1-vault").
Defined.

(** The healthy records of a dict, counted on the dict. *)
Lemma healthy_count (d : gmap string HealthRecord) :
  length (filter (λ s : HealthRecord, healthy s = true) (snd <$> map_to_list d))
  = size (filter (λ kv : string * HealthRecord, healthy kv.2 = true) d).
Proof.
  induction d as [|key record d Hnone IH] using map_ind.
  - by rewrite map_to_list_empty, map_filter_empty, map_size_empty.
  - rewrite map_to_list_insert by done. rewrite fmap_cons, filter_cons. cbn [snd].
    destruct (decide (healthy record = true)) as [Hh|Hh].
    + rewrite map_filter_insert_True by done.
      rewrite map_size_insert_None by (by rewrite map_lookup_filter_None; left).
      cbn [length]. by rewrite IH.
    + rewrite map_filter_insert_not' by naive_solver. exact IH.
Qed.







(** * Further properties of the server *)

(** A run is its events, its entries and its value. *)
Lemma run_ext {A} (r : run A) evs entries v :
  events r = evs ∧ appended r = entries ∧ value r = v →
  r = {| events := evs; appended := entries; value := v |}.
Proof. destruct r. cbn. by intros (-> & -> & ->). Qed.

Lemma appended_bind {A B} (m : M A) (f : A → M B) w h :
  appended (bind m f w h) =
  appended (m w h) ++
  match value (m w h) with
  | Return a => appended (f a w (h ++ events (m w h)))
  | Raise _ => []
  end.
Proof. unfold bind. destruct (value (m w h)); [done | by rewrite app_nil_r]. Qed.

Lemma appended_try_except {A} (m : M A) handler w h :
  appended (try_except m handler w h) =
  appended (m w h) ++
  match value (m w h) with
  | Return _ => []
  | Raise e => appended (handler e w (h ++ events (m w h)))
  end.
Proof.
  unfold try_except. destruct (value (m w h)) eqn:Hv; [by rewrite app_nil_r | done].
Qed.

(** ** The helpers around [kubectl] and the tunnel *)

(** X1.  [scale_statefulset] runs one command, with a timeout of thirty seconds,
    and never raises: it returns [True] when the command exits with 0 and
    [False] when it exits with another code, times out or cannot be run. *)
Theorem scale_statefulset_outcome (name ns : string) (replicas : Z) (w : world)
    (h : list event) :
  let cmd := ["kubectl"; "scale"; "statefulset"; name; "-n"; ns;
              "--replicas=" +:+ PyStr.of_Z replicas] in
  scale_statefulset name ns replicas w h =
  {| events := [Run cmd (Some 30%nat)];
     appended := [];
     value := Return match run_answer w h cmd (Some 30%nat) with
                     | Completed rc _ _ => rc =? 0
                     | TimedOut | RunError _ => false
                     end |}.
Proof. exact (scale_statefulset_run name ns replicas w h). Qed.

(** X2.  [kill_port_forward] never raises.  For a service without an entry in
    [PORT_FORWARDS] it does nothing; otherwise it runs [pkill] on the
    pattern of the port, without a timeout, and pauses for two seconds when
    [pkill] completed, whatever its exit code. *)
Theorem kill_port_forward_run (service : string) (w : world) (h : list event) :
  kill_port_forward service w h =
  match PORT_FORWARDS service with
  | None => {| events := []; appended := []; value := Return tt |}
  | Some config =>
      let pkill := ["pkill"; "-f";
                    "kubectl port-forward.*" +:+ PyStr.of_Z (pf_port config)] in
      {| events := Run pkill None ::
                   match run_answer w h pkill None with
                   | Completed _ _ _ => [TimeSleep 2]
                   | TimedOut | RunError _ => []
                   end;
         appended := [];
         value := Return tt |}
  end.
Proof.
  unfold kill_port_forward, PORT_FORWARDS_getitem.
  destruct (PORT_FORWARDS service) as [config|];
    unfold try_except, bind, raise, ret, subprocess_run, time_sleep, emit;
    cbn [events value appended andb app]; [| done].
  rewrite !app_nil_r.
  destruct (run_answer w h _ None) as [rc out err| |msg];
    cbn [events value appended andb app]; done.
Qed.

(** The namespace and the service the tunnel is started for: the arguments
    when both are given and non-empty, the entry of [PORT_FORWARDS]
    otherwise. *)
Definition tunnel_target (namespace svc_name : option string) (config : PortForward)
    : string * string :=
  match namespace, svc_name with
  | Some ns, Some name =>
      if PyStr.truthy ns && PyStr.truthy name then (ns, name)
      else (pf_namespace config, pf_service config)
  | _, _ => (pf_namespace config, pf_service config)
  end.

(** X3.  [start_port_forward] for a service without an entry in
    [PORT_FORWARDS]: nothing is run, not even [pkill], and the result is
    [False]. *)
Theorem start_port_forward_unknown_service (service : string)
    (namespace svc_name : option string) (w : world) (h : list event) :
  PORT_FORWARDS service = None →
  start_port_forward service namespace svc_name w h =
  {| events := []; appended := []; value := Return false |}.
Proof.
  intros Hnone. apply run_ext. unfold start_port_forward, PORT_FORWARDS_getitem.
  rewrite Hnone.
  destruct namespace as [ns|], svc_name as [name|];
    try destruct (truthy_arg (Some ns) && truthy_arg (Some name));
    repeat first
      [ rewrite events_try_except | rewrite appended_try_except
      | rewrite value_try_except | rewrite events_bind | rewrite appended_bind
      | rewrite value_bind
      | progress cbn [events value appended raise ret app] ];
    done.
Qed.

Lemma start_port_forward_unknown_service_witness :
  start_port_forward "nginx" (Some "web") (Some "nginx")
    (static_world empty_answer None) [] =
  {| events := []; appended := []; value := Return false |}.
Proof.
  exact (start_port_forward_unknown_service "nginx" (Some "web") (Some "nginx")
           (static_world empty_answer None) [] eq_refl).
Defined.

Lemma value_kill_port_forward service w h :
  value (kill_port_forward service w h) = Return tt.
Proof.
  assert (Ht : total (kill_port_forward service))
    by (apply total_try_except; intros _; apply total_ret).
  destruct (Ht w h) as [[] Hv]. exact Hv.
Qed.

(** The steps of [start_port_forward] once the namespace and the service
    are chosen. *)
Definition tunnel_steps (service : string) (names : string * string) : M bool :=
  let '(ns, service_name) := names in
  config <- PORT_FORWARDS_getitem service;;
  let port := pf_port config in
  kill_port_forward service;;
  let logfile := service +:+ ".log" in
  let cmd := ["kubectl"; "port-forward"; "svc/" +:+ service_name;
              PyStr.of_Z port +:+ ":" +:+ PyStr.of_Z port; "-n"; ns] in
  open_append logfile;;
  subprocess_Popen cmd;;
  time_sleep 3;;
  status <- process_poll;;
  match status with
  | None => ret true
  | Some _ => ret false
  end.

(** The choice of the namespace and the service. *)
Definition tunnel_names (service : string) (namespace svc_name : option string)
    : M (string * string) :=
  match namespace, svc_name with
  | Some ns, Some service_name =>
      if truthy_arg namespace && truthy_arg svc_name
      then ret (ns, service_name)
      else config <- PORT_FORWARDS_getitem service;;
           ret (pf_namespace config, pf_service config)
  | _, _ => config <- PORT_FORWARDS_getitem service;;
            ret (pf_namespace config, pf_service config)
  end.

Lemma start_port_forward_steps service namespace svc_name :
  start_port_forward service namespace svc_name =
  try_except (names <- tunnel_names service namespace svc_name;;
              tunnel_steps service names)
             (λ _, ret false).
Proof. reflexivity. Qed.

Lemma tunnel_names_run service namespace svc_name config w h :
  PORT_FORWARDS service = Some config →
  tunnel_names service namespace svc_name w h =
  {| events := []; appended := [];
     value := Return (tunnel_target namespace svc_name config) |}.
Proof.
  intros Hc. unfold tunnel_names, tunnel_target, PORT_FORWARDS_getitem, truthy_arg.
  rewrite Hc.
  destruct namespace as [ns|], svc_name as [name|];
    try destruct (PyStr.truthy ns && PyStr.truthy name); reflexivity.
Qed.

Lemma tunnel_steps_run service ns name config w h :
  PORT_FORWARDS service = Some config →
  let port := PyStr.of_Z (pf_port config) in
  let cmd := ["kubectl"; "port-forward"; "svc/" +:+ name; port +:+ ":" +:+ port;
              "-n"; ns] in
  let logfile := service +:+ ".log" in
  let killed := events (kill_port_forward service w h) in
  let h1 := h ++ killed in
  let opened := open_answer w h1 logfile in
  let started := popen_answer w (h1 ++ [Open logfile]) cmd in
  let polled := poll_answer w (h1 ++ [Open logfile; Popen cmd; TimeSleep 3]) in
  events (tunnel_steps service (ns, name) w h) =
    killed ++ Open logfile ::
    match opened with
    | Some _ => []
    | None => Popen cmd :: match started with
                           | Some _ => []
                           | None => [TimeSleep 3; Poll]
                           end
    end
  ∧ appended (tunnel_steps service (ns, name) w h) = []
  ∧ match value (tunnel_steps service (ns, name) w h) with
    | Return b => b
    | Raise _ => false
    end =
    match opened, started, polled with
    | None, None, None => true
    | _, _, _ => false
    end.
Proof.
  intros Hc. cbv zeta. unfold tunnel_steps, PORT_FORWARDS_getitem. rewrite Hc.
  rewrite (bind_Return_eq (ret config) _ w h config eq_refl).
  cbn [events value appended ret app]. rewrite app_nil_r.
  rewrite (bind_Return_eq _ _ w h tt (value_kill_port_forward service w h)).
  rewrite (silent _ _ w h (confined_kill_port_forward service)).
  cbn [events value appended app].
  set (h1 := h ++ events (kill_port_forward service w h)).
  set (logfile := service +:+ ".log").
  set (cmd := ["kubectl"; _; _; _; _; _]).
  rewrite events_bind, appended_bind, value_bind.
  cbn [events value appended open_append].
  destruct (open_answer w h1 logfile) as [msg|]; [done |].
  rewrite events_bind, appended_bind, value_bind.
  cbn [events value appended subprocess_Popen app].
  destruct (popen_answer w (h1 ++ [Open logfile]) cmd) as [msg|]; [done |].
  rewrite events_bind, appended_bind, value_bind.
  cbn [events value appended time_sleep emit app].
  rewrite events_bind, appended_bind, value_bind.
  cbn [events value appended process_poll app].
  rewrite <- !app_assoc. cbn [app].
  destruct (poll_answer w (h1 ++ [Open logfile; Popen cmd; TimeSleep 3]));
    cbn [events value appended ret app]; done.
Qed.

(** X4.  [start_port_forward] for a service with an entry in [PORT_FORWARDS]
    never raises.  It first kills the old tunnel, then opens the log file of
    the service, starts [kubectl port-forward] for the target on the port of
    the service, pauses for three seconds and polls the process; it stops at
    the first of these steps that fails.  The result is [True] exactly when
    the file was opened, the process was started and it is still running at
    the poll. *)
Theorem start_port_forward_run (service : string) (namespace svc_name : option string)
    (config : PortForward) (w : world) (h : list event) :
  PORT_FORWARDS service = Some config →
  let ns := fst (tunnel_target namespace svc_name config) in
  let name := snd (tunnel_target namespace svc_name config) in
  let port := PyStr.of_Z (pf_port config) in
  let cmd := ["kubectl"; "port-forward"; "svc/" +:+ name; port +:+ ":" +:+ port;
              "-n"; ns] in
  let logfile := service +:+ ".log" in
  let killed := events (kill_port_forward service w h) in
  let h1 := h ++ killed in
  start_port_forward service namespace svc_name w h =
  {| events :=
       killed ++ Open logfile ::
       match open_answer w h1 logfile with
       | Some _ => []
       | None =>
           Popen cmd ::
           match popen_answer w (h1 ++ [Open logfile]) cmd with
           | Some _ => []
           | None => [TimeSleep 3; Poll]
           end
       end;
     appended := [];
     value :=
       Return match open_answer w h1 logfile with
              | Some _ => false
              | None =>
                  match popen_answer w (h1 ++ [Open logfile]) cmd with
                  | Some _ => false
                  | None =>
                      match poll_answer w (h1 ++ [Open logfile; Popen cmd; TimeSleep 3])
                      with
                      | None => true
                      | Some _ => false
                      end
                  end
              end |}.
Proof.
  intros Hc. cbv zeta. rewrite start_port_forward_steps. apply run_ext.
  pose proof (tunnel_names_run service namespace svc_name config w h Hc) as Hnames.
  rewrite events_try_except, appended_try_except, value_try_except.
  rewrite (bind_Return_eq _ _ w h _ (f_equal value Hnames)).
  rewrite Hnames. cbn [events value appended app]. rewrite app_nil_r.
  destruct (tunnel_target namespace svc_name config) as [ns name] eqn:Htarget.
  cbn [fst snd].
  destruct (tunnel_steps_run service ns name config w h Hc) as (He & Ha & Hv).
  cbv zeta in He, Hv. rewrite Ha, He. clear He.
  revert Hv. generalize (value (tunnel_steps service (ns, name) w h)) as v.
  destruct (open_answer w _ _) as [msg|];
    [| destruct (popen_answer w _ _) as [msg|]; [| destruct (poll_answer w _)]];
    intros [b|e] Hv; cbn [events value appended ret app]; rewrite app_nil_r;
    rewrite ?Hv; done.
Qed.

Lemma start_port_forward_run_witness :
  start_port_forward "vault" None None (static_world empty_answer (Some 1)) [] =
  {| events := [ Run ["pkill"; "-f"; "kubectl port-forward.*8200"] None; TimeSleep 2;
                 Open "vault.log";
                 Popen ["kubectl"; "port-forward"; "svc/vault"; "8200:8200"; "-n";
                        "vault"];
                 TimeSleep 3; Poll ];
     appended := [];
     value := Return false |}.
Proof.
  exact (start_port_forward_run "vault" None None
           {| pf_namespace := "vault"; pf_service := "vault"; pf_port := 8200 |}
           (static_world empty_answer (Some 1)) [] eq_refl).
Defined.

(** ** Failures that end an attempt *)

Lemma validate_run t w h :
  validate t w h =
  {| events := [Run (validate_argv t) (Some 10%nat)];
     appended := [];
     value := match run_answer w h (validate_argv t) (Some 10%nat) with
              | Completed rc _ err =>
                  if rc =? 0 then Return tt
                  else Raise (Exception
                                ("StatefulSet " +:+ statefulset_name t
                                 +:+ " not found in namespace " +:+ namespace t
                                 +:+ ". Error: " +:+ PyStr.strip err))
              | TimedOut => Raise (TimeoutExpired (validate_argv t) (Some 10%nat))
              | RunError msg => Raise (Exception msg)
              end |}.
Proof.
  unfold validate, bind, subprocess_run, raise, ret; cbn [events value appended].
  fold (validate_argv t).
  destruct (run_answer w h _ _) as [rc out err| |msg];
    cbn [andb negb value events appended returncode stderr app]; try done.
  destruct (rc =? 0); done.
Qed.

Lemma through_restart_invalid service t w h e :
  value (validate t w h) = Raise e →
  events (through_restart service t w h) = [Run (validate_argv t) (Some 10%nat)]
  ∧ value (through_restart service t w h) = Raise e.
Proof.
  intros Hv. unfold through_restart. rewrite (bind_Raise_eq _ _ w h e Hv).
  cbn [events value]. by rewrite events_validate.
Qed.

(** X5.  When the StatefulSet of a resolved service cannot be validated, the
    attempt ends there: no replica count is read, nothing is scaled or
    restarted, no tunnel is touched, and one [failed] entry is appended.
    Its message names the StatefulSet, the namespace and the stripped error
    output when the look-up exits non-zero, is the time-out message when the
    look-up times out, and carries the text of any other exception. *)
Theorem validation_failure_ends_attempt (service : string) (w : world)
    (h : list event) (t : target) :
  value (resolve service w h) = Return (Some t) →
  let h1 := h ++ events (resolve service w h) in
  let cmd := ["kubectl"; "get"; "statefulset"; statefulset_name t; "-n"; namespace t] in
  succeeded (run_answer w h1 cmd (Some 10%nat)) = false →
  remediate service w h =
  {| events := events (resolve service w h) ++ [Run cmd (Some 10%nat)];
     appended :=
       [ {| entry_cluster := CLUSTER_NAME w; entry_service := service;
            entry_status := "failed";
            entry_message :=
              match run_answer w h1 cmd (Some 10%nat) with
              | Completed _ _ err =>
                  "Unexpected error during remediation: StatefulSet "
                  +:+ statefulset_name t +:+ " not found in namespace "
                  +:+ namespace t +:+ ". Error: " +:+ PyStr.strip err
              | TimedOut => "Remediation command timed out"
              | RunError msg => "Unexpected error during remediation: " +:+ msg
              end |} ];
     value := Return tt |}.
Proof.
  intros Hr h1 cmd Hfail.
  assert (He : ∃ e, value (validate t w h1) = Raise e
                    ∧ failure_message w e =
                      match run_answer w h1 cmd (Some 10%nat) with
                      | Completed _ _ err =>
                          "Unexpected error during remediation: StatefulSet "
                          +:+ statefulset_name t +:+ " not found in namespace "
                          +:+ namespace t +:+ ". Error: " +:+ PyStr.strip err
                      | TimedOut => "Remediation command timed out"
                      | RunError msg => "Unexpected error during remediation: " +:+ msg
                      end).
  { rewrite validate_run. cbn [value]. change (validate_argv t) with cmd.
    revert Hfail. destruct (run_answer w h1 cmd (Some 10%nat)) as [rc out err| |msg];
      cbn [succeeded]; [intros -> |..]; by eexists. }
  destruct He as (e & Hv & Hmsg).
  destruct (through_restart_invalid service t w h1 e Hv) as [Hev Hvt].
  rewrite (remediate_not_restarted service w h t Hr e Hvt).
  fold h1. rewrite Hev, Hmsg. done.
Qed.

Lemma validation_failure_ends_attempt_witness :
  remediate "consul" (static_world empty_answer None) [] =
  {| events := [Run ["kubectl"; "get"; "statefulset"; "consul-server"; "-n"; "consul"]
                    (Some 10%nat)];
     appended :=
       [ {| entry_cluster := "c1"; entry_service := "consul";
            entry_status := "failed";
            entry_message :=
              "Unexpected error during remediation: StatefulSet consul-server not found in namespace consul. Error: Error from server (NotFound)" |} ];
     value := Return tt |}.
Proof.
  exact (validation_failure_ends_attempt "consul" (static_world empty_answer None) []
           {| namespace := "consul"; statefulset_name := "consul-server";
              service_name := "consul-server"; default_replicas := 3 |}
           eq_refl eq_refl).
Defined.

Lemma rollout_restart_failed service t w h :
  succeeded (run_answer w h (restart_argv t) (Some 60%nat)) = false →
  events (rollout_restart service t w h) = [Run (restart_argv t) (Some 60%nat)]
  ∧ value (rollout_restart service t w h) =
    Raise match run_answer w h (restart_argv t) (Some 60%nat) with
          | Completed rc _ err => CalledProcessError (restart_argv t) rc err
          | TimedOut => TimeoutExpired (restart_argv t) (Some 60%nat)
          | RunError msg => Exception msg
          end.
Proof.
  unfold rollout_restart, bind, subprocess_run, succeeded, asyncio_sleep, emit.
  cbn [events value appended]. fold (restart_argv t).
  destruct (run_answer w h _ _) as [rc out err| |msg];
    cbn [andb negb value events appended]; try done.
  intros ->. done.
Qed.

(** X7.  When the rollout restart of a running StatefulSet (replica count not 0)
    fails, the attempt ends with the restart command: no readiness poll, no
    tunnel.  The one [failed] entry carries the stripped error output of
    [kubectl] (the text of the [CalledProcessError] when there is none)
    after a non-zero exit, the time-out message after a time-out, and the
    text of any other exception. *)
Theorem restart_failure_ends_attempt (service : string) (w : world) (h : list event)
    (t : target) (n : Z) :
  value (resolve service w h) = Return (Some t) →
  let h1 := h ++ events (resolve service w h) in
  value (validate t w h1) = Return tt →
  let validated :=
    Run ["kubectl"; "get"; "statefulset"; statefulset_name t; "-n"; namespace t]
        (Some 10%nat) in
  value (get_statefulset_replicas (statefulset_name t) (namespace t) w
           (h1 ++ [validated])) = Return n →
  n ≠ 0 →
  let read :=
    Run ["kubectl"; "get"; "statefulset"; statefulset_name t; "-n"; namespace t; "-o";
         "jsonpath={.spec.replicas}"] (Some 10%nat) in
  let cmd := ["kubectl"; "rollout"; "restart"; "statefulset/" +:+ statefulset_name t;
              "-n"; namespace t] in
  succeeded (run_answer w (h1 ++ [validated; read]) cmd (Some 60%nat)) = false →
  remediate service w h =
  {| events := events (resolve service w h) ++ [validated; read; Run cmd (Some 60%nat)];
     appended :=
       [ {| entry_cluster := CLUSTER_NAME w; entry_service := service;
            entry_status := "failed";
            entry_message :=
              match run_answer w (h1 ++ [validated; read]) cmd (Some 60%nat) with
              | Completed rc _ err =>
                  "Kubectl command failed: " +:+
                  (if PyStr.truthy err then PyStr.strip err
                   else CalledProcessError_str w cmd rc)
              | TimedOut => "Remediation command timed out"
              | RunError msg => "Unexpected error during remediation: " +:+ msg
              end |} ];
     value := Return tt |}.
Proof.
  intros Hr h1 Hval validated Hn Hnz read cmd Hfail.
  pose proof (through_restart_run service t w h1 Hval) as Htr. cbv zeta in Htr.
  change (Run (validate_argv t) (Some 10%nat)) with validated in Htr.
  change (Run (read_argv (statefulset_name t) (namespace t)) (Some 10%nat))
    with read in Htr.
  rewrite get_statefulset_replicas_run in Hn. cbn [value] in Hn.
  injection Hn as Hn. rewrite Hn in Htr.
  apply Z.eqb_neq in Hnz. rewrite Hnz in Htr. cbn [fst snd] in Htr.
  destruct (rollout_restart_failed service t w (h1 ++ [validated; read]) Hfail)
    as [Hev Hv].
  rewrite Hev, Hv in Htr. injection Htr as Hevt Hvt.
  rewrite (remediate_not_restarted service w h t Hr _ Hvt).
  fold h1. rewrite Hevt. change (restart_argv t) with cmd. cbn [app].
  by destruct (run_answer w (h1 ++ [validated; read]) cmd (Some 60%nat)).
Qed.

Lemma restart_failure_ends_attempt_witness :
  let answer argv :=
    if (arg 1 argv =? "rollout")%string then TimedOut else healthy_answer "3" argv in
  appended (remediate "consul" (static_world answer None) []) =
  [ {| entry_cluster := "c1"; entry_service := "consul"; entry_status := "failed";
       entry_message := "Remediation command timed out" |} ].
Proof.
  intros answer.
  exact (f_equal appended
           (restart_failure_ends_attempt "consul" (static_world answer None) []
              {| namespace := "consul"; statefulset_name := "consul-server";
                 service_name := "consul-server"; default_replicas := 3 |} 3
              eq_refl eq_refl eq_refl ltac:(discriminate) eq_refl)).
Defined.

(** ** Where a remediation can reach *)

Lemma returns_try_except {A} (P : A → Prop) (m : M A) handler :
  returns P m → (∀ e, returns P (handler e)) → returns P (try_except m handler).
Proof.
  intros Hm Hh w h a. rewrite value_try_except.
  destruct (value (m w h)) as [a'|e] eqn:Hv.
  - intros [= <-]. by apply (Hm w h).
  - apply Hh.
Qed.

Lemma returns_weaken {A} (P Q : A → Prop) (m : M A) :
  (∀ a, P a → Q a) → returns P m → returns Q m.
Proof. intros HPQ Hm w h a Hv. apply HPQ. by apply (Hm w h). Qed.

(** A location built from a candidate: its namespace and StatefulSet, and
    as service the declared one, the StatefulSet's name or a name that
    contains [elasticsearch] once lowered. *)
Definition location_of (config : string * string * string)
    (found : option (string * string * string)) : Prop :=
  ∀ location, found = Some location →
    location.1.1 = config.1.1 ∧ location.1.2 = config.1.2
    ∧ (location.2 = config.2 ∨ location.2 = config.1.2
       ∨ PyStr.contains "elasticsearch" (PyStr.lower location.2) = true).

Lemma check_config_location config : returns (location_of config) (check_config config).
Proof.
  destruct config as [[ns sts] svc]. unfold check_config.
  apply returns_try_except; [| intros _; by apply returns_ret].
  apply returns_bind. intros ns_result.
  destruct (negb _); [by apply returns_ret |].
  apply returns_bind. intros sts_result.
  destruct (returncode sts_result =? 0); [| by apply returns_ret].
  apply returns_bind. intros svc_result.
  destruct (returncode svc_result =? 0).
  { apply returns_ret. intros location [= <-]. cbn. auto. }
  apply returns_bind. intros all_svc_result.
  destruct (if returncode all_svc_result =? 0
            then first_elasticsearch_service (stdout all_svc_result)
            else None) as [service_name|] eqn:Hfirst.
  - apply returns_ret. intros location [= <-]. cbn.
    split; [done |]. split; [done |]. right. right.
    destruct (returncode all_svc_result =? 0); [| done].
    unfold first_elasticsearch_service in Hfirst.
    by destruct (find_some _ _ Hfirst) as [_ Hc].
  - apply returns_ret. intros location [= <-]. cbn. auto.
Qed.

Definition location_among (configs : list (string * string * string))
    (found : option (string * string * string)) : Prop :=
  ∀ location, found = Some location →
    ∃ config, In config configs ∧ location_of config (Some location).

Lemma scan_configs_location configs :
  returns (location_among configs) (scan_configs configs).
Proof.
  induction configs as [|config rest IH]; cbn [scan_configs].
  - by apply returns_ret.
  - intros w h found. rewrite value_bind.
    destruct (value (check_config config w h)) as [[location|]|e] eqn:Hv; [| | done].
    + intros [= <-] location' [= <-]. exists config. split; [by left |].
      exact (check_config_location config w h _ Hv).
    + intros Hrest location' ->.
      pose proof (IH w _ _ Hrest) as Hamong.
      destruct (Hamong location' eq_refl) as (config' & Hin & Hloc).
      exists config'. split; [by right | done].
Qed.

Lemma detection_attempts_location attempts :
  returns (location_among search_configs) (detection_attempts attempts).
Proof.
  induction attempts as [|attempt rest IH]; cbn [detection_attempts].
  - by apply returns_ret.
  - intros w h found. rewrite value_bind.
    destruct (value (scan_configs search_configs w h)) as [[location|]|e] eqn:Hv;
      [| | done].
    + intros [= <-]. exact (scan_configs_location search_configs w h _ Hv).
    + rewrite value_bind.
      destruct (attempt <? 2)%nat; cbn [value time_sleep emit ret];
        intros Hrest; exact (IH w _ _ Hrest).
Qed.

(** X8.  Whatever the cluster answers, and however its answers change during
    the scan, a location returned by the locator has the namespace and the
    StatefulSet of one of the six candidates; its service is the one
    declared for that candidate, or the name of the StatefulSet, or a name
    that contains [elasticsearch] in any case. *)
Theorem located_resources_are_candidates (w : world) (h : list event)
    (ns sts svc : string) :
  value (find_elasticsearch_resources w h) = Return (Some (ns, sts, svc)) →
  ∃ declared,
    In (ns, sts, declared) search_configs
    ∧ (svc = declared ∨ svc = sts
       ∨ PyStr.contains "elasticsearch" (PyStr.lower svc) = true).
Proof.
  intros Hv.
  pose proof (detection_attempts_location (seq 0 3) w h _ Hv) as Hamong.
  destruct (Hamong _ eq_refl) as ([[ns' sts'] declared] & Hin & Hloc).
  destruct (Hloc _ eq_refl) as (Hns & Hsts & Hsvc). cbn in Hns, Hsts, Hsvc.
  subst ns' sts'. by exists declared.
Qed.

Lemma located_resources_are_candidates_witness :
  ∃ declared,
    In ("elasticsearch", "elasticsearch-master", declared) search_configs
    ∧ ("Elasticsearch-Client" = declared
       ∨ "Elasticsearch-Client" = "elasticsearch-master"
       ∨ PyStr.contains "elasticsearch" (PyStr.lower "Elasticsearch-Client") = true).
Proof.
  exact (located_resources_are_candidates
           (static_world renamed_service_answer None) []
           "elasticsearch" "elasticsearch-master" "Elasticsearch-Client" eq_refl).
Defined.

Lemma returns_bind_after {A B} (Q : A → Prop) (P : B → Prop) (m : M A) (f : A → M B) :
  returns Q m → (∀ a, Q a → returns P (f a)) → returns P (bind m f).
Proof.
  intros Hm Hf w h b. rewrite value_bind.
  destruct (value (m w h)) as [a|e] eqn:Hv; [| done].
  apply Hf. by apply (Hm w h).
Qed.

(** The namespaces and StatefulSets [remediate] knows of. *)
Definition known_workloads : list (string * string) :=
  [ ("vault", "vault"); ("consul", "consul-server");
    ("elasticsearch", "elasticsearch-master"); ("elasticsearch", "elasticsearch");
    ("default", "elasticsearch"); ("logging", "elasticsearch") ].

Lemma try_common_patterns_location patterns :
  returns (λ found, ∀ ns sts svc, found = Some (ns, sts, svc) →
                      In (ns, sts) patterns ∧ svc = sts)
          (try_common_patterns patterns).
Proof.
  induction patterns as [|[ns sts] rest IH]; cbn [try_common_patterns].
  - by apply returns_ret.
  - apply returns_bind. intros [|].
    + apply returns_ret. intros ns' sts' svc' [= <- <- <-]. split; [by left | done].
    + eapply returns_weaken; [| exact IH].
      intros found Hfound ns' sts' svc' Hs.
      destruct (Hfound ns' sts' svc' Hs) as [Hin Heq]. split; [by right | done].
Qed.

Lemma search_configs_known ns sts declared :
  In (ns, sts, declared) search_configs → In (ns, sts) known_workloads.
Proof.
  cbn. intros [H|[H|[H|[H|[H|[H|[]]]]]]]; injection H as <- <- <-; auto 10.
Qed.

Lemma common_patterns_known ns sts :
  In (ns, sts) common_patterns → In (ns, sts) known_workloads.
Proof. cbn. intros [H|[H|[H|[]]]]; injection H as <- <-; auto 10. Qed.

Lemma resolve_elasticsearch_workload :
  returns (λ t, In (namespace t, statefulset_name t) known_workloads)
          resolve_elasticsearch.
Proof.
  unfold resolve_elasticsearch. apply returns_bind. intros _.
  apply (returns_bind_after (location_among search_configs));
    [apply detection_attempts_location |].
  intros [[[ns sts] svc]|] Hfound.
  - apply returns_ret. cbn [namespace statefulset_name].
    destruct (Hfound _ eq_refl) as ([[ns' sts'] declared] & Hin & Hloc).
    destruct (Hloc _ eq_refl) as (Hns & Hsts & _). cbn in Hns, Hsts. subst ns' sts'.
    by apply (search_configs_known ns sts declared).
  - eapply returns_bind_after; [apply try_common_patterns_location |].
    intros [[[ns sts] svc]|] Hfallback; [| apply returns_raise].
    apply returns_ret. cbn [namespace statefulset_name].
    destruct (Hfallback ns sts svc eq_refl) as [Hin _].
    by apply common_patterns_known.
Qed.

(** X10.  Whatever the cluster answers, a service is resolved to one of six
    workloads: vault in vault, consul-server in consul, and for
    elasticsearch a StatefulSet named elasticsearch-master or elasticsearch
    in the namespace elasticsearch, default or logging. *)
Theorem resolved_workload_is_known (service : string) (w : world) (h : list event)
    (t : target) :
  value (resolve service w h) = Return (Some t) →
  In (namespace t, statefulset_name t)
     [ ("vault", "vault"); ("consul", "consul-server");
       ("elasticsearch", "elasticsearch-master"); ("elasticsearch", "elasticsearch");
       ("default", "elasticsearch"); ("logging", "elasticsearch") ].
Proof.
  unfold resolve.
  destruct (service =? "vault")%string; [intros [= <-]; cbn; auto |].
  destruct (service =? "consul")%string; [intros [= <-]; cbn; auto |].
  destruct (service =? "elasticsearch")%string; [| done].
  rewrite value_bind.
  destruct (value (resolve_elasticsearch w h)) as [t'|e] eqn:Hv; [| done].
  intros [= <-]. exact (resolve_elasticsearch_workload w h t' Hv).
Qed.

Lemma resolved_workload_is_known_witness :
  In ("consul", "consul-server")
     [ ("vault", "vault"); ("consul", "consul-server");
       ("elasticsearch", "elasticsearch-master"); ("elasticsearch", "elasticsearch");
       ("default", "elasticsearch"); ("logging", "elasticsearch") ].
Proof.
  exact (resolved_workload_is_known "consul" (static_world empty_answer None) []
           {| namespace := "consul"; statefulset_name := "consul-server";
              service_name := "consul-server"; default_replicas := 3 |} eq_refl).
Defined.

(** What the stages up to the restart run: look-ups, pauses, the scale-up
    of the target to its default and the restart of the target. *)
Definition acts_on (t : target) (e : event) : Prop :=
  read_only_event e
  ∨ e = Run (scale_argv (statefulset_name t) (namespace t) (default_replicas t))
            (Some 30%nat)
  ∨ e = Run (restart_argv t) (Some 60%nat).

Lemma confined_through_restart_target service t :
  confined (acts_on t) (through_restart service t).
Proof.
  unfold through_restart.
  apply confined_bind.
  { eapply confined_weaken; [| apply confined_validate]. intros e He. by left. }
  intros _. apply confined_bind.
  { eapply confined_weaken; [| apply confined_get_statefulset_replicas].
    intros e He. by left. }
  intros n. apply confined_bind.
  { unfold rescale_if_zero, scale_statefulset, asyncio_sleep.
    confine; first [by left | by (right; left)]. }
  intros _. apply confined_bind; [| intros _; confine].
  unfold rollout_restart, asyncio_sleep. confine; first [by left | by (right; right)].
Qed.

Lemma events_remediate service w h :
  events (remediate service w h) = events (remediate_try service w h).
Proof.
  destruct (value (remediate_try service w h)) as [[]|e] eqn:Hv.
  - by rewrite (remediate_Return service w h Hv).
  - by rewrite (remediate_Raise service w h e Hv).
Qed.

(** The names of a resolved target are not empty, so the tunnel is opened
    on the target and not on the configured service. *)
Lemma search_configs_named ns sts declared :
  In (ns, sts, declared) search_configs →
  PyStr.truthy ns = true ∧ PyStr.truthy sts = true ∧ PyStr.truthy declared = true.
Proof.
  cbn. intros [H|[H|[H|[H|[H|[H|[]]]]]]]; injection H as <- <- <-; done.
Qed.

Lemma resolve_elasticsearch_named :
  returns (λ t, PyStr.truthy (namespace t) = true
                ∧ PyStr.truthy (service_name t) = true)
          resolve_elasticsearch.
Proof.
  unfold resolve_elasticsearch. apply returns_bind. intros _.
  apply (returns_bind_after (location_among search_configs));
    [apply detection_attempts_location |].
  intros [[[ns sts] svc]|] Hfound.
  - apply returns_ret. cbn [namespace service_name].
    destruct (Hfound _ eq_refl) as ([[ns' sts'] declared] & Hin & Hloc).
    destruct (Hloc _ eq_refl) as (Hns & Hsts & Hsvc). cbn in Hns, Hsts, Hsvc.
    subst ns' sts'.
    destruct (search_configs_named ns sts declared Hin) as (Hn & Hs & Hd).
    split; [done |]. destruct Hsvc as [-> | [-> | Hc]]; [done | done |].
    by destruct svc.
  - eapply returns_bind_after; [apply try_common_patterns_location |].
    intros [[[ns sts] svc]|] Hfallback; [| apply returns_raise].
    apply returns_ret. cbn [namespace service_name].
    destruct (Hfallback ns sts svc eq_refl) as [Hin ->].
    cbn in Hin. destruct Hin as [H|[H|[H|[]]]]; injection H as <- <-; done.
Qed.

Lemma resolve_named service w h t :
  value (resolve service w h) = Return (Some t) →
  PyStr.truthy (namespace t) = true ∧ PyStr.truthy (service_name t) = true.
Proof.
  unfold resolve.
  destruct (service =? "vault")%string; [by intros [= <-] |].
  destruct (service =? "consul")%string; [by intros [= <-] |].
  destruct (service =? "elasticsearch")%string; [| done].
  rewrite value_bind.
  destruct (value (resolve_elasticsearch w h)) as [t'|e] eqn:Hv; [| done].
  intros [= <-]. exact (resolve_elasticsearch_named w h t' Hv).
Qed.

(** The steps of the tunnel for a target: the old tunnel is killed by the
    pattern of the port, the log of the service is opened, and the new
    tunnel forwards the port to the service of the target. *)
Definition tunnel_step (service : string) (t : target) (config : PortForward)
    (e : event) : Prop :=
  let port := PyStr.of_Z (pf_port config) in
  e = Run ["pkill"; "-f"; "kubectl port-forward.*" +:+ port] None
  ∨ e = TimeSleep 2
  ∨ e = Open (service +:+ ".log")
  ∨ e = Popen ["kubectl"; "port-forward"; "svc/" +:+ service_name t;
               port +:+ ":" +:+ port; "-n"; namespace t]
  ∨ e = TimeSleep 3
  ∨ e = Poll.

Lemma kill_port_forward_steps service t config w h :
  PORT_FORWARDS service = Some config →
  Forall (tunnel_step service t config) (events (kill_port_forward service w h)).
Proof.
  intros Hc. unfold kill_port_forward, PORT_FORWARDS_getitem. rewrite Hc.
  unfold try_except, bind, raise, ret, subprocess_run, time_sleep, emit;
    cbn [events value appended andb app].
  rewrite !app_nil_r.
  destruct (run_answer w h _ None) as [rc out err| |msg];
    cbn [events value appended andb app];
    repeat first [apply List.Forall_cons | apply List.Forall_nil];
    unfold tunnel_step; cbv zeta; auto 10.
Qed.

Lemma start_port_forward_events service namespace svc_name config w h :
  PORT_FORWARDS service = Some config →
  events (start_port_forward service namespace svc_name w h)
  = events (tunnel_steps service (tunnel_target namespace svc_name config) w h).
Proof.
  intros Hc. rewrite start_port_forward_steps.
  pose proof (tunnel_names_run service namespace svc_name config w h Hc) as Hnames.
  rewrite events_try_except, value_bind, events_bind, Hnames.
  cbn [events value app]. rewrite app_nil_r.
  destruct (value (tunnel_steps service _ w h)); by rewrite app_nil_r.
Qed.

Lemma tunnel_events service t config w h :
  PORT_FORWARDS service = Some config →
  PyStr.truthy (namespace t) = true →
  PyStr.truthy (service_name t) = true →
  Forall (tunnel_step service t config)
    (events (start_port_forward service (Some (namespace t)) (Some (service_name t))
               w h)).
Proof.
  intros Hc Hns Hname. rewrite (start_port_forward_events _ _ _ config) by done.
  unfold tunnel_target. rewrite Hns, Hname. cbn [andb].
  destruct (tunnel_steps_run service (namespace t) (service_name t) config w h Hc)
    as (-> & _ & _).
  apply Forall_app. split; [by apply kill_port_forward_steps |].
  destruct (open_answer w _ _); [| destruct (popen_answer w _ _)];
    repeat first [apply List.Forall_cons | apply List.Forall_nil];
    unfold tunnel_step; cbv zeta; auto 10.
Qed.

(** What a remediation may run: a look-up, a pause, or one of six commands
    on the target it resolved. *)
Definition remediation_step (service : string) (w : world) (h : list event)
    (e : event) : Prop :=
  (∃ argv timeout, e = Run argv (Some timeout) ∧ is_kubectl "get" argv = true)
  ∨ (∃ seconds, e = TimeSleep seconds ∨ e = AsyncioSleep seconds)
  ∨ ∃ t config,
      value (resolve service w h) = Return (Some t)
      ∧ PORT_FORWARDS service = Some config
      ∧ let port := PyStr.of_Z (pf_port config) in
        (e = Run ["kubectl"; "scale"; "statefulset"; statefulset_name t; "-n";
                  namespace t;
                  "--replicas=" +:+
                  PyStr.of_Z (if (service =? "vault")%string then 1 else 3)]
                 (Some 30%nat)
         ∨ e = Run ["kubectl"; "rollout"; "restart";
                    "statefulset/" +:+ statefulset_name t; "-n"; namespace t]
                   (Some 60%nat)
         ∨ e = Run ["pkill"; "-f"; "kubectl port-forward.*" +:+ port] None
         ∨ e = Open (service +:+ ".log")
         ∨ e = Popen ["kubectl"; "port-forward"; "svc/" +:+ service_name t;
                      port +:+ ":" +:+ port; "-n"; namespace t]
         ∨ e = Poll).

Lemma read_only_step service w h e : read_only_event e → remediation_step service w h e.
Proof.
  destruct e as [argv [timeout|]|path|argv| |seconds|seconds]; cbn [read_only_event];
    try done; intros He.
  - left. eauto.
  - right. left. eauto.
  - right. left. eauto.
Qed.

Lemma events_remediate_steps service w h :
  Forall (remediation_step service w h) (events (remediate service w h)).
Proof.
  rewrite events_remediate.
  pose proof (remediate_try_run service w h) as Htry.
  assert (Hres : Forall (remediation_step service w h) (events (resolve service w h))).
  { eapply Forall_impl; [apply (events_confined _ _ w h (confined_resolve service)) |].
    apply read_only_step. }
  destruct (value (resolve service w h)) as [[t|]|e] eqn:Hv.
  - cbv zeta in Htry. rewrite Htry. cbn [events].
    apply Forall_app. split; [exact Hres |].
    destruct (supported_PORT_FORWARDS service (resolve_Some service w h t Hv))
      as [config Hc].
    destruct (resolve_named service w h t Hv) as [Hns Hname].
    set (h1 := h ++ events (resolve service w h)).
    pose proof (remediate_resolved_run service t w h1 config Hc) as Hrun.
    pose proof (resolve_default_replicas service w h _ Hv t eq_refl) as Hd.
    assert (Hstage : Forall (remediation_step service w h)
                       (events (through_restart service t w h1))).
    { eapply Forall_impl;
        [apply (events_confined _ _ w h1 (confined_through_restart_target service t)) |].
      intros e [He|[->| ->]]; [by apply read_only_step |..];
        right; right; exists t, config; rewrite Hv;
        (split; [done |]); (split; [done |]); cbv zeta.
      - left. unfold scale_argv. by rewrite Hd.
      - right. by left. }
    destruct (value (through_restart service t w h1)) as [n|e] eqn:Hvt.
    + cbv zeta in Hrun. destruct Hrun as (started & _ & ->). cbn [events].
      rewrite !Forall_app. split; [exact Hstage |]. split.
      * eapply Forall_impl;
          [apply (events_confined _ _ w _ (confined_await_ready t (seq 0 6))) |].
        apply read_only_step.
      * eapply Forall_impl; [apply (tunnel_events _ _ _ w _ Hc Hns Hname) |].
        intros e He. unfold tunnel_step in He. cbv zeta in He.
        destruct He as [->|[->|[->|[->|[->| ->]]]]];
          try (right; left; eauto; fail);
          right; right; exists t, config; rewrite Hv;
          (split; [done |]); (split; [done |]); cbv zeta; auto 10.
    + rewrite Hrun. exact Hstage.
  - rewrite Htry. constructor.
  - rewrite Htry. exact Hres.
Qed.

(** X11.  Every event of a remediation is a look-up ([kubectl get] with a
    timeout), a pause, or one of six commands on the target it resolved:
    the scale-up of its StatefulSet to the default replica count (1 for
    vault, 3 otherwise), the rollout restart of its StatefulSet, [pkill] on
    the port-forward pattern of the port of the service, opening the log
    file of the service, [kubectl port-forward] to the service of the target
    in its namespace, and the poll of that process.  In particular
    remediation runs no other command: it never deletes, never scales to
    another count, and never changes a workload other than the one it
    resolved. *)
Theorem remediate_changes_only_its_target (service : string) (w : world)
    (h : list event) :
  Forall
    (λ e,
       (∃ argv timeout, e = Run argv (Some timeout) ∧ is_kubectl "get" argv = true)
       ∨ (∃ seconds, e = TimeSleep seconds ∨ e = AsyncioSleep seconds)
       ∨ ∃ t config,
           value (resolve service w h) = Return (Some t)
           ∧ PORT_FORWARDS service = Some config
           ∧ let port := PyStr.of_Z (pf_port config) in
             (e = Run ["kubectl"; "scale"; "statefulset"; statefulset_name t; "-n";
                       namespace t;
                       "--replicas=" +:+
                       PyStr.of_Z (if (service =? "vault")%string then 1 else 3)]
                      (Some 30%nat)
              ∨ e = Run ["kubectl"; "rollout"; "restart";
                         "statefulset/" +:+ statefulset_name t; "-n"; namespace t]
                        (Some 60%nat)
              ∨ e = Run ["pkill"; "-f"; "kubectl port-forward.*" +:+ port] None
              ∨ e = Open (service +:+ ".log")
              ∨ e = Popen ["kubectl"; "port-forward"; "svc/" +:+ service_name t;
                           port +:+ ":" +:+ port; "-n"; namespace t]
              ∨ e = Poll))
    (events (remediate service w h)).
Proof. exact (events_remediate_steps service w h). Qed.


(** * Further properties of the registry *)

(** X13.  A report without [cluster], or with [cluster] but without [service],
    raises [KeyError] for the first missing key and leaves the registry as
    it was. *)
Theorem receive_report_missing_key (report : Report) (h : gmap loc object) :
  report_key report = None →
  receive_report report h =
  (h, Raise (Exception match report_cluster report with
                       | None => "'cluster'"
                       | Some _ => "'service'"
                       end)).
Proof.
  unfold report_key, receive_report.
  destruct (report_cluster report) as [cluster|]; [| done].
  destruct (report_service report) as [service|]; done.
Qed.

Lemma receive_report_missing_key_witness :
  receive_report
    {| report_cluster := Some "c1"; report_service := None;
       report_healthy := Some true; report_details := None;
       report_consul_host := None |} initial_heap
  = (initial_heap, Raise (Exception "'service'")).
Proof.
  exact (receive_report_missing_key
           {| report_cluster := Some "c1"; report_service := None;
              report_healthy := Some true; report_details := None;
              report_consul_host := None |} initial_heap eq_refl).
Defined.

(** X14.  A report with both keys is acknowledged with the key
    [cluster-service], and the record read back under that key holds the
    fields of the report, with [False], the empty string and [N/A] for the
    fields the report leaves out. *)
Theorem receive_report_reads_back (report : Report) (h : gmap loc object)
    (d : gmap string HealthRecord) (cluster service : string) :
  dict_at status_ref h = Some d →
  report_cluster report = Some cluster →
  report_service report = Some service →
  let key := cluster +:+ "-" +:+ service in
  snd (receive_report report h) = Return ("Report received", key)
  ∧ ∃ d', dict_at status_ref (fst (receive_report report h)) = Some d'
          ∧ d' !! key =
            Some {| healthy := match report_healthy report with
                               | Some b => b
                               | None => false
                               end;
                    details := match report_details report with
                               | Some text => text
                               | None => ""
                               end;
                    consul_host := match report_consul_host report with
                                   | Some host => host
                                   | None => "N/A"
                                   end |}.
Proof.
  intros Hd Hc Hs key. unfold receive_report. rewrite Hc, Hs. cbn [fst snd].
  split; [done |]. eexists. split; [by apply dict_at_setitem |].
  rewrite lookup_insert_eq. unfold report_record.
  by destruct (report_healthy report), (report_details report),
    (report_consul_host report).
Qed.

Lemma receive_report_reads_back_witness :
  ∃ d', dict_at status_ref (fst (receive_report vault_report initial_heap)) = Some d'
        ∧ d' !! "c1-vault" =
          Some {| healthy := false; details := "status 500"; consul_host := "N/A" |}.
Proof.
  exact (proj2 (receive_report_reads_back vault_report initial_heap ∅ "c1" "vault"
                  eq_refl eq_refl eq_refl)).
Defined.

Lemma dict_setitem_twice l key1 record1 key2 record2 h :
  dict_setitem l key2 record2 (dict_setitem l key1 record1 h) =
  match h !! l with
  | Some (DictObject d) =>
      <[l := DictObject (<[key2 := record2]> (<[key1 := record1]> d))]> h
  | _ => h
  end.
Proof.
  unfold dict_setitem. destruct (h !! l) as [[d|items]|] eqn:Hl; rewrite ?Hl; try done.
  by rewrite lookup_insert_eq, insert_insert_eq.
Qed.

(** X15.  Receiving the same report twice leaves the registry as receiving it
    once. *)
Theorem receive_report_idempotent (report : Report) (h : gmap loc object) :
  fst (receive_report report (fst (receive_report report h)))
  = fst (receive_report report h).
Proof.
  unfold receive_report.
  destruct (report_cluster report) as [cluster|]; [| done].
  destruct (report_service report) as [service|]; [| done].
  cbn [fst]. rewrite dict_setitem_twice. unfold dict_setitem.
  destruct (h !! status_ref) as [[d|items]|]; try done.
  by rewrite insert_insert_eq.
Qed.

(** X16.  Reports stored under different keys can be received in either order:
    the registry ends up the same. *)
Theorem receive_report_commutes (report1 report2 : Report) (h : gmap loc object) :
  report_key report1 ≠ report_key report2 →
  receive_reports [report1; report2] h = receive_reports [report2; report1] h.
Proof.
  unfold receive_reports, report_key, receive_report. cbn [fold_left].
  destruct (report_cluster report1) as [cluster1|],
    (report_service report1) as [service1|],
    (report_cluster report2) as [cluster2|],
    (report_service report2) as [service2|]; cbn [fst]; try done.
  intros Hne. rewrite !dict_setitem_twice.
  destruct (h !! status_ref) as [[d|items]|]; try done.
  rewrite (insert_insert_ne d); [done | congruence].
Qed.

Lemma receive_report_commutes_witness :
  receive_reports
    [vault_report;
     {| report_cluster := Some "c1"; report_service := Some "consul";
        report_healthy := Some true; report_details := None;
        report_consul_host := None |}] initial_heap
  = receive_reports
      [{| report_cluster := Some "c1"; report_service := Some "consul";
          report_healthy := Some true; report_details := None;
          report_consul_host := None |};
       vault_report] initial_heap.
Proof.
  apply (receive_report_commutes vault_report
           {| report_cluster := Some "c1"; report_service := Some "consul";
              report_healthy := Some true; report_details := None;
              report_consul_host := None |} initial_heap).
  discriminate.
Defined.

(** X17.  The key does not tell where the cluster ends and the service begins:
    a report for cluster [a-b] and service [c] and a report for cluster [a]
    and service [b-c] share their key, and the later of the two replaces
    the record of the earlier. *)
Theorem report_keys_collide (report1 report2 : Report) (a b c : string)
    (h : gmap loc object) :
  report_cluster report1 = Some (a +:+ "-" +:+ b) →
  report_service report1 = Some c →
  report_cluster report2 = Some a →
  report_service report2 = Some (b +:+ "-" +:+ c) →
  report_key report1 = report_key report2
  ∧ receive_reports [report1; report2] h = receive_reports [report2] h.
Proof.
  intros Hc1 Hs1 Hc2 Hs2.
  assert (Hkey : (a +:+ "-" +:+ b) +:+ "-" +:+ c = a +:+ "-" +:+ b +:+ "-" +:+ c).
  { rewrite append_assoc. reflexivity. }
  unfold report_key, receive_reports, receive_report. cbn [fold_left].
  rewrite Hc1, Hs1, Hc2, Hs2. cbn [fst]. rewrite Hkey. split; [done |].
  rewrite dict_setitem_twice. unfold dict_setitem.
  destruct (h !! status_ref) as [[d|items]|]; try done.
  by rewrite insert_insert_eq.
Qed.

Lemma report_keys_collide_witness :
  let report1 := {| report_cluster := Some "eu-west"; report_service := Some "vault";
                    report_healthy := Some true; report_details := None;
                    report_consul_host := None |} in
  let report2 := {| report_cluster := Some "eu"; report_service := Some "west-vault";
                    report_healthy := Some false; report_details := None;
                    report_consul_host := None |} in
  report_key report1 = report_key report2
  ∧ receive_reports [report1; report2] initial_heap
    = receive_reports [report2] initial_heap.
Proof.
  intros report1 report2.
  exact (report_keys_collide report1 report2 "eu" "west" "vault" initial_heap
           eq_refl eq_refl eq_refl eq_refl).
Defined.

(** [health()]: the status text and [len(status)]. *)
Definition health (h : gmap loc object) : string * nat :=
  ("healthy", size (default ∅ (dict_at status_ref h))).

Lemma receive_reports_cons report reports h :
  receive_reports (report :: reports) h
  = receive_reports reports (fst (receive_report report h)).
Proof. reflexivity. Qed.

Lemma receive_reports_keys reports : ∀ h (d : gmap string HealthRecord),
  dict_at status_ref h = Some d →
  ∃ d', dict_at status_ref (receive_reports reports h) = Some d'
        ∧ dom d' = dom d ∪ list_to_set (omap report_key reports).
Proof.
  induction reports as [|report rest IH]; intros h d Hd.
  - exists d. split; [done |]. cbn [omap list_omap list_to_set].
    by rewrite (right_id_L ∅ (∪)).
  - rewrite receive_reports_cons.
    pose proof (receive_report_status report h d Hd) as H1.
    destruct (IH _ _ H1) as (d' & Hd' & Hdom).
    exists d'. split; [exact Hd' |]. rewrite Hdom. cbn [omap list_omap].
    destruct (report_key report) as [key|]; [| done].
    rewrite dom_insert_L, list_to_set_cons.
    by rewrite (assoc_L (∪)), (comm_L (∪) (dom d)).
Qed.

(** X18.  The keys of the registry after a sequence of reports are the keys it
    had before and the keys of the reports that were stored: no key is ever
    removed, so the number of monitored services that [health] returns never
    decreases, and it is the total the status query returns. *)
Theorem registry_keys_only_grow (reports : list Report) (w : world)
    (h : gmap loc object) (d : gmap string HealthRecord) :
  dict_at status_ref h = Some d →
  let h' := receive_reports reports h in
  (∃ d', dict_at status_ref h' = Some d'
         ∧ dom d' = dom d ∪ list_to_set (omap report_key reports))
  ∧ (snd (health h) ≤ snd (health h'))%nat
  ∧ snd (health h') = total_services (get_status w h').
Proof.
  intros Hd h'.
  destruct (receive_reports_keys reports h d Hd) as (d' & Hd' & Hdom).
  split; [by exists d' |]. split; [| done].
  unfold health, h'. rewrite Hd, Hd'. cbn [snd default].
  rewrite <- (size_dom (D:=gset string) d), <- (size_dom (D:=gset string) d'), Hdom.
  apply subseteq_size. apply union_subseteq_l.
Qed.

Lemma registry_keys_only_grow_witness :
  (snd (health initial_heap)
   ≤ snd (health (receive_reports [vault_report] initial_heap)))%nat.
Proof.
  exact (proj1 (proj2 (registry_keys_only_grow [vault_report]
                         (static_world empty_answer None) initial_heap ∅ eq_refl))).
Defined.

(** * The remediation trigger *)

(** [remediate_service(service, background_tasks)]: the tasks of the
    request afterwards, each a call of [remediate] given by its argument,
    and the response. *)
Definition remediate_service (service : string) (background_tasks : list string)
    : list string * (string * string) :=
  (background_tasks ++ [service], ("Remediation started for " +:+ service, service)).

(** The background tasks of a request run in the order they were added. *)
Fixpoint run_background_tasks (tasks : list string) : M unit :=
  match tasks with
  | [] => ret tt
  | service :: rest => remediate service;; run_background_tasks rest
  end.

(** A request to the trigger, served to the end: the handler is called
    with the empty task list of the request, and the tasks run once the
    response is made. *)
Definition post_remediate (service : string) : M (string * string) :=
  let '(tasks, response) := remediate_service service [] in
  run_background_tasks tasks;; ret response.

(** Requests served one after the other. *)
Fixpoint post_remediate_all (services : list string) : M (list (string * string)) :=
  match services with
  | [] => ret []
  | service :: rest =>
      response <- post_remediate service;;
      responses <- post_remediate_all rest;;
      ret (response :: responses)
  end.

(** One remediation: no exception, one entry, for the service. *)
Lemma remediate_entry service w h :
  ∃ entry,
    value (remediate service w h) = Return tt
    ∧ appended (remediate service w h) = [entry]
    ∧ entry_service entry = service
    ∧ entry_cluster entry = CLUSTER_NAME w
    ∧ (entry_status entry = "success" ∨ entry_status entry = "failed").
Proof.
  pose proof (remediate_try_outcome service w h) as Hout.
  destruct (value (remediate_try service w h)) as [[]|e] eqn:Hv.
  - rewrite (remediate_Return service w h Hv). destruct Hout as [msg ->].
    eexists. repeat split; try done. cbn. destruct (supported service); auto.
  - rewrite (remediate_Raise service w h e Hv), Hout. cbn [value appended app].
    eexists. repeat split; try done. by right.
Qed.

Lemma post_remediate_run service w h :
  ∃ entry,
    value (post_remediate service w h)
    = Return ("Remediation started for " +:+ service, service)
    ∧ appended (post_remediate service w h) = [entry]
    ∧ entry_service entry = service
    ∧ entry_cluster entry = CLUSTER_NAME w
    ∧ (entry_status entry = "success" ∨ entry_status entry = "failed").
Proof.
  destruct (remediate_entry service w h) as (entry & Hv & Ha & Hrest).
  exists entry. unfold post_remediate, remediate_service. cbn [app run_background_tasks].
  rewrite value_bind, appended_bind, value_bind, appended_bind, Hv, Ha.
  cbn [value appended ret app]. done.
Qed.

(** X19.  Requests to the trigger that are served one after the other are each
    acknowledged with the same "started" response, however the remediation
    ends, and the remediation history gains exactly one entry per request,
    in the order of the requests, each for the requested service and
    with status [success] or [failed]. *)
Theorem triggers_log_in_order (services : list string) (w : world) (h : list event) :
  value (post_remediate_all services w h)
  = Return (map (λ service, ("Remediation started for " +:+ service, service)) services)
  ∧ map entry_service (appended (post_remediate_all services w h)) = services
  ∧ Forall (λ entry, entry_cluster entry = CLUSTER_NAME w
                     ∧ (entry_status entry = "success"
                        ∨ entry_status entry = "failed"))
           (appended (post_remediate_all services w h)).
Proof.
  revert h. induction services as [|service rest IH]; intros h.
  - cbn. split; [done |]. split; [done | constructor].
  - cbn [post_remediate_all map].
    destruct (post_remediate_run service w h) as (entry & Hv & Ha & Hs & Hc & Hst).
    rewrite value_bind, appended_bind, Hv, Ha.
    rewrite value_bind, appended_bind.
    destruct (IH (h ++ events (post_remediate service w h))) as (Hv' & Hs' & Hall).
    rewrite Hv'. cbn [value appended ret app]. rewrite app_nil_r.
    split; [done |]. split; [cbn [map]; by rewrite Hs, Hs' |].
    constructor; [done | exact Hall].
Qed.


(** * The health agents (agent.py, main.py)

    The agents probe the three services over HTTP and post what they find
    to the server.  A [net] answers their requests; what they request is
    collected in a trace, as for the server.  Nothing an agent calls can
    raise past its [try] blocks, so the [except] clauses are the cases of a
    match on how the request ended. *)

Module Net.

(** The parts of a response the agents read.  [json] is what
    [resp.json()] and the [get] calls on it give: the text of the exception
    when the body is no JSON object, else the values under [status] and
    [cluster_name], as [str] shows them, where present. *)
Record Response : Type := {
  status_code : Z;
  text : string;
  json : string + (option string * option string)
}.

(** How a [requests.get] ends.  The connection error comes first among the
    [except] clauses, so an error that is both a connection error and a
    time-out counts as a connection error. *)
Inductive get_result : Type :=
| Responded (resp : Response)
| ConnectionError
| Timeout
| GetError (msg : string).

Inductive net_event : Type :=
| Get (url : string) (timeout : nat)
| Post (url : string) (payload : Report) (timeout : nat)
| Sleep (seconds : Z).

(** [post_answer] tells whether [requests.post] raises, and
    [sleep_answer] whether the platform refuses to wait for an interval
    that [time.sleep] passes on to it ([OSError]). *)
Record net : Type := {
  get_answer : list net_event → string → get_result;
  post_answer : list net_event → string → Report → option string;
  sleep_answer : list net_event → Z → option string
}.

(** A computation of an agent: the requests it makes, and its value. *)
Definition N (A : Type) : Type := net → list net_event → list net_event * A.

Definition ret {A} (a : A) : N A := λ _ _, ([], a).

Definition bind {A B} (m : N A) (f : A → N B) : N B :=
  λ n h, let '(evs, a) := m n h in
         let '(evs', b) := f a n (h ++ evs) in
         (evs ++ evs', b).

(** [requests.get(url, timeout=...)] *)
Definition requests_get (url : string) (timeout : nat) : N get_result :=
  λ n h, ([Get url timeout], get_answer n h url).

(** [requests.post(url, json=payload, timeout=...)] *)
Definition requests_post (url : string) (payload : Report) (timeout : nat)
    : N (option string) :=
  λ n h, ([Post url payload timeout], post_answer n h url payload).

(** The longest interval, in seconds, whose nanoseconds fit the signed 64
    bits in which CPython keeps a time. *)
Definition PyTime_max_seconds : Z := 9223372036.

(** [time.sleep(seconds)] for an integer; [Some] is the exception it
    raises without having slept: [OverflowError] when the nanoseconds do not
    fit, [ValueError] for a negative interval, and what the platform
    answers otherwise. *)
Definition time_sleep (seconds : Z) : N (option string) :=
  λ n h,
    if (seconds <? - PyTime_max_seconds) || (PyTime_max_seconds <? seconds)
    then ([], Some "timestamp too large to convert to C _PyTime_t")
    else if seconds <? 0 then ([], Some "sleep length must be non-negative")
    else match sleep_answer n h seconds with
         | None => ([Sleep seconds], None)
         | Some msg => ([], Some msg)
         end.

(** The payloads posted in a trace, in order. *)
Definition posted (evs : list net_event) : list Report :=
  omap (λ e, match e with Post _ payload _ => Some payload | _ => None end) evs.

End Net.

Notation "x <-- m ;; k" := (Net.bind m (λ x, k))
  (at level 100, m at next level, k at level 200, right associativity) : py_scope.

Definition MCP_SERVER_URL : string := "http://localhost:7070".

(** The double quote. *)
Definition quote : string := String "034"%char EmptyString.

(** ** agent.py *)

Module Agent.

Definition ES_ENDPOINT : string := "http://localhost:9200/_cluster/health".

Definition send_report (cluster service : string) (healthy : bool)
    (details consul_host : string) : Net.N unit :=
  let payload :=
    {| report_cluster := Some cluster; report_service := Some service;
       report_healthy := Some healthy; report_details := Some details;
       report_consul_host := Some consul_host |} in
  outcome <-- Net.requests_post (MCP_SERVER_URL +:+ "/report") payload 3;;
  Net.ret tt.

Definition check_vault : Net.N (bool * string) :=
  answer <-- Net.requests_get "http://localhost:8200/v1/sys/health" 5;;
  match answer with
  | Net.Responded resp =>
      if Net.status_code resp =? 200
      then Net.ret (true, "Vault is responding normally")
      else Net.ret (false, "Vault returned status code "
                           +:+ PyStr.of_Z (Net.status_code resp))
  | Net.ConnectionError => Net.ret (false, "Connection refused - Vault may be down")
  | Net.Timeout => Net.ret (false, "Request timeout - Vault may be slow")
  | Net.GetError msg => Net.ret (false, "Vault check error: " +:+ msg)
  end.

Definition check_consul : Net.N (bool * string) :=
  answer <-- Net.requests_get "http://localhost:8500/v1/status/leader" 5;;
  match answer with
  | Net.Responded resp =>
      if (Net.status_code resp =? 200) && PyStr.truthy (PyStr.strip (Net.text resp))
      then
        let leader := PyStr.remove quote (PyStr.strip (Net.text resp)) in
        Net.ret (true, "Consul leader: " +:+ leader)
      else Net.ret (false, "No Consul leader found")
  | Net.ConnectionError => Net.ret (false, "Connection refused - Consul may be down")
  | Net.Timeout => Net.ret (false, "Request timeout - Consul may be slow")
  | Net.GetError msg => Net.ret (false, "Consul check error: " +:+ msg)
  end.

Definition check_elasticsearch : Net.N (bool * string) :=
  answer <-- Net.requests_get ES_ENDPOINT 5;;
  match answer with
  | Net.Responded resp =>
      if Net.status_code resp =? 200 then
        match Net.json resp with
        | inl msg => Net.ret (false, "Elasticsearch check error: " +:+ msg)
        | inr (status_value, name_value) =>
            let status := default "unknown" status_value in
            let cluster_name := default "unknown" name_value in
            if (status =? "green")%string then
              Net.ret (true, "Elasticsearch cluster '" +:+ cluster_name
                             +:+ "' is green")
            else if (status =? "yellow")%string then
              Net.ret (false, "Elasticsearch cluster '" +:+ cluster_name
                              +:+ "' is yellow (degraded)")
            else
              Net.ret (false, "Elasticsearch cluster '" +:+ cluster_name
                              +:+ "' is " +:+ status)
        end
      else Net.ret (false, "Elasticsearch returned status code "
                           +:+ PyStr.of_Z (Net.status_code resp))
  | Net.ConnectionError =>
      Net.ret (false, "Connection refused - Elasticsearch may be down")
  | Net.Timeout => Net.ret (false, "Request timeout - Elasticsearch may be slow")
  | Net.GetError msg => Net.ret (false, "Elasticsearch check error: " +:+ msg)
  end.

(** One round of the loop of [main].  The probes and [send_report] catch
    their exceptions; when [time.sleep] raises, the loop catches that and
    sleeps five seconds instead.  [Some] is an exception raised by that
    last sleep, which leaves the loop. *)
Definition main_round (CLUSTER_NAME : string) (CHECK_INTERVAL : Z)
    : Net.N (option string) :=
  vault <-- check_vault;;
  _ <-- send_report CLUSTER_NAME "vault" (fst vault) (snd vault) "localhost:8200";;
  consul <-- check_consul;;
  _ <-- send_report CLUSTER_NAME "consul" (fst consul) (snd consul) "localhost:8500";;
  es <-- check_elasticsearch;;
  _ <-- send_report CLUSTER_NAME "elasticsearch" (fst es) (snd es) "localhost:9200";;
  slept <-- Net.time_sleep CHECK_INTERVAL;;
  match slept with
  | None => Net.ret None
  | Some _ => Net.time_sleep 5
  end.

(** The first rounds of the loop. *)
Fixpoint main_rounds (rounds : nat) (CLUSTER_NAME : string) (CHECK_INTERVAL : Z)
    : Net.N (option string) :=
  match rounds with
  | O => Net.ret None
  | S rounds' =>
      raised <-- main_round CLUSTER_NAME CHECK_INTERVAL;;
      match raised with
      | None => main_rounds rounds' CLUSTER_NAME CHECK_INTERVAL
      | Some msg => Net.ret (Some msg)
      end
  end.

End Agent.

(** ** main.py *)

Module Main.

Definition CLUSTER_NAME : string := "casbx-mgmt-plane-us-central1".
Definition ES_ENDPOINT : string := "http://localhost:9200/es1/_cluster/health".

Definition send_report (cluster service : string) (healthy : bool) (details : string)
    : Net.N unit :=
  let payload :=
    {| report_cluster := Some cluster; report_service := Some service;
       report_healthy := Some healthy; report_details := Some details;
       report_consul_host := None |} in
  outcome <-- Net.requests_post (MCP_SERVER_URL +:+ "/report") payload 3;;
  Net.ret tt.

Definition check_vault : Net.N bool :=
  answer <-- Net.requests_get "http://localhost:8200/v1/sys/health" 5;;
  match answer with
  | Net.Responded resp => Net.ret (Net.status_code resp =? 200)
  | _ => Net.ret false
  end.

Definition check_consul : Net.N bool :=
  answer <-- Net.requests_get "http://localhost:8500/v1/status/leader" 5;;
  match answer with
  | Net.Responded resp =>
      Net.ret ((Net.status_code resp =? 200) && PyStr.contains "8300" (Net.text resp))
  | _ => Net.ret false
  end.

Definition check_elasticsearch : Net.N bool :=
  answer <-- Net.requests_get ES_ENDPOINT 5;;
  match answer with
  | Net.Responded resp =>
      Net.ret ((Net.status_code resp =? 200)
               && PyStr.contains (quote +:+ "status" +:+ quote) (Net.text resp))
  | _ => Net.ret false
  end.

Definition main : Net.N unit :=
  vault_healthy <-- check_vault;;
  _ <-- send_report CLUSTER_NAME "vault" vault_healthy "";;
  consul_healthy <-- check_consul;;
  _ <-- send_report CLUSTER_NAME "consul" consul_healthy "";;
  es_healthy <-- check_elasticsearch;;
  send_report CLUSTER_NAME "elasticsearch" es_healthy "".

End Main.

(** * Properties of the agents *)

Lemma net_bind_events {A B} (m : Net.N A) (f : A → Net.N B) n h :
  fst (Net.bind m f n h) = fst (m n h) ++ fst (f (snd (m n h)) n (h ++ fst (m n h))).
Proof. unfold Net.bind. destruct (m n h) as [evs a]. cbn [fst snd]. by destruct (f a n _). Qed.

Lemma net_bind_value {A B} (m : Net.N A) (f : A → Net.N B) n h :
  snd (Net.bind m f n h) = snd (f (snd (m n h)) n (h ++ fst (m n h))).
Proof. unfold Net.bind. destruct (m n h) as [evs a]. cbn [fst snd]. by destruct (f a n _). Qed.

(** A probe makes one request, whatever comes back. *)
Lemma agent_check_vault_events n h :
  fst (Agent.check_vault n h) = [Net.Get "http://localhost:8200/v1/sys/health" 5].
Proof.
  unfold Agent.check_vault. rewrite net_bind_events. cbn [fst snd Net.requests_get].
  destruct (Net.get_answer n h _) as [resp| | |msg]; [destruct (_ =? 200) |..]; done.
Qed.

Lemma agent_check_consul_events n h :
  fst (Agent.check_consul n h) = [Net.Get "http://localhost:8500/v1/status/leader" 5].
Proof.
  unfold Agent.check_consul. rewrite net_bind_events. cbn [fst snd Net.requests_get].
  destruct (Net.get_answer n h _) as [resp| | |msg]; [destruct (_ && _) |..]; done.
Qed.

Lemma agent_check_elasticsearch_events n h :
  fst (Agent.check_elasticsearch n h) = [Net.Get Agent.ES_ENDPOINT 5].
Proof.
  unfold Agent.check_elasticsearch. rewrite net_bind_events.
  cbn [fst snd Net.requests_get].
  destruct (Net.get_answer n h _) as [resp| | |msg]; try done.
  destruct (_ =? 200); [| done].
  destruct (Net.json resp) as [msg|[status_value name_value]]; [done |].
  cbv zeta. destruct (_ =? "green")%string; [done |].
  destruct (_ =? "yellow")%string; done.
Qed.

(** X20.  A probe of agent.py reports a service healthy only when its request
    was answered with status 200; for consul the body must moreover hold
    more than white space, and for elasticsearch the body must be a JSON
    object whose [status] is [green].  Refused connections, time-outs, other
    exceptions, other status codes and a yellow cluster all count as
    unhealthy. *)
Theorem agent_probes_healthy_only_on_200 (n : Net.net) (h : list Net.net_event) :
  (fst (snd (Agent.check_vault n h)) = true ↔
   ∃ resp, Net.get_answer n h "http://localhost:8200/v1/sys/health" = Net.Responded resp
           ∧ Net.status_code resp = 200)
  ∧ (fst (snd (Agent.check_consul n h)) = true ↔
     ∃ resp, Net.get_answer n h "http://localhost:8500/v1/status/leader"
             = Net.Responded resp
             ∧ Net.status_code resp = 200 ∧ PyStr.strip (Net.text resp) ≠ "")
  ∧ (fst (snd (Agent.check_elasticsearch n h)) = true ↔
     ∃ resp name, Net.get_answer n h "http://localhost:9200/_cluster/health"
                  = Net.Responded resp
                  ∧ Net.status_code resp = 200
                  ∧ Net.json resp = inr (Some "green", name)).
Proof.
  split; [| split].
  - unfold Agent.check_vault. rewrite net_bind_value. cbn [fst snd Net.requests_get].
    destruct (Net.get_answer n h _) as [resp| | |msg];
      try (split; [done | by intros (resp' & [=] & _)]).
    destruct (Z.eqb_spec (Net.status_code resp) 200) as [Hc|Hc]; cbn [fst snd Net.ret].
    + split; [by exists resp | done].
    + split; [done | by intros (resp' & [= <-] & Hc')].
  - unfold Agent.check_consul. rewrite net_bind_value. cbn [fst snd Net.requests_get].
    destruct (Net.get_answer n h _) as [resp| | |msg];
      try (split; [done | by intros (resp' & [=] & _)]).
    destruct (Z.eqb_spec (Net.status_code resp) 200) as [Hc|Hc]; cbn [andb].
    + destruct (PyStr.strip (Net.text resp)) as [|c s] eqn:Hs; cbn [PyStr.truthy fst snd Net.ret].
      * split; [done |]. intros (resp' & [= <-] & _ & Hne). by rewrite Hs in Hne.
      * split; [| done]. intros _. exists resp. by rewrite Hs.
    + cbn [fst snd Net.ret]. split; [done | by intros (resp' & [= <-] & Hc' & _)].
  - unfold Agent.check_elasticsearch. rewrite net_bind_value.
    cbn [fst snd Net.requests_get]. change Agent.ES_ENDPOINT
      with "http://localhost:9200/_cluster/health".
    destruct (Net.get_answer n h _) as [resp| | |msg];
      try (split; [done | by intros (resp' & name & [=] & _)]).
    destruct (Z.eqb_spec (Net.status_code resp) 200) as [Hc|Hc]; cbn [fst snd Net.ret].
    2: { split; [done | by intros (resp' & name & [= <-] & Hc' & _)]. }
    destruct (Net.json resp) as [msg|[status_value name_value]] eqn:Hj;
      cbn [fst snd Net.ret].
    { split; [done |]. intros (resp' & name & [= <-] & _ & Hj'). congruence. }
    cbv zeta.
    destruct (String.eqb_spec (default "unknown" status_value) "green") as [Hg|Hg].
    + cbn [fst snd Net.ret]. split; [| done]. intros _. exists resp, name_value.
      split; [done |]. split; [done |].
      destruct status_value as [s|]; cbn in Hg; by subst.
    + assert (Hfalse : ∀ b1 b2 : bool * string, fst b1 = false → fst b2 = false →
                fst (if (default "unknown" status_value =? "yellow")%string
                     then b1 else b2) = false)
        by (intros; by destruct (_ =? "yellow")%string).
      split.
      * destruct (_ =? "yellow")%string; done.
      * intros (resp' & name & [= <-] & _ & Hj'). rewrite Hj in Hj'.
        injection Hj' as -> ->. by cbn in Hg.
Qed.

(** The payload agent.py posts for a probe. *)
Definition agent_payload (cluster service : string) (probe : bool * string)
    (consul_host : string) : Report :=
  {| report_cluster := Some cluster; report_service := Some service;
     report_healthy := Some (fst probe); report_details := Some (snd probe);
     report_consul_host := Some consul_host |}.

Lemma agent_send_report_events cluster service healthy details consul_host n h :
  fst (Agent.send_report cluster service healthy details consul_host n h) =
  [Net.Post "http://localhost:7070/report"
     (agent_payload cluster service (healthy, details) consul_host) 3].
Proof. reflexivity. Qed.

(** [time.sleep] sleeps exactly when the interval is in range and the
    platform takes it; it raises otherwise, without an event. *)
Lemma time_sleep_cases (seconds : Z) (n : Net.net) (h : list Net.net_event) :
  let taken := (0 <=? seconds) && (seconds <=? 9223372036)
               && bool_decide (Net.sleep_answer n h seconds = None) in
  fst (Net.time_sleep seconds n h) = (if taken then [Net.Sleep seconds] else [])
  ∧ if taken then snd (Net.time_sleep seconds n h) = None
    else ∃ msg, snd (Net.time_sleep seconds n h) = Some msg.
Proof.
  cbv zeta. unfold Net.time_sleep, Net.PyTime_max_seconds.
  destruct (Z.ltb_spec seconds (Z.opp 9223372036)) as [Hlow|Hlow]; cbn [orb].
  { destruct (Z.leb_spec 0 seconds); [lia |]. cbn [andb fst snd]. eauto. }
  destruct (Z.ltb_spec 9223372036 seconds) as [Hhigh|Hhigh].
  { destruct (Z.leb_spec 0 seconds); [| cbn [andb fst snd]; eauto].
    destruct (Z.leb_spec seconds 9223372036); [lia |]. cbn [andb fst snd]. eauto. }
  destruct (Z.ltb_spec seconds 0) as [Hneg|Hneg].
  { destruct (Z.leb_spec 0 seconds); [lia |]. cbn [andb fst snd]. eauto. }
  destruct (Z.leb_spec 0 seconds); [| lia].
  destruct (Z.leb_spec seconds 9223372036); [| lia]. cbn [andb].
  destruct (Net.sleep_answer n h seconds) as [msg|]; cbn [fst snd].
  - rewrite bool_decide_eq_false_2 by done. eauto.
  - by rewrite bool_decide_eq_true_2.
Qed.

(** The sleep that ends a round: the check interval when [time.sleep]
    takes it, else the five seconds of the handler, when those are taken. *)
Lemma round_sleep_events (interval : Z) (n : Net.net) (h : list Net.net_event) :
  fst (Net.bind (Net.time_sleep interval)
         (λ slept, match slept with
                   | None => Net.ret None
                   | Some _ => Net.time_sleep 5
                   end) n h) =
  if (0 <=? interval) && (interval <=? 9223372036)
     && bool_decide (Net.sleep_answer n h interval = None)
  then [Net.Sleep interval]
  else if bool_decide (Net.sleep_answer n h 5 = None) then [Net.Sleep 5] else [].
Proof.
  rewrite net_bind_events.
  destruct (time_sleep_cases interval n h) as [Hev Hval]. cbv zeta in Hev, Hval.
  rewrite Hev.
  destruct ((0 <=? interval) && (interval <=? 9223372036)
            && bool_decide (Net.sleep_answer n h interval = None)).
  - by rewrite Hval.
  - destruct Hval as [msg ->]. cbn [app]. rewrite app_nil_r.
    by destruct (time_sleep_cases 5 n h) as [-> _].
Qed.

(** The trace of one round, step by step. *)
Lemma main_round_events (cluster : string) (interval : Z) (n : Net.net)
    (h : list Net.net_event) :
  let report_url := "http://localhost:7070/report" in
  let probe1 := Net.Get "http://localhost:8200/v1/sys/health" 5 in
  let post1 := Net.Post report_url
                 (agent_payload cluster "vault" (snd (Agent.check_vault n h))
                    "localhost:8200") 3 in
  let h1 := h ++ [probe1; post1] in
  let probe2 := Net.Get "http://localhost:8500/v1/status/leader" 5 in
  let post2 := Net.Post report_url
                 (agent_payload cluster "consul" (snd (Agent.check_consul n h1))
                    "localhost:8500") 3 in
  let h2 := h1 ++ [probe2; post2] in
  let probe3 := Net.Get "http://localhost:9200/_cluster/health" 5 in
  let post3 := Net.Post report_url
                 (agent_payload cluster "elasticsearch"
                    (snd (Agent.check_elasticsearch n h2)) "localhost:9200") 3 in
  let h3 := h2 ++ [probe3; post3] in
  fst (Agent.main_round cluster interval n h) =
  [probe1; post1; probe2; post2; probe3; post3] ++
  (if (0 <=? interval) && (interval <=? 9223372036)
      && bool_decide (Net.sleep_answer n h3 interval = None)
   then [Net.Sleep interval]
   else if bool_decide (Net.sleep_answer n h3 5 = None) then [Net.Sleep 5] else []).
Proof.
  cbv zeta. unfold Agent.main_round.
  rewrite net_bind_events, agent_check_vault_events.
  destruct (snd (Agent.check_vault n h)) as [b1 d1] eqn:H1. cbn [fst snd].
  rewrite net_bind_events, agent_send_report_events.
  rewrite <- !app_assoc. cbn [app].
  rewrite net_bind_events, agent_check_consul_events.
  destruct (snd (Agent.check_consul n _)) as [b2 d2] eqn:H2. cbn [fst snd].
  rewrite net_bind_events, agent_send_report_events.
  rewrite <- !app_assoc. cbn [app].
  rewrite net_bind_events, agent_check_elasticsearch_events.
  destruct (snd (Agent.check_elasticsearch n _)) as [b3 d3] eqn:H3. cbn [fst snd].
  rewrite net_bind_events, agent_send_report_events.
  rewrite <- !app_assoc. cbn [app].
  rewrite round_sleep_events. done.
Qed.

(** X21.  One round of the loop of agent.py makes the same six requests
    whatever the services and the server answer: it probes vault, consul and
    elasticsearch, in that order, and posts after each probe a report with
    the result of the probe, the cluster name and the local address of the
    service; a failed post changes nothing.  Then it sleeps for the check
    interval when [time.sleep] takes it.  When the interval is negative,
    longer than 9223372036 seconds or refused by the platform,
    [time.sleep] raises, and the handler of the loop sleeps five seconds
    instead. *)
Theorem agent_round_steps (cluster : string) (interval : Z) (n : Net.net)
    (h : list Net.net_event) :
  let report_url := "http://localhost:7070/report" in
  let probe1 := Net.Get "http://localhost:8200/v1/sys/health" 5 in
  let post1 := Net.Post report_url
                 (agent_payload cluster "vault" (snd (Agent.check_vault n h))
                    "localhost:8200") 3 in
  let h1 := h ++ [probe1; post1] in
  let probe2 := Net.Get "http://localhost:8500/v1/status/leader" 5 in
  let post2 := Net.Post report_url
                 (agent_payload cluster "consul" (snd (Agent.check_consul n h1))
                    "localhost:8500") 3 in
  let h2 := h1 ++ [probe2; post2] in
  let probe3 := Net.Get "http://localhost:9200/_cluster/health" 5 in
  let post3 := Net.Post report_url
                 (agent_payload cluster "elasticsearch"
                    (snd (Agent.check_elasticsearch n h2)) "localhost:9200") 3 in
  let h3 := h2 ++ [probe3; post3] in
  fst (Agent.main_round cluster interval n h) =
  [probe1; post1; probe2; post2; probe3; post3] ++
  (if (0 <=? interval) && (interval <=? 9223372036)
      && bool_decide (Net.sleep_answer n h3 interval = None)
   then [Net.Sleep interval]
   else if bool_decide (Net.sleep_answer n h3 5 = None) then [Net.Sleep 5] else []).
Proof. exact (main_round_events cluster interval n h). Qed.

Lemma append_inj_r (a x y : string) : a +:+ x = a +:+ y → x = y.
Proof.
  induction a as [|c a IH]; [done |].
  change (String c (a +:+ x) = String c (a +:+ y) → x = y). intros [= H]. by apply IH.
Qed.

Lemma healthy_insert (d : gmap string HealthRecord) key record :
  d !! key = None →
  size (filter (λ kv : string * HealthRecord, healthy kv.2 = true) (<[key := record]> d))
  = ((if healthy record then 1 else 0)
     + size (filter (λ kv : string * HealthRecord, healthy kv.2 = true) d))%nat.
Proof.
  intros Hnone. destruct (healthy record) eqn:Hh.
  - rewrite map_filter_insert_True by done.
    by rewrite map_size_insert_None by (by rewrite map_lookup_filter_None; left).
  - rewrite map_filter_insert_not' by (cbn; intros; congruence || by rewrite ?Hh).
    done.
Qed.

(** A sleep posts nothing. *)
Lemma posted_before_sleep evs (b1 b2 : bool) (s1 s2 : Z) :
  Net.posted (evs ++ (if b1 then [Net.Sleep s1]
                      else if b2 then [Net.Sleep s2] else []))
  = Net.posted evs.
Proof.
  unfold Net.posted. rewrite omap_app.
  destruct b1, b2; cbn [omap list_omap]; by rewrite app_nil_r.
Qed.

(** X22.  The registry of a server that starts empty and receives the reports of
    one round of agent.py: three services are monitored, and as many are
    healthy as probes of the round found their service healthy. *)
Theorem agent_round_fills_registry (cluster : string) (interval : Z) (n : Net.net)
    (h : list Net.net_event) (w : world) :
  let reports := Net.posted (fst (Agent.main_round cluster interval n h)) in
  let registry := receive_reports reports initial_heap in
  map report_key reports =
    [ Some (cluster +:+ "-vault"); Some (cluster +:+ "-consul");
      Some (cluster +:+ "-elasticsearch") ]
  ∧ total_services (get_status w registry) = 3%nat
  ∧ healthy_services (get_status w registry)
    = length (filter (λ report, report_healthy report = Some true) reports).
Proof.
  cbv zeta. rewrite main_round_events. cbv zeta. rewrite posted_before_sleep.
  set (p1 := snd (Agent.check_vault n h)).
  set (p2 := snd (Agent.check_consul n _)).
  set (p3 := snd (Agent.check_elasticsearch n _)).
  cbn [Net.posted omap list_omap]. split; [done |].
  set (k1 := cluster +:+ "-" +:+ "vault").
  set (k2 := cluster +:+ "-" +:+ "consul").
  set (k3 := cluster +:+ "-" +:+ "elasticsearch").
  assert (H12 : k1 ≠ k2) by (intros H; by apply append_inj_r in H).
  assert (H13 : k1 ≠ k3) by (intros H; by apply append_inj_r in H).
  assert (H23 : k2 ≠ k3) by (intros H; by apply append_inj_r in H).
  set (r1 := agent_payload cluster "vault" p1 "localhost:8200").
  set (r2 := agent_payload cluster "consul" p2 "localhost:8500").
  set (r3 := agent_payload cluster "elasticsearch" p3 "localhost:9200").
  assert (Hd : dict_at status_ref (receive_reports [r1; r2; r3] initial_heap) =
               Some (<[k3 := report_record r3]>
                       (<[k2 := report_record r2]> (<[k1 := report_record r1]> ∅)))).
  { rewrite !receive_reports_cons.
    apply (receive_report_status r3), (receive_report_status r2).
    exact (receive_report_status r1 initial_heap ∅ eq_refl). }
  unfold get_status. cbn [total_services healthy_services]. rewrite Hd.
  cbn [default from_option]. unfold id.
  assert (Hn1 : (∅ : gmap string HealthRecord) !! k1 = None) by apply lookup_empty.
  assert (Hn2 : (<[k1 := report_record r1]> (∅ : gmap string HealthRecord)) !! k2 = None)
    by (by rewrite lookup_insert_ne).
  assert (Hn3 : (<[k2 := report_record r2]>
                   (<[k1 := report_record r1]> (∅ : gmap string HealthRecord)))
                !! k3 = None)
    by (by rewrite !lookup_insert_ne).
  split.
  - rewrite !map_size_insert_None by done. by rewrite map_size_empty.
  - rewrite healthy_count, !healthy_insert by done.
    rewrite map_filter_empty, map_size_empty.
    unfold r1, r2, r3, agent_payload, report_record. cbn [report_healthy default healthy].
    rewrite !filter_cons, filter_nil. cbn [report_healthy].
    destruct (fst p1), (fst p2), (fst p3);
      repeat (destruct (decide _) as [?|?]; try congruence); done.
Qed.

Lemma main_check_vault_events n h :
  fst (Main.check_vault n h) = [Net.Get "http://localhost:8200/v1/sys/health" 5].
Proof.
  unfold Main.check_vault. rewrite net_bind_events. cbn [fst snd Net.requests_get].
  by destruct (Net.get_answer n h _).
Qed.

Lemma main_check_consul_events n h :
  fst (Main.check_consul n h) = [Net.Get "http://localhost:8500/v1/status/leader" 5].
Proof.
  unfold Main.check_consul. rewrite net_bind_events. cbn [fst snd Net.requests_get].
  by destruct (Net.get_answer n h _).
Qed.

Lemma main_check_elasticsearch_events n h :
  fst (Main.check_elasticsearch n h) = [Net.Get Main.ES_ENDPOINT 5].
Proof.
  unfold Main.check_elasticsearch. rewrite net_bind_events.
  cbn [fst snd Net.requests_get]. by destruct (Net.get_answer n h _).
Qed.

(** X23.  A run of main.py posts three reports, for vault, consul and
    elasticsearch of its fixed cluster, each with empty details and without
    [consul_host]; the server stores each of them with the details empty
    and the host [N/A], under the cluster name joined to the service. *)
Theorem main_reports_are_stored_with_defaults (n : Net.net) (h : list Net.net_event) :
  ∃ vault consul es : bool,
    map (λ report, (report_key report, report_record report))
        (Net.posted (fst (Main.main n h))) =
    [ (Some "casbx-mgmt-plane-us-central1-vault",
       {| healthy := vault; details := ""; consul_host := "N/A" |});
      (Some "casbx-mgmt-plane-us-central1-consul",
       {| healthy := consul; details := ""; consul_host := "N/A" |});
      (Some "casbx-mgmt-plane-us-central1-elasticsearch",
       {| healthy := es; details := ""; consul_host := "N/A" |}) ].
Proof.
  unfold Main.main.
  rewrite net_bind_events, main_check_vault_events.
  exists (snd (Main.check_vault n h)).
  rewrite net_bind_events. cbn [fst Main.send_report Net.bind Net.requests_post Net.ret app].
  rewrite <- !app_assoc. cbn [app].
  rewrite net_bind_events, main_check_consul_events.
  eexists.
  rewrite net_bind_events. cbn [fst Main.send_report Net.bind Net.requests_post Net.ret app].
  rewrite <- !app_assoc. cbn [app].
  rewrite net_bind_events, main_check_elasticsearch_events.
  eexists. cbn [fst Main.send_report Net.bind Net.requests_post Net.ret app].
  reflexivity.
Qed.

(** X24.  The two agents disagree on an elasticsearch that answers with status
    200 and a JSON object whose [status] is not [green] (a yellow or red
    cluster): main.py, which only looks for the word [status] in quotes in
    the body, reports it healthy, and agent.py reports it unhealthy. *)
Theorem agents_disagree_on_degraded_elasticsearch (n : Net.net)
    (h h' : list Net.net_event) (resp : Net.Response) (status : string)
    (name : option string) :
  Net.status_code resp = 200 →
  PyStr.contains (quote +:+ "status" +:+ quote) (Net.text resp) = true →
  Net.json resp = inr (Some status, name) →
  status ≠ "green" →
  Net.get_answer n h "http://localhost:9200/es1/_cluster/health" = Net.Responded resp →
  Net.get_answer n h' "http://localhost:9200/_cluster/health" = Net.Responded resp →
  snd (Main.check_elasticsearch n h) = true
  ∧ fst (snd (Agent.check_elasticsearch n h')) = false.
Proof.
  intros Hc Ht Hj Hs Hm Ha. split.
  - unfold Main.check_elasticsearch. rewrite net_bind_value.
    cbn [fst snd Net.requests_get]. change Main.ES_ENDPOINT
      with "http://localhost:9200/es1/_cluster/health".
    rewrite Hm. cbn [snd Net.ret]. by rewrite Hc, Ht.
  - unfold Agent.check_elasticsearch. rewrite net_bind_value.
    cbn [fst snd Net.requests_get]. change Agent.ES_ENDPOINT
      with "http://localhost:9200/_cluster/health".
    rewrite Ha, Hc, Hj. cbn [Z.eqb Pos.eqb from_option]. unfold id. cbv zeta.
    apply String.eqb_neq in Hs. rewrite Hs.
    by destruct (status =? "yellow")%string.
Qed.

Lemma agents_disagree_on_degraded_elasticsearch_witness :
  let resp := {| Net.status_code := 200;
                 Net.text := "{" +:+ quote +:+ "status" +:+ quote +:+ ":"
                             +:+ quote +:+ "red" +:+ quote +:+ "}";
                 Net.json := inr (Some "red", None) |} in
  let n := {| Net.get_answer := λ _ _, Net.Responded resp;
              Net.post_answer := λ _ _ _, None;
              Net.sleep_answer := λ _ _, None |} in
  snd (Main.check_elasticsearch n []) = true
  ∧ fst (snd (Agent.check_elasticsearch n [])) = false.
Proof.
  intros resp n.
  apply (agents_disagree_on_degraded_elasticsearch n [] [] resp "red" None);
    [reflexivity | reflexivity | reflexivity | discriminate | reflexivity | reflexivity].
Defined.

(** * Reading a replica count back *)

(** The value of a row of decimal digits read after [acc]. *)
Fixpoint uint_value (acc : Z) (d : Decimal.uint) : Z :=
  match d with
  | Decimal.Nil => acc
  | Decimal.D0 d' => uint_value (10 * acc + 0) d'
  | Decimal.D1 d' => uint_value (10 * acc + 1) d'
  | Decimal.D2 d' => uint_value (10 * acc + 2) d'
  | Decimal.D3 d' => uint_value (10 * acc + 3) d'
  | Decimal.D4 d' => uint_value (10 * acc + 4) d'
  | Decimal.D5 d' => uint_value (10 * acc + 5) d'
  | Decimal.D6 d' => uint_value (10 * acc + 6) d'
  | Decimal.D7 d' => uint_value (10 * acc + 7) d'
  | Decimal.D8 d' => uint_value (10 * acc + 8) d'
  | Decimal.D9 d' => uint_value (10 * acc + 9) d'
  end.

Lemma digits_string_of_uint d : ∀ acc after_digit,
  d ≠ Decimal.Nil ∨ after_digit = true →
  PyStr.digits acc after_digit (NilEmpty.string_of_uint d) = Some (uint_value acc d).
Proof.
  induction d as [|d IH|d IH|d IH|d IH|d IH|d IH|d IH|d IH|d IH|d IH];
    intros acc after_digit Hd.
  - destruct Hd as [Hd| ->]; done.
  - apply (IH (10 * acc + 0) true). by right.
  - apply (IH (10 * acc + 1) true). by right.
  - apply (IH (10 * acc + 2) true). by right.
  - apply (IH (10 * acc + 3) true). by right.
  - apply (IH (10 * acc + 4) true). by right.
  - apply (IH (10 * acc + 5) true). by right.
  - apply (IH (10 * acc + 6) true). by right.
  - apply (IH (10 * acc + 7) true). by right.
  - apply (IH (10 * acc + 8) true). by right.
  - apply (IH (10 * acc + 9) true). by right.
Qed.

(** Every character [str] writes for a number is a digit. *)
Lemma digit_count_string_of_uint d :
  PyStr.digit_count (NilEmpty.string_of_uint d) = Decimal.nb_digits d.
Proof.
  induction d as [|d IH|d IH|d IH|d IH|d IH|d IH|d IH|d IH|d IH|d IH];
    [done |..];
    cbn [NilEmpty.string_of_uint PyStr.digit_count Decimal.nb_digits];
    by rewrite IH.
Qed.

Lemma uint_value_pos d : ∀ p, uint_value (Z.pos p) d = Z.pos (Pos.of_uint_acc d p).
Proof.
  induction d as [|d IH|d IH|d IH|d IH|d IH|d IH|d IH|d IH|d IH|d IH]; intros p;
    cbn [uint_value Pos.of_uint_acc]; [done |..];
    rewrite <- IH; f_equal; lia.
Qed.

Lemma uint_value_zero d : uint_value 0 d = Z.of_N (Pos.of_uint d).
Proof.
  induction d as [|d IH|d IH|d IH|d IH|d IH|d IH|d IH|d IH|d IH|d IH];
    cbn [uint_value Pos.of_uint Z.of_N]; [done | exact IH |..];
    rewrite <- uint_value_pos; done.
Qed.

(** The digits read so far weigh as many powers of ten as digits follow. *)
Lemma uint_value_acc d : ∀ acc,
  uint_value acc d = acc * 10 ^ Z.of_nat (Decimal.nb_digits d) + uint_value 0 d.
Proof.
  induction d as [|d IH|d IH|d IH|d IH|d IH|d IH|d IH|d IH|d IH|d IH]; intros acc;
    cbn [uint_value Decimal.nb_digits];
    [change (Z.of_nat 0) with 0; rewrite Z.pow_0_r; lia |..];
    rewrite (IH (10 * acc + _)), (IH (10 * 0 + _)), Nat2Z.inj_succ, Z.pow_succ_r by lia;
    ring.
Qed.

Lemma uint_value_range d : 0 ≤ uint_value 0 d < 10 ^ Z.of_nat (Decimal.nb_digits d).
Proof.
  induction d as [|d IH|d IH|d IH|d IH|d IH|d IH|d IH|d IH|d IH|d IH];
    cbn [uint_value Decimal.nb_digits];
    [change (Z.of_nat 0) with 0; rewrite Z.pow_0_r; lia |..];
    rewrite uint_value_acc, Nat2Z.inj_succ, Z.pow_succ_r by lia;
    set (P := 10 ^ Z.of_nat (Decimal.nb_digits d)) in *; lia.
Qed.

(** A row of digits that starts with a digit other than 0. *)
Definition leading_nonzero (d : Decimal.uint) : Prop :=
  match d with
  | Decimal.Nil | Decimal.D0 _ => False
  | _ => True
  end.

Lemma uint_value_lower d :
  leading_nonzero d → 10 ^ (Z.of_nat (Decimal.nb_digits d) - 1) ≤ uint_value 0 d.
Proof.
  destruct d as [|d|d|d|d|d|d|d|d|d|d]; cbn [leading_nonzero]; try done; intros _;
    cbn [uint_value Decimal.nb_digits];
    rewrite uint_value_acc, Nat2Z.inj_succ;
    replace (Z.succ (Z.of_nat (Decimal.nb_digits d)) - 1)
      with (Z.of_nat (Decimal.nb_digits d)) by lia;
    pose proof (uint_value_range d);
    set (P := 10 ^ Z.of_nat (Decimal.nb_digits d)) in *; lia.
Qed.

(** [str] writes no leading zero. *)
Lemma to_uint_leading_nonzero p : leading_nonzero (Pos.to_uint p).
Proof.
  pose proof (Unsigned.to_of (Pos.to_uint p)) as Hnorm.
  rewrite Unsigned.of_to in Hnorm. cbn [N.to_uint] in Hnorm.
  pose proof (Unsigned.to_uint_nonzero p) as Hnz.
  pose proof (DecimalFacts.nzhead_nonzero (Pos.to_uint p)) as Hhead.
  unfold Decimal.unorm in Hnorm.
  destruct (Decimal.nzhead (Pos.to_uint p)) eqn:Hn;
    try (rewrite Hnorm; exact I).
  - by rewrite Hnorm in Hnz.
  - by destruct (Hhead u).
Qed.

(** A positive number has at most [k] digits exactly when it is below the
    [k]-th power of ten. *)
Lemma nb_digits_le p (k : nat) :
  (Decimal.nb_digits (Pos.to_uint p) <=? k)%nat = (Z.pos p <? 10 ^ Z.of_nat k).
Proof.
  pose proof (uint_value_range (Pos.to_uint p)) as [_ Hup].
  pose proof (uint_value_lower _ (to_uint_leading_nonzero p)) as Hlow.
  rewrite uint_value_zero, Unsigned.of_to in Hup, Hlow. cbn [Z.of_N] in Hup, Hlow.
  destruct (Nat.leb_spec (Decimal.nb_digits (Pos.to_uint p)) k) as [Hle|Hgt];
    symmetry.
  - apply Z.ltb_lt. eapply Z.lt_le_trans; [exact Hup |].
    apply Z.pow_le_mono_r; lia.
  - apply Z.ltb_ge. etrans; [| exact Hlow].
    apply Z.pow_le_mono_r; lia.
Qed.

Lemma rstrip_string_of_uint d :
  PyStr.rstrip (NilEmpty.string_of_uint d) = NilEmpty.string_of_uint d.
Proof.
  induction d as [|d IH|d IH|d IH|d IH|d IH|d IH|d IH|d IH|d IH|d IH];
    cbn [NilEmpty.string_of_uint PyStr.rstrip]; [done |..];
    rewrite IH; by destruct (NilEmpty.string_of_uint d).
Qed.

Lemma rstrip_cons c s :
  PyStr.isspace c = false → PyStr.rstrip s = s → PyStr.rstrip (String c s) = String c s.
Proof.
  intros Hc Hs. cbn [PyStr.rstrip]. rewrite Hs, Hc. by destruct s.
Qed.

Lemma literal_string_of_uint d :
  d ≠ Decimal.Nil →
  PyStr.literal (NilEmpty.string_of_uint d) =
  if (Decimal.nb_digits d <=? PyStr.int_max_str_digits)%nat
  then Some (uint_value 0 d) else None.
Proof.
  intros Hd. unfold PyStr.literal. rewrite digit_count_string_of_uint.
  by rewrite (digits_string_of_uint d 0 false (or_introl Hd)).
Qed.

Lemma to_Z_string_of_uint d :
  d ≠ Decimal.Nil →
  PyStr.to_Z (NilEmpty.string_of_uint d) = PyStr.literal (NilEmpty.string_of_uint d)
  ∧ PyStr.to_Z (String "-" (NilEmpty.string_of_uint d))
    = option_map Z.opp (PyStr.literal (NilEmpty.string_of_uint d))
  ∧ PyStr.strip (NilEmpty.string_of_uint d) = NilEmpty.string_of_uint d
  ∧ PyStr.strip (String "-" (NilEmpty.string_of_uint d))
    = String "-" (NilEmpty.string_of_uint d).
Proof.
  intros Hd.
  assert (Hl : PyStr.lstrip (NilEmpty.string_of_uint d) = NilEmpty.string_of_uint d)
    by (by destruct d).
  assert (Hs : PyStr.strip (NilEmpty.string_of_uint d) = NilEmpty.string_of_uint d)
    by (unfold PyStr.strip; by rewrite Hl, rstrip_string_of_uint).
  assert (Hm : PyStr.strip (String "-" (NilEmpty.string_of_uint d))
               = String "-" (NilEmpty.string_of_uint d)).
  { unfold PyStr.strip.
    change (PyStr.lstrip (String "-" (NilEmpty.string_of_uint d)))
      with (String "-" (NilEmpty.string_of_uint d)).
    apply rstrip_cons; [done | apply rstrip_string_of_uint]. }
  split; [| split; [| done]].
  - unfold PyStr.to_Z. rewrite Hs. by destruct d.
  - unfold PyStr.to_Z. by rewrite Hm.
Qed.

(** What [int] makes of what [str] wrote: the number itself up to 4300
    digits, [ValueError] beyond. *)
Lemma of_Z_to_Z (n : Z) :
  PyStr.to_Z (PyStr.of_Z n) = (if Z.abs n <? 10 ^ 4300 then Some n else None)
  ∧ PyStr.strip (PyStr.of_Z n) = PyStr.of_Z n.
Proof.
  change 4300 with (Z.of_nat PyStr.int_max_str_digits).
  destruct n as [|p|p].
  - split; [| done].
    change (PyStr.to_Z (PyStr.of_Z 0)) with (Some 0). change (Z.abs 0) with 0.
    assert (H : (0 <? 10 ^ Z.of_nat PyStr.int_max_str_digits) = true)
      by (apply Z.ltb_lt, Z.pow_pos_nonneg; lia).
    by rewrite H.
  - unfold PyStr.of_Z. cbn [Z.to_int NilZero.string_of_int Z.abs].
    pose proof (Unsigned.to_uint_nonnil p) as Hd.
    destruct (to_Z_string_of_uint (Pos.to_uint p) Hd) as (Hv & _ & Hs & _).
    assert (Hz : NilZero.string_of_uint (Pos.to_uint p)
                 = NilEmpty.string_of_uint (Pos.to_uint p))
      by (by destruct (Pos.to_uint p)).
    rewrite Hz, Hv, Hs, (literal_string_of_uint _ Hd), nb_digits_le.
    rewrite uint_value_zero, Unsigned.of_to. done.
  - unfold PyStr.of_Z. cbn [Z.to_int NilZero.string_of_int Z.abs].
    pose proof (Unsigned.to_uint_nonnil p) as Hd.
    destruct (to_Z_string_of_uint (Pos.to_uint p) Hd) as (_ & Hv & _ & Hs).
    assert (Hz : NilZero.string_of_uint (Pos.to_uint p)
                 = NilEmpty.string_of_uint (Pos.to_uint p))
      by (by destruct (Pos.to_uint p)).
    rewrite Hz, Hv, Hs, (literal_string_of_uint _ Hd), nb_digits_le.
    rewrite uint_value_zero, Unsigned.of_to. change (Z.abs (Z.neg p)) with (Z.pos p).
    split; [| done]. by destruct (Z.pos p <? _).
Qed.

(** [str] never writes the empty string. *)
Lemma of_Z_truthy (n : Z) : PyStr.truthy (PyStr.of_Z n) = true.
Proof.
  destruct n as [|p|p]; [done | |]; unfold PyStr.of_Z;
    cbn [Z.to_int NilZero.string_of_int]; [| done].
  by destruct (Pos.to_uint p).
Qed.

(** X12.  When [kubectl] exits with 0 and prints an integer in decimal,
    white space around it or not, [get_statefulset_replicas] returns that
    very integer as long as it has at most 4300 digits: what [str] writes,
    [int] reads back.  A longer number is refused by [int], and the result
    is 0. *)
Theorem replica_count_is_read_back (name ns : string) (w : world) (h : list event)
    (n : Z) (out err : string) :
  run_answer w h
    ["kubectl"; "get"; "statefulset"; name; "-n"; ns; "-o"; "jsonpath={.spec.replicas}"]
    (Some 10%nat) = Completed 0 out err →
  PyStr.strip out = PyStr.of_Z n →
  value (get_statefulset_replicas name ns w h)
  = Return (if Z.abs n <? 10 ^ 4300 then n else 0).
Proof.
  intros Hanswer Hout. rewrite get_statefulset_replicas_run. cbn [value].
  unfold read_argv, replicas_of_answer. rewrite Hanswer, Hout.
  destruct (of_Z_to_Z n) as [Hread _]. rewrite Hread. cbn [Z.eqb andb].
  rewrite of_Z_truthy. by destruct (Z.abs n <? 10 ^ 4300).
Qed.

Lemma replica_count_is_read_back_witness :
  value (get_statefulset_replicas "vault" "vault"
           (static_world (healthy_answer " 12
") None) []) = Return 12.
Proof.
  rewrite (replica_count_is_read_back "vault" "vault"
             (static_world (healthy_answer " 12
") None) [] 12 " 12
" "" eq_refl eq_refl).
  reflexivity.
Defined.

(** * The last resort and the scale-up *)

(** X9.  When the locator finds nothing but the StatefulSet of a last-resort
    pattern exists, elasticsearch is resolved to that pattern, with the name
    of the StatefulSet standing in for the service, and three replicas as
    the default. *)
Theorem last_resort_uses_statefulset_name (w : world) (h : list event)
    (ns sts svc : string) :
  let listing := Run ["kubectl"; "get"; "all"; "-n"; "elasticsearch"] (Some 10%nat) in
  let h1 := h ++ [listing] in
  value (find_elasticsearch_resources w h1) = Return None →
  let h2 := h1 ++ events (find_elasticsearch_resources w h1) in
  value (try_common_patterns common_patterns w h2) = Return (Some (ns, sts, svc)) →
  value (resolve "elasticsearch" w h) =
    Return (Some {| namespace := ns; statefulset_name := sts; service_name := sts;
                    default_replicas := 3 |})
  ∧ In (ns, sts) [ ("elasticsearch", "elasticsearch-master");
                   ("elasticsearch", "elasticsearch") ].
Proof.
  intros listing h1 Hf h2 Hc.
  pose proof (try_common_patterns_location common_patterns w h2 _ Hc) as Hloc.
  destruct (Hloc ns sts svc eq_refl) as [Hin ->].
  split.
  - change (resolve "elasticsearch") with (t <- resolve_elasticsearch;; ret (Some t)).
    rewrite value_bind. unfold resolve_elasticsearch.
    rewrite value_bind, listing_run. cbn [value events].
    change (h ++ [listing_call]) with h1.
    rewrite value_bind, Hf.
    change (h1 ++ events (find_elasticsearch_resources w h1)) with h2.
    rewrite value_bind, Hc. done.
  - cbn in Hin. destruct Hin as [H|[H|[H|[]]]]; injection H as <- <-; cbn; auto.
Qed.

Lemma last_resort_uses_statefulset_name_witness :
  let answer argv :=
    if (arg 2 argv =? "statefulset")%string then Completed 0 "" ""
    else Completed 1 "" "Error from server (NotFound)" in
  value (resolve "elasticsearch" (static_world answer None) []) =
  Return (Some {| namespace := "elasticsearch";
                  statefulset_name := "elasticsearch-master";
                  service_name := "elasticsearch-master"; default_replicas := 3 |}).
Proof.
  intros answer.
  exact (proj1 (last_resort_uses_statefulset_name (static_world answer None) []
                  "elasticsearch" "elasticsearch-master" "elasticsearch-master"
                  eq_refl eq_refl)).
Defined.

(** X6.  When the replica count reads 0 and the scale-up fails (non-zero exit,
    time-out or any other exception), the attempt ends with the scale
    command: no warm-up pause, no restart, no tunnel, and one [failed] entry
    that says the service could not be scaled back up. *)
Theorem scale_failure_ends_attempt (service : string) (w : world) (h : list event)
    (t : target) :
  value (resolve service w h) = Return (Some t) →
  let h1 := h ++ events (resolve service w h) in
  value (validate t w h1) = Return tt →
  let validated :=
    Run ["kubectl"; "get"; "statefulset"; statefulset_name t; "-n"; namespace t]
        (Some 10%nat) in
  value (get_statefulset_replicas (statefulset_name t) (namespace t) w
           (h1 ++ [validated])) = Return 0 →
  let read :=
    Run ["kubectl"; "get"; "statefulset"; statefulset_name t; "-n"; namespace t; "-o";
         "jsonpath={.spec.replicas}"] (Some 10%nat) in
  let cmd := ["kubectl"; "scale"; "statefulset"; statefulset_name t; "-n"; namespace t;
              "--replicas=" +:+ PyStr.of_Z (default_replicas t)] in
  succeeded (run_answer w (h1 ++ [validated; read]) cmd (Some 30%nat)) = false →
  remediate service w h =
  {| events := events (resolve service w h) ++ [validated; read; Run cmd (Some 30%nat)];
     appended :=
       [ {| entry_cluster := CLUSTER_NAME w; entry_service := service;
            entry_status := "failed";
            entry_message := "Unexpected error during remediation: Failed to scale "
                             +:+ service +:+ " back up" |} ];
     value := Return tt |}.
Proof.
  intros Hr h1 Hval validated Hn read cmd Hfail.
  rewrite get_statefulset_replicas_run in Hn. cbn [value] in Hn. injection Hn as Hn.
  pose proof (zero_replicas_run service w h t Hr Hval Hn) as Hrun.
  cbv zeta in Hrun. fold h1 in Hrun.
  change (Run (validate_argv t) (Some 10%nat)) with validated in Hrun.
  change (Run (read_argv (statefulset_name t) (namespace t)) (Some 10%nat))
    with read in Hrun.
  change (scale_argv (statefulset_name t) (namespace t) (default_replicas t))
    with cmd in Hrun.
  rewrite Hfail in Hrun. destruct Hrun as [Hev Ha].
  destruct (remediate_entry service w h) as (entry & Hv & _).
  apply run_ext. by rewrite Hev, Ha, Hv.
Qed.

Lemma scale_failure_ends_attempt_witness :
  let answer argv :=
    if (arg 1 argv =? "scale")%string then Completed 1 "" "forbidden"
    else healthy_answer "0" argv in
  appended (remediate "vault" (static_world answer None) []) =
  [ {| entry_cluster := "c1"; entry_service := "vault"; entry_status := "failed";
       entry_message :=
         "Unexpected error during remediation: Failed to scale vault back up" |} ].
Proof.
  intros answer.
  exact (f_equal appended
           (scale_failure_ends_attempt "vault" (static_world answer None) []
              {| namespace := "vault"; statefulset_name := "vault";
                 service_name := "vault"; default_replicas := 1 |}
              eq_refl eq_refl eq_refl eq_refl)).
Defined.
